(** * CMMS backend: a shallow embedding of the sync, search, colour and
      registration services, with the properties of the specification.

    The embedding follows the TypeScript sources:
    - [services/googleDocs.ts]  ([extractFullText], [getCmmsNamedRanges], [fetchDocument])
    - [services/sync.ts]        ([syncDocument], [syncAllDocuments], [logSync])
    - [services/search.ts]      ([searchSegments]: [getBaseConditions], [generateFacetWhere])
    - [services/color.ts]       ([assignColor], [recordColorUsage])
    - [services/segments.ts]    ([createSegment], [createAssociation], [updateMarkers])
    - [services/documents.ts]   ([registerDocument])
    - [middleware/validation.ts] (the offset refinements of the zod schemas)

    Conventions.  UUIDs, colours and Google file ids are strings, as in the
    code.  JavaScript numbers that hold offsets, counts and timestamps are
    integers ([Z]).  The PostgreSQL database is a record of tables (lists of
    rows); every service is a function in a state-and-exception monad over
    the [World] (tables, the open transaction of the service's client, the
    module-level [DEFAULT_PALETTE] array and the uuid supply).  The Google
    APIs and the clock are inputs.

    A statement fails when its values break a constraint declared in
    [schema.sql]: primary keys and UNIQUE, foreign keys, NOT NULL, the range
    of INTEGER and the length of VARCHAR(n).  Foreign keys to [users] are not
    checked: the user id of a call is the id of the authenticated user,
    whose row exists.  A statement outside [BEGIN ... COMMIT] is committed
    on its own.  Returning the client to the pool does not change the
    tables and is not modelled. *)

From Stdlib Require Import ZArith String Ascii List Lia Bool.
From stdpp Require Import base option list gmap strings pretty.

Set Warnings "-register-all".

Local Open Scope string_scope.
Local Open Scope list_scope.
Local Open Scope Z_scope.

(* ===================================================================== *)
(** ** JavaScript primitives used by the services *)
(* ===================================================================== *)

Module Js.

(** [String.prototype.substring(start, end)]: both indices are clamped to
    [0, length] and swapped when [start > end]. *)
Definition clamp (len z : Z) : Z := Z.max 0 (Z.min z len).

Definition substring (s : string) (start end_ : Z) : string :=
  let len := Z.of_nat (String.length s) in
  let a := clamp len start in
  let b := clamp len end_ in
  let lo := Z.min a b in
  let hi := Z.max a b in
  String.substring (Z.to_nat lo) (Z.to_nat (hi - lo)) s.

(** White space and line terminators removed by [String.prototype.trim]
    that are single bytes: U+0009 to U+000D and U+0020. *)
Definition is_whitespace (a : ascii) : bool :=
  let n := nat_of_ascii a in
  ((9 <=? n) && (n <=? 13))%nat || (n =? 32)%nat.

(** The string consists of white space only.  A string is the byte sequence
    of its UTF-8 encoding, in which the other white space of ECMAScript is
    C2 A0 (U+00A0), E1 9A 80 (U+1680), E2 80 80 to E2 80 8A (U+2000 to
    U+200A), E2 80 A8 and A9 (U+2028, U+2029), E2 80 AF (U+202F), E2 81 9F
    (U+205F), E3 80 80 (U+3000) and EF BB BF (U+FEFF). *)
Fixpoint only_whitespace (l : list ascii) : bool :=
  match l with
  | [] => true
  | a :: l1 =>
      if is_whitespace a then only_whitespace l1
      else
        match l1 with
        | b :: l2 =>
            let x := nat_of_ascii a in
            let y := nat_of_ascii b in
            if ((x =? 194) && (y =? 160))%nat then only_whitespace l2
            else
              match l2 with
              | c :: l3 =>
                  let z := nat_of_ascii c in
                  (((x =? 225) && (y =? 154) && (z =? 128))
                   || ((x =? 226) && (y =? 128)
                       && (((128 <=? z) && (z <=? 138)) || (z =? 168) || (z =? 169)
                           || (z =? 175)))
                   || ((x =? 226) && (y =? 129) && (z =? 159))
                   || ((x =? 227) && (y =? 128) && (z =? 128))
                   || ((x =? 239) && (y =? 187) && (z =? 191)))%nat
                  && only_whitespace l3
              | [] => false
              end
        | [] => false
        end
  end.

(** [s.trim() !== ''] *)
Definition trim_nonempty (s : string) : bool :=
  negb (only_whitespace (list_ascii_of_string s)).

(** [q && q.trim() !== ''] *)
Definition truthy_trimmed (s : string) : bool :=
  negb (String.eqb s "") && trim_nonempty s.

(** [s.startsWith(p)] and [s.replace(p, '')] for a prefix [p]. *)
Definition startsWith (p s : string) : bool := String.prefix p s.

Definition drop_prefix (p s : string) : string :=
  String.substring (String.length p) (String.length s - String.length p) s.

(** [Array.prototype.sort(cmp)]: a stable sort; [cmp a b <= 0] keeps [a]
    before [b].  Written as insertion from the right, which is stable. *)
Section Sort.
Context {A : Type} (cmp : A -> A -> Z).

Fixpoint insert (x : A) (l : list A) : list A :=
  match l with
  | [] => [x]
  | y :: ys => if cmp x y <=? 0 then x :: y :: ys else y :: insert x ys
  end.

Fixpoint sort (l : list A) : list A :=
  match l with
  | [] => []
  | x :: xs => insert x (sort xs)
  end.
End Sort.

End Js.

(* ===================================================================== *)
(** ** Errors *)
(* ===================================================================== *)

(** A thrown JavaScript error: [AppError] carries [statusCode]; errors of
    the Google client carry [code]. *)
Record JsError := mkError {
  message : string;
  statusCode : option Z;
  code : option Z
}.

Definition AppError (msg : string) (status : Z) : JsError :=
  {| message := msg; statusCode := Some status; code := None |}.

Global Instance JsError_eq_dec : EqDecision JsError.
Proof. solve_decision. Defined.

(* ===================================================================== *)
(** ** The Google Docs document ([docs_v1.Schema$Document]) *)
(* ===================================================================== *)

Module GoogleDocs.

Inductive ParagraphElement :=
| textRun (content : option string)
| otherParagraphElement.

Inductive StructuralElement :=
| paragraph (elements : list ParagraphElement)
| table (tableRows : list (list (list StructuralElement)))
| tableOfContents (content : list StructuralElement)
| sectionBreak
| otherElement.

(** One [Range] of a named range; an index that is not a number is [None]. *)
Record Range := { startIndex : option Z; endIndex : option Z }.

Record NamedRange := { ranges : option (list Range) }.

(** The value of one entry of [doc.namedRanges]. *)
Record NamedRanges := { namedRanges_of : option (list NamedRange) }.

Record Document := {
  title : option string;
  body : option (list StructuralElement);
  (** [Object.entries(doc.namedRanges || {})] *)
  namedRanges : list (string * NamedRanges)
}.

(** The offsets the services keep for one segment. *)
Record Offsets := { start : Z; end_ : Z }.

Global Instance Offsets_eq_dec : EqDecision Offsets.
Proof. solve_decision. Defined.

Definition concat_strings (l : list string) : string :=
  fold_right String.append "" l.

Definition readParagraphElement (e : ParagraphElement) : string :=
  match e with
  | textRun (Some c) => c
  | _ => ""
  end.

Fixpoint readStructuralElement (element : StructuralElement) : string :=
  match element with
  | paragraph elements => concat_strings (List.map readParagraphElement elements)
  | table rows =>
      concat_strings (List.map (fun row =>
        concat_strings (List.map (fun cell =>
          concat_strings (List.map readStructuralElement cell)) row)) rows)
  | tableOfContents content =>
      concat_strings (List.map readStructuralElement content)
  | sectionBreak => ""
  | otherElement => ""
  end.

Definition extractFullText (doc : Document) : string :=
  match body doc with
  | None => ""
  | Some content => concat_strings (List.map readStructuralElement content)
  end.

Definition cmms_prefix : string := "cmms_segment_".

(** The first range of the first instance, when both its indices are numbers. *)
Definition first_range (r : NamedRanges) : option Offsets :=
  match namedRanges_of r with
  | Some (nr :: _) =>
      match ranges nr with
      | Some ({| startIndex := Some s; endIndex := Some e |} :: _) =>
          Some {| start := s; end_ := e |}
      | _ => None
      end
  | _ => None
  end.

Definition getCmmsNamedRanges (doc : Document) : gmap string Offsets :=
  fold_left (fun cmmsRanges '(name, rangeObj) =>
    if Js.startsWith cmms_prefix name then
      match first_range rangeObj with
      | Some o => <[Js.drop_prefix cmms_prefix name := o]> cmmsRanges
      | None => cmmsRanges
      end
    else cmmsRanges) (namedRanges doc) ∅.

End GoogleDocs.

(* ===================================================================== *)
(** ** The relational schema ([schema.sql]) *)
(* ===================================================================== *)

(** Rows carry the columns the services read or write.  The generated
    columns of [segments] ([text_content_tsvector], [word_count]) are
    functions of [text_content] and [title] and are not stored. *)

Module User.
Record t := mk {
  id : string;
  watched_folder_id : option string
}.
End User.

(** The JSONB column [user_preferences.color_palette]. *)
Inductive Jsonb :=
| JsonNull
| JsonArray (items : list string)
| JsonOther.

Module UserPreferences.
Record t := mk {
  user_id : string;
  color_palette : Jsonb
}.
End UserPreferences.

Module Document.
Record t := mk {
  id : string;
  user_id : string;
  google_file_id : string;
  title : option string;
  google_folder_id : option string;
  mime_type : option string;
  last_synced_at : option Z;
  last_modified_at : option string;
  is_active : bool;
  updated_at : Z
}.

Definition set_is_active (b : bool) (now : option Z) (d : t) : t :=
  mk (id d) (user_id d) (google_file_id d) (title d) (google_folder_id d)
     (mime_type d) (last_synced_at d) (last_modified_at d) b
     (match now with Some n => n | None => updated_at d end).

Definition set_synced (new_title : option string) (now : Z) (d : t) : t :=
  mk (id d) (user_id d) (google_file_id d) new_title (google_folder_id d)
     (mime_type d) (Some now) (last_modified_at d) (is_active d) now.

Global Instance eq_dec : EqDecision t.
Proof. solve_decision. Defined.
End Document.

Module Segment.
Record t := mk {
  id : string;
  user_id : string;
  document_id : string;
  category_id : string;
  start_offset : Z;
  end_offset : Z;
  text_content : string;
  title : option string;
  color : string;
  is_primary : bool;
  created_at : Z;
  updated_at : Z
}.

(** [SET start_offset = $1, end_offset = $2, text_content = $3, updated_at = NOW()] *)
Definition set_offsets_text (s e : Z) (txt : string) (now : Z) (r : t) : t :=
  mk (id r) (user_id r) (document_id r) (category_id r) s e txt
     (title r) (color r) (is_primary r) (created_at r) now.

(** [SET start_offset = $1, end_offset = $2, updated_at = NOW()] *)
Definition set_offsets (s e : Z) (now : Z) (r : t) : t :=
  mk (id r) (user_id r) (document_id r) (category_id r) s e (text_content r)
     (title r) (color r) (is_primary r) (created_at r) now.

Global Instance eq_dec : EqDecision t.
Proof. solve_decision. Defined.
End Segment.

Module ColorUsage.
Record t := mk {
  user_id : string;
  color : string;
  last_used_at : Z;
  usage_count : Z
}.
End ColorUsage.

Module Association.
Record t := mk {
  source_segment_id : string;
  target_segment_id : string;
  association_type : string
}.
End Association.

(** The result of one reconciliation ([types/sync.ts], as used by [syncDocument]). *)
Inductive SyncStatusTag := success | failed.

Inductive ConflictType := marker_missing | document_access_lost.

Record Conflict := {
  conflict_segment_id : string;
  conflict_type : ConflictType;
  details : string
}.

Record Orphan := {
  orphan_id : string;
  orphan_title : option string;
  last_text : string
}.

Record SyncResult := {
  status : SyncStatusTag;
  updated_segments : Z;
  repositioned_segments : Z;
  orphaned_segments : list Orphan;
  conflicts : list Conflict
}.

Record SyncError := { error_document_id : string; error : string }.

Record FullSyncResult := {
  documents_synced : Z;
  documents_added : Z;
  documents_removed : Z;
  segments_updated : Z;
  errors : list SyncError
}.

(** [JSON.stringify(details)] of a [sync_log] row. *)
Inductive LogDetails :=
| DetailsError (msg : string)
| DetailsSync (r : SyncResult)
| DetailsFullSync (r : FullSyncResult).

Module SyncLog.
Record t := mk {
  user_id : string;
  document_id : option string;
  action : string;
  status : string;
  details : LogDetails
}.
End SyncLog.

Record Tables := {
  users : list User.t;
  user_preferences : list UserPreferences.t;
  categories : list string;              (* ids of [categories] *)
  tags : list string;                    (* ids of [tags] *)
  documents : list Document.t;
  segments : list Segment.t;
  segment_tags : list (string * string); (* (segment_id, tag_id) *)
  segment_associations : list Association.t;
  color_usage : list ColorUsage.t;
  sync_log : list SyncLog.t
}.

Definition with_documents (f : list Document.t -> list Document.t) (t : Tables) : Tables :=
  {| users := users t; user_preferences := user_preferences t;
     categories := categories t; tags := tags t;
     documents := f (documents t); segments := segments t;
     segment_tags := segment_tags t;
     segment_associations := segment_associations t;
     color_usage := color_usage t; sync_log := sync_log t |}.

Definition with_segments (f : list Segment.t -> list Segment.t) (t : Tables) : Tables :=
  {| users := users t; user_preferences := user_preferences t;
     categories := categories t; tags := tags t;
     documents := documents t; segments := f (segments t);
     segment_tags := segment_tags t;
     segment_associations := segment_associations t;
     color_usage := color_usage t; sync_log := sync_log t |}.

Definition with_segment_tags (f : list (string * string) -> list (string * string))
    (t : Tables) : Tables :=
  {| users := users t; user_preferences := user_preferences t;
     categories := categories t; tags := tags t;
     documents := documents t; segments := segments t;
     segment_tags := f (segment_tags t);
     segment_associations := segment_associations t;
     color_usage := color_usage t; sync_log := sync_log t |}.

Definition with_segment_associations
    (f : list Association.t -> list Association.t) (t : Tables) : Tables :=
  {| users := users t; user_preferences := user_preferences t;
     categories := categories t; tags := tags t;
     documents := documents t; segments := segments t;
     segment_tags := segment_tags t;
     segment_associations := f (segment_associations t);
     color_usage := color_usage t; sync_log := sync_log t |}.

Definition with_color_usage (f : list ColorUsage.t -> list ColorUsage.t) (t : Tables) : Tables :=
  {| users := users t; user_preferences := user_preferences t;
     categories := categories t; tags := tags t;
     documents := documents t; segments := segments t;
     segment_tags := segment_tags t;
     segment_associations := segment_associations t;
     color_usage := f (color_usage t); sync_log := sync_log t |}.

Definition with_sync_log (f : list SyncLog.t -> list SyncLog.t) (t : Tables) : Tables :=
  {| users := users t; user_preferences := user_preferences t;
     categories := categories t; tags := tags t;
     documents := documents t; segments := segments t;
     segment_tags := segment_tags t;
     segment_associations := segment_associations t;
     color_usage := color_usage t; sync_log := f (sync_log t) |}.

Definition empty_tables : Tables :=
  {| users := []; user_preferences := []; categories := []; tags := [];
     documents := []; segments := []; segment_tags := [];
     segment_associations := []; color_usage := []; sync_log := [] |}.

(* ===================================================================== *)
(** ** Search and facets ([services/search.ts]) *)
(* ===================================================================== *)

Module Search.

Inductive TagLogic := AND | OR.

Record DateRange := {
  range_start : option Z;
  range_end : option Z
}.

Record SearchFilters := {
  category_ids : option (list string);
  tag_ids : option (list string);
  tag_logic : option TagLogic;
  document_ids : option (list string);
  date_range : option DateRange;
  is_primary : option bool
}.

(** [filters = {}] *)
Definition no_filters : SearchFilters :=
  {| category_ids := None; tag_ids := None; tag_logic := None;
     document_ids := None; date_range := None; is_primary := None |}.

Record SearchRequestDTO := {
  query : string;
  filters : SearchFilters;
  limit : Z;
  offset : Z
}.

Inductive ExcludeFacet := none | category | tags.

Global Instance ExcludeFacet_eq_dec : EqDecision ExcludeFacet.
Proof. solve_decision. Defined.

(** A bound query parameter. *)
Inductive SqlValue :=
| VText (s : string)
| VUuidArray (l : list string)
| VBool (b : bool)
| VTimestamp (z : Z)
| VInt (z : Z).

(** The conditions the service writes; [p] is the index of [$p]. *)
Inductive SqlCond :=
| user_id_eq (p : nat)                    (* s.user_id = $p *)
| tsvector_matches (p : nat)              (* s.text_content_tsvector @@ websearch_to_tsquery('english', $p) *)
| category_id_any (p : nat)               (* s.category_id = ANY($p::uuid[]) *)
| document_id_any (p : nat)               (* s.document_id = ANY($p::uuid[]) *)
| is_primary_eq (p : nat)                 (* s.is_primary = $p *)
| created_at_ge (p : nat)                 (* s.created_at >= $p *)
| created_at_le (p : nat)                 (* s.created_at <= $p *)
| exists_tag_any (p : nat)                (* EXISTS (SELECT 1 FROM segment_tags st WHERE st.segment_id = s.id AND st.tag_id = ANY($p)) *)
| count_distinct_tags_eq (p : nat) (n : nat).
                                          (* (SELECT COUNT(DISTINCT st.tag_id) FROM segment_tags st WHERE st.segment_id = s.id AND st.tag_id = ANY($p)) = n *)

(** [array?.length] as a condition: the array is present and not empty. *)
Definition has_length (o : option (list string)) : bool :=
  match o with
  | Some (_ :: _) => true
  | _ => false
  end.

Definition ids_of (o : option (list string)) : list string := default [] o.

(** [addFilter]: push the value, return the condition on its index. *)
Definition addFilter (condition : nat -> SqlCond) (value : SqlValue)
    (queryParams : list SqlValue) : SqlCond * list SqlValue :=
  let queryParams := queryParams ++ [value] in
  (condition (length queryParams), queryParams).

(** [if (test) conditions.push(addFilter(...))] on the pair of the
    conditions and the shared parameter array. *)
Definition push_filter (test : bool) (condition : nat -> SqlCond) (value : SqlValue)
    (acc : list SqlCond * list SqlValue) : list SqlCond * list SqlValue :=
  if test then
    let '(c, queryParams) := addFilter condition value acc.2 in
    (acc.1 ++ [c], queryParams)
  else acc.

Definition getBaseConditions (userId : string) (filters : SearchFilters)
    (tsQueryParamIndex : nat) (queryParams : list SqlValue)
    (excludeFacet : ExcludeFacet) : list SqlCond * list SqlValue :=
  let acc := ([user_id_eq 1], queryParams) in
  (* Text Search *)
  let acc := if (0 <? tsQueryParamIndex)%nat
             then (acc.1 ++ [tsvector_matches tsQueryParamIndex], acc.2) else acc in
  (* Category *)
  let acc := push_filter
               (has_length (category_ids filters) && negb (bool_decide (excludeFacet = category)))
               category_id_any (VUuidArray (ids_of (category_ids filters))) acc in
  (* Document *)
  let acc := push_filter (has_length (document_ids filters))
               document_id_any (VUuidArray (ids_of (document_ids filters))) acc in
  (* Is Primary *)
  let acc := match is_primary filters with
             | Some b => push_filter true is_primary_eq (VBool b) acc
             | None => acc
             end in
  (* Date Range *)
  let acc := match date_range filters with
             | Some r =>
                 let acc := match range_start r with
                            | Some t => push_filter true created_at_ge (VTimestamp t) acc
                            | None => acc
                            end in
                 match range_end r with
                 | Some t => push_filter true created_at_le (VTimestamp t) acc
                 | None => acc
                 end
             | None => acc
             end in
  (* Tags *)
  if has_length (tag_ids filters) && negb (bool_decide (excludeFacet = tags)) then
    let logic := default AND (tag_logic filters) in
    let tag_ids := ids_of (tag_ids filters) in
    let queryParams := acc.2 ++ [VUuidArray tag_ids] in
    let tagArrayParam := length queryParams in
    match logic with
    | OR => (acc.1 ++ [exists_tag_any tagArrayParam], queryParams)
    | AND => (acc.1 ++ [count_distinct_tags_eq tagArrayParam (length tag_ids)], queryParams)
    end
  else acc.

(** [generateFacetWhere(exclude, paramsArray)]; [exclude] is ['category']
    or ['tags']. *)
Definition generateFacetWhere (filters : SearchFilters) (tsQueryParamIndex : nat)
    (exclude : ExcludeFacet) (paramsArray : list SqlValue)
    : list SqlCond * list SqlValue :=
  let acc := ([user_id_eq 1], paramsArray) in
  let acc := if (0 <? tsQueryParamIndex)%nat
             then (acc.1 ++ [tsvector_matches 2], acc.2) else acc in
  let acc := push_filter (has_length (document_ids filters))
               document_id_any (VUuidArray (ids_of (document_ids filters))) acc in
  let acc := match is_primary filters with
             | Some b => push_filter true is_primary_eq (VBool b) acc
             | None => acc
             end in
  (* Date range (omitted for brevity in facet logic, usually standard) *)
  let acc := push_filter
               (negb (bool_decide (exclude = category)) && has_length (category_ids filters))
               category_id_any (VUuidArray (ids_of (category_ids filters))) acc in
  push_filter
    (negb (bool_decide (exclude = tags)) && has_length (tag_ids filters))
    exists_tag_any (VUuidArray (ids_of (tag_ids filters))) acc.

(** The four statements [searchSegments] runs: their WHERE clauses and
    parameter arrays. *)
Record SearchPlan := {
  mainWhereClause : list SqlCond;
  mainQueryParams : list SqlValue;  (* queryParams, then limit and offset *)
  queryParams : list SqlValue;      (* the count query *)
  catFacetWhere : list SqlCond;
  catFacetParams : list SqlValue;
  tagFacetWhere : list SqlCond;
  tagFacetParams : list SqlValue
}.

Definition initial_params (userId : string) (dto : SearchRequestDTO) : list SqlValue :=
  if Js.truthy_trimmed (query dto) then [VText userId; VText (query dto)]
  else [VText userId].

Definition tsQueryParamIndex (dto : SearchRequestDTO) : nat :=
  if Js.truthy_trimmed (query dto) then 2%nat else 0%nat.

Definition plan (userId : string) (dto : SearchRequestDTO) : SearchPlan :=
  let ts := tsQueryParamIndex dto in
  let main := getBaseConditions userId (filters dto) ts (initial_params userId dto) none in
  let cat := generateFacetWhere (filters dto) ts category (initial_params userId dto) in
  let tag := generateFacetWhere (filters dto) ts tags (initial_params userId dto) in
  {| mainWhereClause := main.1;
     mainQueryParams := main.2 ++ [VInt (limit dto); VInt (offset dto)];
     queryParams := main.2;
     catFacetWhere := cat.1;
     catFacetParams := cat.2;
     tagFacetWhere := tag.1;
     tagFacetParams := tag.2 |}.

(** *** Evaluation of a WHERE clause on a row of [segments] *)
Section Eval.
(** [tsvector @@ websearch_to_tsquery('english', q)] of PostgreSQL. *)
Variable ts_match : string -> Segment.t -> bool.
Variable db : Tables.

Definition param (params : list SqlValue) (p : nat) : option SqlValue :=
  match p with
  | O => None
  | S k => params !! k
  end.

(** The tag ids of the rows of [segment_tags] of a segment. *)
Definition tags_of (s : Segment.t) : list string :=
  (List.filter (fun st => bool_decide (st.1 = Segment.id s)) (segment_tags db)).*2.

Definition matched_tags (T : list string) (s : Segment.t) : list string :=
  List.filter (fun t => bool_decide (t ∈ T)) (tags_of s).

(** A condition on a row; [None] is an SQL error (missing parameter or
    a parameter of the wrong type). *)
Definition eval_cond (params : list SqlValue) (s : Segment.t) (c : SqlCond)
    : option bool :=
  match c with
  | user_id_eq p =>
      match param params p with
      | Some (VText u) => Some (bool_decide (Segment.user_id s = u))
      | _ => None
      end
  | tsvector_matches p =>
      match param params p with
      | Some (VText q) => Some (ts_match q s)
      | _ => None
      end
  | category_id_any p =>
      match param params p with
      | Some (VUuidArray l) => Some (bool_decide (Segment.category_id s ∈ l))
      | _ => None
      end
  | document_id_any p =>
      match param params p with
      | Some (VUuidArray l) => Some (bool_decide (Segment.document_id s ∈ l))
      | _ => None
      end
  | is_primary_eq p =>
      match param params p with
      | Some (VBool b) => Some (Bool.eqb (Segment.is_primary s) b)
      | _ => None
      end
  | created_at_ge p =>
      match param params p with
      | Some (VTimestamp t) => Some (t <=? Segment.created_at s)
      | _ => None
      end
  | created_at_le p =>
      match param params p with
      | Some (VTimestamp t) => Some (Segment.created_at s <=? t)
      | _ => None
      end
  | exists_tag_any p =>
      match param params p with
      | Some (VUuidArray l) => Some (negb (Nat.eqb (length (matched_tags l s)) 0))
      | _ => None
      end
  | count_distinct_tags_eq p n =>
      match param params p with
      | Some (VUuidArray l) =>
          Some (Nat.eqb (length (remove_dups (matched_tags l s))) n)
      | _ => None
      end
  end.

(** [conditions.join(' AND ')] *)
Fixpoint where_holds (conds : list SqlCond) (params : list SqlValue)
    (s : Segment.t) : option bool :=
  match conds with
  | [] => Some true
  | c :: cs =>
      match eval_cond params s c, where_holds cs params s with
      | Some b, Some bs => Some (b && bs)
      | _, _ => None
      end
  end.

Definition select_where (conds : list SqlCond) (params : list SqlValue)
    : list Segment.t :=
  List.filter (fun s => bool_decide (where_holds conds params s = Some true))
    (segments db).

(** The rows of the main listing before ORDER BY, LIMIT and OFFSET. *)
Definition main_rows (p : SearchPlan) : list Segment.t :=
  select_where (mainWhereClause p) (mainQueryParams p).

(** [SELECT COUNT(DISTINCT s.id) FROM segments s WHERE mainWhereClause] *)
Definition total (p : SearchPlan) : nat :=
  length (remove_dups (Segment.id <$> select_where (mainWhereClause p) (queryParams p))).

(** The count of the category facet for category [c] (before LIMIT 20). *)
Definition category_facet_count (p : SearchPlan) (c : string) : nat :=
  length (List.filter (fun s => bool_decide (Segment.category_id s = c))
            (select_where (catFacetWhere p) (catFacetParams p))).

(** The count of the tag facet for tag [t]: one joined row per selected
    segment and row of [segment_tags] of that segment with tag [t]. *)
Definition tag_facet_count (p : SearchPlan) (t : string) : nat :=
  length (flat_map (fun s =>
            List.filter (fun st =>
              bool_decide (st.1 = Segment.id s) && bool_decide (st.2 = t))
              (segment_tags db))
          (select_where (tagFacetWhere p) (tagFacetParams p))).

End Eval.

End Search.

(* ===================================================================== *)
(** ** The world of a request, and the monad of the services *)
(* ===================================================================== *)

(** [tables] is the committed database as the service's connection sees it;
    [txn] is the snapshot taken by [BEGIN], restored by [ROLLBACK].
    [DEFAULT_PALETTE] is the module-level array of [color.ts] (shared by all
    calls, and sorted in place by one of them).  [uuid_seed] numbers the
    values of [gen_random_uuid()]. *)
Record World := {
  tables : Tables;
  txn : option Tables;
  DEFAULT_PALETTE : list string;
  uuid_seed : nat
}.

Definition set_tables (t : Tables) (w : World) : World :=
  {| tables := t; txn := txn w; DEFAULT_PALETTE := DEFAULT_PALETTE w;
     uuid_seed := uuid_seed w |}.

Definition set_txn (x : option Tables) (w : World) : World :=
  {| tables := tables w; txn := x; DEFAULT_PALETTE := DEFAULT_PALETTE w;
     uuid_seed := uuid_seed w |}.

Definition set_DEFAULT_PALETTE (p : list string) (w : World) : World :=
  {| tables := tables w; txn := txn w; DEFAULT_PALETTE := p;
     uuid_seed := uuid_seed w |}.

Definition set_uuid_seed (n : nat) (w : World) : World :=
  {| tables := tables w; txn := txn w; DEFAULT_PALETTE := DEFAULT_PALETTE w;
     uuid_seed := n |}.

Inductive Outcome (A : Type) :=
| Return (a : A) (w : World)
| Throw (e : JsError) (w : World).
Arguments Return {A} a w.
Arguments Throw {A} e w.

Definition world_of {A} (o : Outcome A) : World :=
  match o with
  | Return _ w => w
  | Throw _ w => w
  end.

Definition M (A : Type) : Type := World -> Outcome A.

Definition ret {A} (a : A) : M A := fun w => Return a w.

Definition bind {A B} (m : M A) (k : A -> M B) : M B :=
  fun w =>
    match m w with
    | Return a w' => k a w'
    | Throw e w' => Throw e w'
    end.

Definition throw {A} (e : JsError) : M A := fun w => Throw e w.

(** [try { m } catch (error) { handler error }] *)
Definition try_catch {A} (m : M A) (handler : JsError -> M A) : M A :=
  fun w =>
    match m w with
    | Return a w' => Return a w'
    | Throw e w' => handler e w'
    end.

Notation "'do' x <- m ; k" := (bind m (fun x => k))
  (at level 10, x name, m at level 100, k at level 200).
Notation "m ;; k" := (bind m (fun _ => k))
  (at level 100, k at level 200, right associativity).

(** A promise that is already settled. *)
Definition await {A} (r : JsError + A) : M A :=
  match r with
  | inl e => throw e
  | inr a => ret a
  end.

(** [SELECT]: read the tables. *)
Definition query {A} (f : Tables -> A) : M A := fun w => Return (f (tables w)) w.

(** A statement that writes the tables. *)
Definition execute (f : Tables -> Tables) : M unit :=
  fun w => Return tt (set_tables (f (tables w)) w).

(** A constraint of the schema: the statement fails when it does not hold. *)
Definition check (ok : bool) (e : JsError) : M unit :=
  if ok then ret tt else throw e.

(** An error raised by PostgreSQL.  Its [code] is an SQLSTATE string, which
    is never one of the numeric codes the services test. *)
Definition pg_error (msg : string) : JsError :=
  {| message := msg; statusCode := None; code := None |}.

Definition BEGIN : M unit := fun w => Return tt (set_txn (Some (tables w)) w).

Definition COMMIT : M unit := fun w => Return tt (set_txn None w).

(** Outside a transaction [ROLLBACK] only warns. *)
Definition ROLLBACK : M unit :=
  fun w => Return tt (set_txn None (set_tables (default (tables w) (txn w)) w)).

Definition gen_random_uuid : M string :=
  fun w => Return ("uuid-" +:+ pretty (uuid_seed w)) (set_uuid_seed (S (uuid_seed w)) w).

(** Column types of the schema. *)
Definition int4 (z : Z) : bool := (-2147483648 <=? z) && (z <=? 2147483647).

(** The value fits a VARCHAR(n) column and is stored as it is.  (Of a longer
    value PostgreSQL cuts the excess characters when they are all spaces and
    raises otherwise; the statements below raise for every longer value.) *)
Definition varchar (n : nat) (s : string) : bool := (String.length s <=? n)%nat.

Definition varchar_opt (n : nat) (s : option string) : bool :=
  match s with
  | Some s => varchar n s
  | None => true
  end.

(* ===================================================================== *)
(** ** The Google APIs and the clock *)
(* ===================================================================== *)

Module Drive.
Record File := { id : string; name : option string }.

Record Metadata := {
  meta_name : option string;
  mimeType : option string;
  parents : option (list string);
  modifiedTime : option string
}.
End Drive.

(** The calls of [googleapis] made by the services, as functions of their
    arguments (the OAuth client of the code carries no credentials of the
    user), and the value of [NOW()] during the request. *)
Record Env := {
  now : Z;
  docs_documents_get : string -> JsError + GoogleDocs.Document;
  drive_files_list : string -> JsError + list Drive.File;
  drive_files_get : string -> JsError + Drive.Metadata;
  drive_files_copy : string -> string -> option string -> JsError + string;
  drive_files_update : string -> string -> option JsError
}.

Definition code_is (e : JsError) (n : Z) : bool := bool_decide (code e = Some n).

Definition statusCode_is (e : JsError) (n : Z) : bool :=
  bool_decide (statusCode e = Some n).

(** [googleDocs.fetchDocument] *)
Definition fetchDocument (env : Env) (userId googleDocId : string)
    : JsError + GoogleDocs.Document :=
  match docs_documents_get env googleDocId with
  | inr data => inr data
  | inl error =>
      if code_is error 404 then inl (AppError "Document not found in Google Drive" 404)
      else if code_is error 403 then inl (AppError "Permission denied for this document" 403)
      else inl error
  end.

(** [drive.getFileMetadata] *)
Definition getFileMetadata (env : Env) (userId fileId : string)
    : JsError + Drive.Metadata :=
  match drive_files_get env fileId with
  | inr data => inr data
  | inl error =>
      if code_is error 404 then inl (AppError "File not found in Google Drive" 404)
      else if code_is error 403 then inl (AppError "Permission denied for this file" 403)
      else inl error
  end.

(** [drive.copyFileToFolder] *)
Definition copyFileToFolder (env : Env) (userId fileId folderId : string)
    (name : option string) : JsError + string :=
  drive_files_copy env fileId folderId name.

(** [drive.updateFileProperties]; the properties written are
    [cmms_registered] and [cmms_doc_id]. *)
Definition updateFileProperties (env : Env) (userId fileId docId : string)
    : JsError + unit :=
  match drive_files_update env fileId docId with
  | Some e => inl e
  | None => inr tt
  end.

(** [listDriveFiles] of [sync.ts] *)
Definition listDriveFiles (env : Env) (userId folderId : string)
    : JsError + list Drive.File :=
  drive_files_list env folderId.

(* ===================================================================== *)
(** ** Documents ([services/documents.ts]) *)
(* ===================================================================== *)

Module Documents.

Record CreateDocumentDTO := {
  google_file_id : string;
  copy_to_folder : option bool
}.

Definition owned_file (userId fileId : string) (d : Document.t) : bool :=
  bool_decide (Document.user_id d = userId) &&
  bool_decide (Document.google_file_id d = fileId).

(** [UPDATE documents SET is_active = $b WHERE id = $1]; the trigger
    [update_docs_modtime] refreshes [updated_at]. *)
Definition update_is_active (env : Env) (b : bool) (docId : string) : M unit :=
  execute (with_documents (List.map (fun d =>
    if bool_decide (Document.id d = docId)
    then Document.set_is_active b (Some (now env)) d else d))).

(** [INSERT INTO documents (...) VALUES (...) RETURNING *] *)
Definition insert_document (env : Env) (userId fileId : string)
    (meta : Drive.Metadata) (parentId : option string) : M Document.t :=
  do docs <- query documents;
  check (negb (existsb (owned_file userId fileId) docs))
    (pg_error "duplicate key value violates unique constraint") ;;
  check (varchar 255 fileId && varchar_opt 500 (Drive.meta_name meta) &&
         varchar_opt 255 parentId && varchar_opt 100 (Drive.mimeType meta))
    (pg_error "value too long for type character varying") ;;
  do newId <- gen_random_uuid ;
  check (negb (bool_decide (newId ∈ Document.id <$> docs)))
    (pg_error "duplicate key value violates unique constraint") ;;
  let row := Document.mk newId userId fileId (Drive.meta_name meta) parentId
               (Drive.mimeType meta) None (Drive.modifiedTime meta) true (now env) in
  execute (with_documents (fun l => l ++ [row])) ;;
  ret row.

(** [!user.watched_folder_id] *)
Definition folder_of (user : User.t) : option string :=
  match User.watched_folder_id user with
  | Some "" => None
  | o => o
  end.

(** 2. Handle Copy if requested: the id of the file that is registered. *)
Definition copy_if_requested (env : Env) (user : User.t) (dto : CreateDocumentDTO)
    : M string :=
  let fileId := google_file_id dto in
  if default false (copy_to_folder dto) then
    match folder_of user with
    | None => throw (AppError "User has no watched folder configured" 400)
    | Some folder =>
        (* Get original metadata to preserve name *)
        do originalMeta <- await (getFileMetadata env (User.id user) fileId) ;
        await (copyFileToFolder env (User.id user) fileId folder
                 (Drive.meta_name originalMeta))
    end
  else ret fileId.

(** Steps 2 to 5: no row exists yet. *)
Definition register_new (env : Env) (user : User.t) (dto : CreateDocumentDTO)
    : M Document.t :=
  do fileId <- copy_if_requested env user dto ;
  (* 3. Fetch Metadata *)
  do meta <- await (getFileMetadata env (User.id user) fileId) ;
  (* 4. Create DB Record *)
  let parentId := match Drive.parents meta with
                  | Some (p :: _) => Some p
                  | _ => None
                  end in
  do newDoc <- insert_document env (User.id user) fileId meta parentId ;
  (* 5. Update Drive App Properties *)
  await (updateFileProperties env (User.id user) fileId (Document.id newDoc)) ;;
  ret newDoc.

Definition registerDocument (env : Env) (user : User.t) (dto : CreateDocumentDTO)
    : M Document.t :=
  (* 1. Check if already exists (idempotency) *)
  do existing <- query (fun t =>
      List.filter (owned_file (User.id user) (google_file_id dto)) (documents t)) ;
  match existing with
  | row :: _ =>
      (* Reactivate if it was soft deleted *)
      if negb (Document.is_active row) then
        update_is_active env true (Document.id row) ;;
        ret row
      else ret row
  | [] => register_new env user dto
  end.

End Documents.

(* ===================================================================== *)
(** ** Reconciliation ([services/sync.ts]) *)
(* ===================================================================== *)

Module Sync.

(** [INSERT INTO sync_log (user_id, document_id, action, status, details)];
    [document_id] references [documents]. *)
Definition logSync (userId : string) (docId : option string)
    (action status : string) (details : LogDetails) : M unit :=
  do docs <- query documents ;
  check (match docId with
         | Some d => bool_decide (d ∈ Document.id <$> docs)
         | None => true
         end)
    (pg_error "insert or update on table sync_log violates foreign key constraint") ;;
  execute (with_sync_log (fun l =>
    l ++ [SyncLog.mk userId docId action status details])).

Definition initial_result : SyncResult :=
  {| status := success; updated_segments := 0; repositioned_segments := 0;
     orphaned_segments := []; conflicts := [] |}.

Definition orphan_of (segment : Segment.t) : Orphan :=
  {| orphan_id := Segment.id segment;
     orphan_title := Segment.title segment;
     last_text := Segment.text_content segment |}.

Definition missing_marker (segment : Segment.t) : Conflict :=
  {| conflict_segment_id := Segment.id segment;
     conflict_type := marker_missing;
     details := "Named range not found in Google Doc" |}.

Definition push_orphan (segment : Segment.t) (result : SyncResult) : SyncResult :=
  {| status := status result;
     updated_segments := updated_segments result;
     repositioned_segments := repositioned_segments result;
     orphaned_segments := orphaned_segments result ++ [orphan_of segment];
     conflicts := conflicts result ++ [missing_marker segment] |}.

(** [if (textChanged) result.updated_segments++;
     if (posChanged && !textChanged) result.repositioned_segments++;] *)
Definition count_change (textChanged posChanged : bool) (result : SyncResult)
    : SyncResult :=
  {| status := status result;
     updated_segments :=
       if textChanged then updated_segments result + 1 else updated_segments result;
     repositioned_segments :=
       if posChanged && negb textChanged
       then repositioned_segments result + 1 else repositioned_segments result;
     orphaned_segments := orphaned_segments result;
     conflicts := conflicts result |}.

(** [UPDATE segments SET start_offset = $1, end_offset = $2,
     text_content = $3, updated_at = NOW() WHERE id = $4];
    the offsets are INTEGER columns. *)
Definition update_segment (env : Env) (s e : Z) (txt : string) (segId : string)
    : M unit :=
  check (int4 s && int4 e) (pg_error "value out of range for type integer") ;;
  execute (with_segments (List.map (fun r =>
    if bool_decide (Segment.id r = segId)
    then Segment.set_offsets_text s e txt (now env) r else r))).

(** The loop [for (const segment of dbSegments)]. *)
Fixpoint reconcile (env : Env) (fullText : string)
    (namedRanges : gmap string GoogleDocs.Offsets)
    (dbSegments : list Segment.t) (result : SyncResult) : M SyncResult :=
  match dbSegments with
  | [] => ret result
  | segment :: rest =>
      match namedRanges !! Segment.id segment with
      | None =>
          (* ORPHANED: Marker missing in doc *)
          reconcile env fullText namedRanges rest (push_orphan segment result)
      | Some range =>
          let docText :=
            Js.substring fullText (GoogleDocs.start range) (GoogleDocs.end_ range) in
          let textChanged :=
            negb (bool_decide (docText = Segment.text_content segment)) in
          let posChanged :=
            negb (bool_decide (GoogleDocs.start range = Segment.start_offset segment))
            || negb (bool_decide (GoogleDocs.end_ range = Segment.end_offset segment)) in
          if textChanged || posChanged then
            update_segment env (GoogleDocs.start range) (GoogleDocs.end_ range)
              docText (Segment.id segment) ;;
            reconcile env fullText namedRanges rest
              (count_change textChanged posChanged result)
          else reconcile env fullText namedRanges rest result
      end
  end.

Definition access_lost (error : JsError) : bool :=
  statusCode_is error 404 || statusCode_is error 403.

Definition access_lost_result (error : JsError) : SyncResult :=
  {| status := failed; updated_segments := 0; repositioned_segments := 0;
     orphaned_segments := [];
     conflicts := [ {| conflict_segment_id := "all";
                       conflict_type := document_access_lost;
                       details := message error |} ] |}.

(** [db.pool.connect()]: a client with no open transaction.  The release
    of the client in [finally] leaves the tables as they are. *)
Definition pool_connect : M unit := fun w => Return tt (set_txn None w).

(** The [catch] of the fetch: file missing or no access. *)
Definition handle_fetch_error (env : Env) (userId documentId : string)
    (error : JsError) : M SyncResult :=
  if access_lost error then
    Documents.update_is_active env false documentId ;;
    logSync userId (Some documentId) "single_sync" "failed"
      (DetailsError (message error)) ;;
    ret (access_lost_result error)
  else throw error.

Definition title_too_long : JsError :=
  pg_error "value too long for type character varying(500)".

(** Steps 3 to 5 and the success log, once the document is fetched. *)
Definition reconcile_document (env : Env) (userId documentId : string)
    (driveDoc : GoogleDocs.Document) : M SyncResult :=
  let fullText := GoogleDocs.extractFullText driveDoc in
  let namedRanges := GoogleDocs.getCmmsNamedRanges driveDoc in
  (* 3. Get DB Segments *)
  do dbSegments <- query (fun t => List.filter (fun s =>
      bool_decide (Segment.document_id s = documentId)) (segments t)) ;
  BEGIN ;;
  (* 4. Reconcile *)
  do result <- reconcile env fullText namedRanges dbSegments initial_result ;
  (* 5. Update Doc Metadata; [title] is a VARCHAR(500) column *)
  check (varchar_opt 500 (GoogleDocs.title driveDoc)) title_too_long ;;
  execute (with_documents (List.map (fun d =>
    if bool_decide (Document.id d = documentId)
    then Document.set_synced (GoogleDocs.title driveDoc) (now env) d
    else d))) ;;
  COMMIT ;;
  logSync userId (Some documentId) "single_sync" "success" (DetailsSync result) ;;
  ret result.

(** [SELECT * FROM documents WHERE id = $1 AND user_id = $2] *)
Definition find_document (userId documentId : string) (t : Tables) : list Document.t :=
  List.filter (fun d =>
    bool_decide (Document.id d = documentId) &&
    bool_decide (Document.user_id d = userId)) (documents t).

(** The body of the outer [try]. *)
Definition sync_try (env : Env) (userId documentId : string) : M SyncResult :=
  (* 1. Get DB Document *)
  do docRes <- query (find_document userId documentId) ;
  match docRes with
  | [] => throw (AppError "Document not found" 404)
  | doc :: _ =>
      (* 2. Fetch from Google *)
      match fetchDocument env userId (Document.google_file_id doc) with
      | inl error => handle_fetch_error env userId documentId error
      | inr driveDoc => reconcile_document env userId documentId driveDoc
      end
  end.

(** The outer [catch]. *)
Definition sync_catch (userId documentId : string) (error : JsError) : M SyncResult :=
  ROLLBACK ;;
  logSync userId (Some documentId) "single_sync" "failed"
    (DetailsError (message error)) ;;
  throw error.

Definition syncDocument (env : Env) (userId documentId : string) : M SyncResult :=
  pool_connect ;;
  try_catch (sync_try env userId documentId) (sync_catch userId documentId).

(** *** Whole-folder sync *)

Definition initial_full_result : FullSyncResult :=
  {| documents_synced := 0; documents_added := 0; documents_removed := 0;
     segments_updated := 0; errors := [] |}.

Definition synced_one (singleRes : SyncResult) (result : FullSyncResult)
    : FullSyncResult :=
  {| documents_synced := documents_synced result + 1;
     documents_added := documents_added result;
     documents_removed := documents_removed result;
     segments_updated := segments_updated result + updated_segments singleRes;
     errors := errors result |}.

Definition push_error (docId : string) (err : JsError) (result : FullSyncResult)
    : FullSyncResult :=
  {| documents_synced := documents_synced result;
     documents_added := documents_added result;
     documents_removed := documents_removed result;
     segments_updated := segments_updated result;
     errors := errors result ++
               [ {| error_document_id := docId; error := message err |} ] |}.

Definition added_one (result : FullSyncResult) : FullSyncResult :=
  {| documents_synced := documents_synced result;
     documents_added := documents_added result + 1;
     documents_removed := documents_removed result;
     segments_updated := segments_updated result;
     errors := errors result |}.

Definition removed_one (result : FullSyncResult) : FullSyncResult :=
  {| documents_synced := documents_synced result;
     documents_added := documents_added result;
     documents_removed := documents_removed result + 1;
     segments_updated := segments_updated result;
     errors := errors result |}.

(** One turn of [for (const file of driveFiles)]: the state of the loop is
    [result] and [dbDocsMap]. *)
Definition process_file (env : Env) (userId : string) (file : Drive.File)
    (st : FullSyncResult * gmap string string)
    : M (FullSyncResult * gmap string string) :=
  let '(result, dbDocsMap) := st in
  match dbDocsMap !! Drive.id file with
  | Some docId =>
      (* Exists: Sync it *)
      do result <- try_catch
          (do singleRes <- syncDocument env userId docId ;
           ret (synced_one singleRes result))
          (fun err => ret (push_error docId err result)) ;
      ret (result, delete (Drive.id file) dbDocsMap)
  | None =>
      (* New File: Auto-register *)
      do result <- try_catch
          (Documents.registerDocument env
             (User.mk userId None)
             {| Documents.google_file_id := Drive.id file;
                Documents.copy_to_folder := None |} ;;
           ret (added_one result))
          (fun err => ret result) ;
      ret (result, dbDocsMap)
  end.

Fixpoint process_files (env : Env) (userId : string) (driveFiles : list Drive.File)
    (st : FullSyncResult * gmap string string)
    : M (FullSyncResult * gmap string string) :=
  match driveFiles with
  | [] => ret st
  | file :: rest =>
      do st <- process_file env userId file st ;
      process_files env userId rest st
  end.

(** [for (const [googleId, docId] of dbDocsMap)] *)
Fixpoint deactivate_remaining (env : Env) (entries : list (string * string))
    (result : FullSyncResult) : M FullSyncResult :=
  match entries with
  | [] => ret result
  | (_, docId) :: rest =>
      Documents.update_is_active env false docId ;;
      deactivate_remaining env rest (removed_one result)
  end.

(** [new Map(rows.map(d => [d.google_file_id, d.id]))]: a later row
    replaces the value of an earlier one with the same key. *)
Definition docs_map (rows : list Document.t) : gmap string string :=
  fold_left (fun m d => <[Document.google_file_id d := Document.id d]> m) rows ∅.

(** [SELECT watched_folder_id FROM users WHERE id = $1] and
    [userRes.rows[0]?.watched_folder_id], when it is truthy. *)
Definition watched_folder (userId : string) (t : Tables) : option string :=
  head (List.filter (fun u => bool_decide (User.id u = userId)) (users t))
    ≫= Documents.folder_of.

(** [SELECT id, google_file_id FROM documents WHERE user_id = $1 AND is_active = true] *)
Definition active_documents (userId : string) (t : Tables) : list Document.t :=
  List.filter (fun d => bool_decide (Document.user_id d = userId) && Document.is_active d)
    (documents t).

Definition syncAllDocuments (env : Env) (userId : string) : M FullSyncResult :=
  (* 1. Get Watched Folder *)
  do folderId <- query (watched_folder userId) ;
  match folderId with
  | None => throw (AppError "No watched folder configured" 400)
  | Some folderId =>
      (* 2. List Drive Files; the call [fetchDocument(userId, 'mock-id')]
         before it swallows its rejection and drops its value. *)
      do driveFiles <- await (listDriveFiles env userId folderId) ;
      (* 3. Get DB Documents *)
      do dbDocs <- query (active_documents userId) ;
      (* 4. Process Drive Files *)
      do st <- process_files env userId driveFiles
                 (initial_full_result, docs_map dbDocs) ;
      (* 5. Handle Deleted Files (Remaining in Map) *)
      do result <- deactivate_remaining env (map_to_list st.2) st.1 ;
      logSync userId None "full_sync" "success" (DetailsFullSync result) ;;
      ret result
  end.

End Sync.

(* ===================================================================== *)
(** ** Colour assignment ([services/color.ts]) *)
(* ===================================================================== *)

Module Color.

Definition initial_DEFAULT_PALETTE : list string :=
  [ "#E57373"; "#81C784"; "#64B5F6"; "#FFD54F"; "#BA68C8";
    "#4DB6AC"; "#FF8A65"; "#A1887F"; "#90A4AE"; "#F06292" ].

(** The value of a [usageMap] entry. *)
Record Stats := { lastUsed : Z; count : Z }.

(** [usageRes.rows.forEach(r => usageMap.set(r.color, ...))] *)
Definition usage_map (rows : list ColorUsage.t) : gmap string Stats :=
  fold_left (fun m r =>
    <[ColorUsage.color r :=
        {| lastUsed := ColorUsage.last_used_at r; count := ColorUsage.usage_count r |}]> m)
    rows ∅.

(** [statsA ? statsA.lastUsed.getTime() : 0] *)
Definition time_of (usageMap : gmap string Stats) (c : string) : Z :=
  match usageMap !! c with
  | Some st => lastUsed st
  | None => 0
  end.

(** [usageMap.get(a)?.count || 0] *)
Definition count_of (usageMap : gmap string Stats) (c : string) : Z :=
  match usageMap !! c with
  | Some st => count st
  | None => 0
  end.

(** The palette of a user and whether it is the shared [DEFAULT_PALETTE]
    array itself. *)
Definition user_palette (prefRows : list UserPreferences.t)
    (default_palette : list string) : list string * bool :=
  match prefRows with
  | row :: _ =>
      match UserPreferences.color_palette row with
      | JsonArray p => (p, false)
      | _ => (default_palette, true)
      end
  | [] => (default_palette, true)
  end.

Definition pref_rows (userId : string) (t : Tables) : list UserPreferences.t :=
  List.filter (fun r => bool_decide (UserPreferences.user_id r = userId))
    (user_preferences t).

(** [SELECT DISTINCT color FROM segments WHERE document_id = $1 AND user_id = $2] *)
Definition doc_colors (userId documentId : string) (t : Tables) : list string :=
  remove_dups (Segment.color <$>
    List.filter (fun s =>
      bool_decide (Segment.document_id s = documentId) &&
      bool_decide (Segment.user_id s = userId)) (segments t)).

Definition usage_rows (userId : string) (t : Tables) : list ColorUsage.t :=
  List.filter (fun r => bool_decide (ColorUsage.user_id r = userId)) (color_usage t).

Definition assignColor (userId documentId : string) : M (option string) :=
  (* 1. Get User Palette *)
  do prefRes <- query (pref_rows userId) ;
  fun w =>
    (let '(palette, shared) := user_palette prefRes (DEFAULT_PALETTE w) in
     (* 2. Get Colors Used in Current Document *)
     do usedInDoc <- query (doc_colors userId documentId) ;
     (* 3. Find Available Colors (Palette - UsedInDoc) *)
     let available := List.filter (fun c => negb (bool_decide (c ∈ usedInDoc))) palette in
     (* 4. Get Global Usage Stats for sorting *)
     do usageRes <- query (usage_rows userId) ;
     let usageMap := usage_map usageRes in
     match available with
     | _ :: _ =>
         (* STRATEGY 1: Pick Least Recently Used among available *)
         ret (head (Js.sort (fun a b => time_of usageMap a - time_of usageMap b)
                      available))
     | [] =>
         (* STRATEGY 2: All palette colors used in doc. Pick Least Used Globally.
            [palette.sort] sorts the array in place. *)
         let sorted := Js.sort (fun a b => count_of usageMap a - count_of usageMap b)
                         palette in
         (if shared then (fun w => Return tt (set_DEFAULT_PALETTE sorted w)) else ret tt) ;;
         ret (head sorted)
     end) w.

(** [INSERT INTO color_usage ... ON CONFLICT (user_id, color) DO UPDATE ...] *)
Definition recordColorUsage (env : Env) (userId color : string) : M unit :=
  check (varchar 7 color) (pg_error "value too long for type character varying(7)") ;;
  do rows <- query color_usage ;
  check (forallb (fun r =>
           negb (bool_decide (ColorUsage.user_id r = userId) &&
                 bool_decide (ColorUsage.color r = color))
           || int4 (ColorUsage.usage_count r + 1)) rows)
    (pg_error "integer out of range") ;;
  execute (with_color_usage (fun rows =>
    if existsb (fun r => bool_decide (ColorUsage.user_id r = userId) &&
                         bool_decide (ColorUsage.color r = color)) rows
    then List.map (fun r =>
           if bool_decide (ColorUsage.user_id r = userId) &&
              bool_decide (ColorUsage.color r = color)
           then ColorUsage.mk userId color (now env) (ColorUsage.usage_count r + 1)
           else r) rows
    else rows ++ [ColorUsage.mk userId color (now env) 1])).

End Color.

(* ===================================================================== *)
(** ** Segments ([services/segments.ts]) *)
(* ===================================================================== *)

Module Segments.

Record CreateSegmentDTO := {
  document_id : string;
  category_id : string;
  start_offset : Z;
  end_offset : Z;
  text_content : string;
  title : option string;
  tag_ids : option (list string);
  color : option string
}.

Record AssociateSegmentDTO := {
  target_document_id : string;
  assoc_start_offset : Z;
  assoc_end_offset : Z;
  assoc_text_content : string;
  association_type : string
}.

Record UpdateMarkersDTO := {
  markers_start_offset : Z;
  markers_end_offset : Z
}.

(** A string operand of [||]: the empty string is falsy. *)
Definition truthy (o : option string) : option string :=
  match o with
  | Some "" => None
  | o => o
  end.

(** [getSegmentById]: the joins with [categories] and [documents] follow
    foreign keys of the row; the aggregated tags are not part of the row. *)
Definition getSegmentById (userId id : string) : M (option Segment.t) :=
  query (fun t => head (List.filter (fun s =>
    bool_decide (Segment.id s = id) && bool_decide (Segment.user_id s = userId))
    (segments t))).

(** [INSERT INTO segments (...) VALUES (...) RETURNING *]: the constraints
    of the table that depend on the values. *)
Definition insert_segment (env : Env) (userId documentId categoryId : string)
    (s e : Z) (txt : string) (title : option string) (color : option string)
    (is_primary : bool) : M Segment.t :=
  do t <- query (fun t => t) ;
  check (bool_decide (documentId ∈ Document.id <$> documents t) &&
         bool_decide (categoryId ∈ categories t))
    (pg_error "insert or update on table segments violates foreign key constraint") ;;
  check (int4 s && int4 e) (pg_error "value out of range for type integer") ;;
  check (varchar_opt 255 title) (pg_error "value too long for type character varying(255)") ;;
  match color with
  | None => throw (pg_error "null value in column color violates not-null constraint")
  | Some c =>
      check (varchar 7 c) (pg_error "value too long for type character varying(7)") ;;
      do newId <- gen_random_uuid ;
      check (negb (bool_decide (newId ∈ Segment.id <$> segments t)))
        (pg_error "duplicate key value violates unique constraint") ;;
      let row := Segment.mk newId userId documentId categoryId s e txt title c
                   is_primary (now env) (now env) in
      execute (with_segments (fun l => l ++ [row])) ;;
      ret row
  end.

(** [INSERT INTO segment_tags (segment_id, tag_id) VALUES ($1, $2), ...]:
    one statement, which inserts all the rows or none. *)
Definition insert_segment_tags (segmentId : string) (tagIds : list string) : M unit :=
  do t <- query (fun t => t) ;
  check (bool_decide (segmentId ∈ Segment.id <$> segments t) &&
         forallb (fun tag => bool_decide (tag ∈ tags t)) tagIds)
    (pg_error "insert or update on table segment_tags violates foreign key constraint") ;;
  check (bool_decide (NoDup tagIds) &&
         forallb (fun tag => negb (bool_decide ((segmentId, tag) ∈ segment_tags t))) tagIds)
    (pg_error "duplicate key value violates unique constraint") ;;
  execute (with_segment_tags (fun l => l ++ ((fun tag => (segmentId, tag)) <$> tagIds))).

Definition createSegment (env : Env) (userId : string) (dto : CreateSegmentDTO)
    : M (option Segment.t) :=
  (* 1. Assign Color *)
  do color <- match truthy (color dto) with
              | Some c => ret (Some c)
              | None => Color.assignColor userId (document_id dto)
              end ;
  (* 2. Insert Segment *)
  let title := match truthy (title dto) with
               | Some t => Some t
               | None => Some (Js.substring (text_content dto) 0 50)
               end in
  do segment <- insert_segment env userId (document_id dto) (category_id dto)
                  (start_offset dto) (end_offset dto) (text_content dto)
                  title color true ;
  (* 3. Record Color Usage *)
  Color.recordColorUsage env userId (Segment.color segment) ;;
  (* 4. Insert Tags *)
  match tag_ids dto with
  | Some (tag :: more) => insert_segment_tags (Segment.id segment) (tag :: more)
  | _ => ret tt
  end ;;
  getSegmentById userId (Segment.id segment).

(** [INSERT INTO segment_associations (...)]: both ends reference
    [segments]; the ordered pair is unique. *)
Definition insert_association (sourceId targetId type : string) : M unit :=
  do t <- query (fun t => t) ;
  check (bool_decide (sourceId ∈ Segment.id <$> segments t) &&
         bool_decide (targetId ∈ Segment.id <$> segments t))
    (pg_error "insert or update on table segment_associations violates foreign key constraint") ;;
  check (negb (existsb (fun a =>
           bool_decide (Association.source_segment_id a = sourceId) &&
           bool_decide (Association.target_segment_id a = targetId))
           (segment_associations t)))
    (pg_error "duplicate key value violates unique constraint") ;;
  check (varchar 50 type) (pg_error "value too long for type character varying(50)") ;;
  execute (with_segment_associations (fun l =>
    l ++ [Association.mk sourceId targetId type])).

Definition createAssociation (env : Env) (userId sourceId : string)
    (dto : AssociateSegmentDTO) : M (option Segment.t) :=
  do sourceSegment <- getSegmentById userId sourceId ;
  match sourceSegment with
  | None => throw (AppError "Source segment not found" 404)
  | Some sourceSegment =>
      (* 1. Create Target Segment (Inherits color, is_primary=false) *)
      do target <- insert_segment env userId (target_document_id dto)
                     (Segment.category_id sourceSegment)
                     (assoc_start_offset dto) (assoc_end_offset dto)
                     (assoc_text_content dto)
                     (Segment.title sourceSegment)
                     (Some (Segment.color sourceSegment)) false ;
      (* 2. Create Association Record *)
      insert_association sourceId (Segment.id target) (association_type dto) ;;
      getSegmentById userId (Segment.id target)
  end.

(** [UPDATE segments SET start_offset = $1, end_offset = $2,
     updated_at = NOW() WHERE id = $3 AND user_id = $4 RETURNING *] *)
Definition updateMarkers (env : Env) (userId id : string) (dto : UpdateMarkersDTO)
    : M (option Segment.t) :=
  check (int4 (markers_start_offset dto) && int4 (markers_end_offset dto))
    (pg_error "value out of range for type integer") ;;
  execute (with_segments (List.map (fun r =>
    if bool_decide (Segment.id r = id) && bool_decide (Segment.user_id r = userId)
    then Segment.set_offsets (markers_start_offset dto) (markers_end_offset dto)
           (now env) r
    else r))) ;;
  getSegmentById userId id.

End Segments.

(* ===================================================================== *)
(** ** Request validation and the segment routes
       ([middleware/validation.ts], [routes/segments.ts]) *)
(* ===================================================================== *)

Module Routes.

Section Schemas.
(** [z.string().uuid()] of zod. *)
Variable is_uuid : string -> bool.

Definition is_hex_digit (a : ascii) : bool :=
  let n := nat_of_ascii a in
  ((48 <=? n) && (n <=? 57) || (65 <=? n) && (n <=? 70) ||
   (97 <=? n) && (n <=? 102))%nat.

(** [/^#[0-9A-Fa-f]{6}$/] *)
Definition is_hex_color (s : string) : bool :=
  match s with
  | String "#" rest =>
      (String.length rest =? 6)%nat && forallb is_hex_digit (list_ascii_of_string rest)
  | _ => false
  end.

Definition createSegmentSchema (body : Segments.CreateSegmentDTO) : bool :=
  is_uuid (Segments.document_id body) &&
  is_uuid (Segments.category_id body) &&
  (0 <=? Segments.start_offset body) &&
  (0 <=? Segments.end_offset body) &&
  (1 <=? String.length (Segments.text_content body))%nat &&
  forallb is_uuid (default [] (Segments.tag_ids body)) &&
  from_option is_hex_color true (Segments.color body) &&
  (* .refine(data => data.end_offset > data.start_offset) *)
  (Segments.start_offset body <? Segments.end_offset body).

Definition associateSegmentSchema (body : Segments.AssociateSegmentDTO) : bool :=
  is_uuid (Segments.target_document_id body) &&
  (0 <=? Segments.assoc_start_offset body) &&
  (0 <=? Segments.assoc_end_offset body) &&
  (1 <=? String.length (Segments.assoc_text_content body))%nat &&
  bool_decide (Segments.association_type body ∈ ["derivative"; "callback"; "reference"]) &&
  (Segments.assoc_start_offset body <? Segments.assoc_end_offset body).

Definition updateMarkersSchema (body : Segments.UpdateMarkersDTO) : bool :=
  (0 <=? Segments.markers_start_offset body) &&
  (0 <=? Segments.markers_end_offset body) &&
  (Segments.markers_start_offset body <? Segments.markers_end_offset body).

(** [validate(schema)]: a [BadRequestError] before the handler runs. *)
Definition validate {A} (ok : bool) (handler : M A) : M A :=
  if ok then handler else throw (AppError "Validation failed" 400).

(** [POST /api/v1/segments] *)
Definition post_segment (env : Env) (userId : string)
    (body : Segments.CreateSegmentDTO) : M (option Segment.t) :=
  validate (createSegmentSchema body) (Segments.createSegment env userId body).

(** [POST /api/v1/segments/:id/associate] *)
Definition post_associate (env : Env) (userId id : string)
    (body : Segments.AssociateSegmentDTO) : M (option Segment.t) :=
  validate (associateSegmentSchema body) (Segments.createAssociation env userId id body).

(** [PUT /api/v1/segments/:id/markers] *)
Definition put_markers (env : Env) (userId id : string)
    (body : Segments.UpdateMarkersDTO) : M (option Segment.t) :=
  validate (updateMarkersSchema body)
    (do segment <- Segments.updateMarkers env userId id body ;
     match segment with
     | None => throw (AppError "Segment not found" 404)
     | Some s => ret (Some s)
     end).

End Schemas.

End Routes.

(* ===================================================================== *)
(** ** Concrete data used by the examples below *)
(* ===================================================================== *)

Module Sample.

Definition alice : string := "user-alice".

Definition segment (id doc cat : string) (s e : Z) (txt : string) (created : Z)
    : Segment.t :=
  Segment.mk id alice doc cat s e txt (Some "a title") "#E57373" true created created.

(** *** Search *)

Definition old_segment : Segment.t :=
  segment "seg-1" "doc-1" "cat-1" 0 5 "hello" 50.

Definition abc_segment : Segment.t :=
  segment "seg-2" "doc-1" "cat-1" 6 11 "world" 60.

Definition search_tables : Tables :=
  with_segment_tags (fun _ =>
    [ ("seg-1", "tag-A");
      ("seg-2", "tag-A"); ("seg-2", "tag-B"); ("seg-2", "tag-C") ])
    (with_segments (fun _ => [old_segment; abc_segment]) empty_tables).

Definition browse (f : Search.SearchFilters) : Search.SearchRequestDTO :=
  {| Search.query := ""; Search.filters := f; Search.limit := 50; Search.offset := 0 |}.

(** Created on or after instant 100. *)
Definition recent_only : Search.SearchFilters :=
  {| Search.category_ids := None; Search.tag_ids := None; Search.tag_logic := None;
     Search.document_ids := None;
     Search.date_range := Some {| Search.range_start := Some 100;
                                  Search.range_end := None |};
     Search.is_primary := None |}.

Definition tagged (logic : option Search.TagLogic) (T : list string)
    : Search.SearchFilters :=
  {| Search.category_ids := None; Search.tag_ids := Some T; Search.tag_logic := logic;
     Search.document_ids := None; Search.date_range := None;
     Search.is_primary := None |}.

(** *** Reconciliation *)

Definition doc1 : Document.t :=
  Document.mk "doc-1" alice "gfile-1" (Some "Draft") None None None None true 0.

(** Two segments of [doc1] over the text "hello brave world". *)
Definition hello : Segment.t := segment "seg-1" "doc-1" "cat-1" 0 5 "hello" 10.

Definition world_seg : Segment.t := segment "seg-2" "doc-1" "cat-1" 12 17 "world" 10.

Definition sync_world : World :=
  {| tables :=
       {| users := [User.mk alice (Some "folder-1")]; user_preferences := [];
          categories := ["cat-1"]; tags := ["tag-A"; "tag-B"];
          documents := [doc1]; segments := [hello; world_seg];
          segment_tags := []; segment_associations := [];
          color_usage := []; sync_log := [] |};
     txn := None;
     DEFAULT_PALETTE := Color.initial_DEFAULT_PALETTE;
     uuid_seed := 0 |}.

Definition named (segmentId : string) (s e : Z) : string * GoogleDocs.NamedRanges :=
  ("cmms_segment_" +:+ segmentId,
   {| GoogleDocs.namedRanges_of :=
        Some [ {| GoogleDocs.ranges :=
                    Some [ {| GoogleDocs.startIndex := Some s;
                              GoogleDocs.endIndex := Some e |} ] |} ] |}).

Definition gdoc (ranges : list (string * GoogleDocs.NamedRanges)) : GoogleDocs.Document :=
  {| GoogleDocs.title := Some "Set list";
     GoogleDocs.body :=
       Some [GoogleDocs.paragraph [GoogleDocs.textRun (Some "hello brave ");
                                   GoogleDocs.textRun (Some "world")]];
     GoogleDocs.namedRanges := ranges |}.

(** An environment in which every document fetch has the outcome [fetch]
    and the watched folder lists [files]. *)
Definition google (fetch : JsError + GoogleDocs.Document) (files : list Drive.File) : Env :=
  {| now := 100;
     docs_documents_get := fun _ => fetch;
     drive_files_list := fun _ => inr files;
     drive_files_get := fun _ =>
       inr {| Drive.meta_name := Some "New file"; Drive.mimeType := None;
              Drive.parents := Some ["folder-1"]; Drive.modifiedTime := None |};
     drive_files_copy := fun _ _ _ => inr "gfile-copy";
     drive_files_update := fun _ _ => None |}.

(** Only the first segment still has its marker. *)
Definition one_marker : Env := google (inr (gdoc [named "seg-1" 0 5])) [].

(** The marker of the first segment has collapsed to an empty range. *)
Definition collapsed_marker : Env :=
  google (inr (gdoc [named "seg-1" 3 3; named "seg-2" 12 17])) [].

Definition not_found : JsError :=
  {| message := "File not found"; statusCode := None; code := Some 404 |}.

Definition backend_error : JsError :=
  {| message := "Backend Error"; statusCode := None; code := Some 500 |}.

(** The folder lists the registered file, whose fetch fails, and a new file. *)
Definition failing_folder : Env :=
  google (inl backend_error)
    [ {| Drive.id := "gfile-1"; Drive.name := Some "Draft" |};
      {| Drive.id := "gfile-2"; Drive.name := Some "New file" |} ].

(** *** Segment creation *)

(** The tag list names the same tag twice. *)
Definition twice_tagged : Segments.CreateSegmentDTO :=
  {| Segments.document_id := "doc-1"; Segments.category_id := "cat-1";
     Segments.start_offset := 6; Segments.end_offset := 11;
     Segments.text_content := "brave"; Segments.title := None;
     Segments.tag_ids := Some ["tag-A"; "tag-A"];
     Segments.color := Some "#81C784" |}.

(** The tag list names a tag that does not exist. *)
Definition unknown_tag : Segments.CreateSegmentDTO :=
  {| Segments.document_id := "doc-1"; Segments.category_id := "cat-1";
     Segments.start_offset := 6; Segments.end_offset := 11;
     Segments.text_content := "brave"; Segments.title := None;
     Segments.tag_ids := Some ["tag-A"; "tag-Z"];
     Segments.color := Some "#81C784" |}.

Definition brave : Segment.t :=
  Segment.mk "uuid-0" alice "doc-1" "cat-1" 6 11 "brave" (Some "brave") "#81C784"
    true 100 100.

(** *** Registration *)

Definition removed_doc : Document.t :=
  Document.mk "doc-9" alice "gfile-9" (Some "Old set") None None None None false 0.

Definition registry_world : World :=
  {| tables := with_documents (fun _ => [doc1; removed_doc]) (tables sync_world);
     txn := None;
     DEFAULT_PALETTE := Color.initial_DEFAULT_PALETTE;
     uuid_seed := 0 |}.

Definition alice_user : User.t := User.mk alice (Some "folder-1").

Definition register (fileId : string) : Documents.CreateDocumentDTO :=
  {| Documents.google_file_id := fileId; Documents.copy_to_folder := None |}.

(** *** Colours *)

(** A user with a palette of two colours, one new document without
    segments, and the usage counts of earlier documents. *)
Definition doc2 : Document.t :=
  Document.mk "doc-2" alice "gfile-2" (Some "New set") None None None None true 0.

Definition palette_world : World :=
  {| tables :=
       {| users := [User.mk alice (Some "folder-1")];
          user_preferences := [UserPreferences.mk alice (JsonArray ["#AAAAAA"; "#BBBBBB"])];
          categories := ["cat-1"]; tags := [];
          documents := [doc1; doc2]; segments := [hello];
          segment_tags := []; segment_associations := [];
          color_usage := [ ColorUsage.mk alice "#AAAAAA" 40 7;
                           ColorUsage.mk alice "#BBBBBB" 30 5 ];
          sync_log := [] |};
     txn := None;
     DEFAULT_PALETTE := Color.initial_DEFAULT_PALETTE;
     uuid_seed := 0 |}.






(** A request to create a segment of [doc2] that leaves the colour to the
    service. *)
Definition capture (s e : Z) (txt : string) : Segments.CreateSegmentDTO :=
  {| Segments.document_id := "doc-2"; Segments.category_id := "cat-1";
     Segments.start_offset := s; Segments.end_offset := e;
     Segments.text_content := txt; Segments.title := None;
     Segments.tag_ids := None; Segments.color := None |}.

End Sample.

(* ===================================================================== *)
(** * Properties *)
(* ===================================================================== *)

(** ** Lists *)

Lemma elem_of_filter_b {A} (f : A -> bool) (l : list A) (x : A) :
  x ∈ List.filter f l <-> x ∈ l /\ f x = true.
Proof. rewrite !list_elem_of_In. apply filter_In. Qed.

Lemma NoDup_filter_b {A} (f : A -> bool) (l : list A) :
  NoDup l -> NoDup (List.filter f l).
Proof. rewrite !NoDup_ListNoDup. apply List.NoDup_filter. Qed.

Lemma filter_b_nil_iff {A} (f : A -> bool) (l : list A) :
  List.filter f l = [] <-> forall x, x ∈ l -> f x = false.
Proof.
  induction l as [|a l IH]; simpl.
  - split; [intros _ x Hx; inversion Hx | done].
  - destruct (f a) eqn:Ha.
    + split; [done | intros H]. specialize (H a (list_elem_of_here _ _)). congruence.
    + rewrite IH. split.
      * intros H x Hx. apply elem_of_cons in Hx as [-> | Hx]; auto.
      * intros H x Hx. apply H. by apply list_elem_of_further.
Qed.

Lemma filter_b_map {A} (p : A -> bool) (g : A -> A) (l : list A) :
  (forall x, p (g x) = p x) ->
  List.filter p (List.map g l) = List.map g (List.filter p l).
Proof.
  intros Hg. induction l as [|a l IH]; simpl; [done|].
  rewrite Hg, IH. by destruct (p a).
Qed.

Lemma map_fixed {A} (g : A -> A) (l : list A) :
  (forall x, x ∈ l -> g x = x) -> List.map g l = l.
Proof.
  intros Hg. induction l as [|a l IH]; simpl; [done|].
  rewrite Hg by left. rewrite IH; [done|]. intros x Hx. apply Hg. by right.
Qed.

Lemma filter_b_map_other {A} (p : A -> bool) (g : A -> A) (l : list A) :
  (forall x, p (g x) = p x /\ (p x = true -> g x = x)) ->
  List.filter p (List.map g l) = List.filter p l.
Proof.
  intros Hg. induction l as [|a l IH]; simpl; [done|].
  destruct (Hg a) as [-> Hfix]. rewrite IH.
  destruct (p a) eqn:E; [by rewrite Hfix | done].
Qed.

Lemma last_map {A B} (f : A -> B) (l : list A) : last (List.map f l) = f <$> last l.
Proof.
  induction l as [|a l IH]; simpl; [done|].
  destruct l as [|b l]; [done|]. exact IH.
Qed.

Lemma last_filter_snoc {A} (p : A -> bool) (l : list A) (x : A) :
  last (List.filter p (l ++ [x])) = if p x then Some x else last (List.filter p l).
Proof.
  rewrite List.filter_app. simpl. destruct (p x); [apply last_snoc | by rewrite app_nil_r].
Qed.

(** ** Search: the tag filter of the main listing *)

Module SearchProofs.
Import Search.

Section TagFilter.
Variable ts_match : string -> Segment.t -> bool.
Variable db : Tables.

(** The segment carries the tag: [segment_tags] has the pair. *)
Definition carries (s : Segment.t) (t : string) : Prop :=
  (Segment.id s, t) ∈ segment_tags db.

Global Instance carries_dec s t : Decision (carries s t).
Proof. unfold carries. apply _. Defined.

Lemma elem_of_tags_of s t : t ∈ tags_of db s <-> carries s t.
Proof.
  unfold tags_of, carries. rewrite list_elem_of_fmap. split.
  - intros [[sid tid] [-> H]]. apply elem_of_filter_b in H as [H Heq].
    apply bool_decide_eq_true in Heq. simpl in *. by subst.
  - intros H. exists (Segment.id s, t). split; [done|].
    apply elem_of_filter_b. split; [done|]. by apply bool_decide_eq_true.
Qed.

Lemma elem_of_matched_tags T s t :
  t ∈ matched_tags db T s <-> t ∈ T /\ carries s t.
Proof.
  unfold matched_tags. rewrite elem_of_filter_b, elem_of_tags_of.
  rewrite bool_decide_eq_true. tauto.
Qed.


(** AND: COUNT(DISTINCT tag_id) counts the tags of [T] that are carried. *)
Lemma count_distinct_tags_spec T s :
  NoDup T ->
  length (remove_dups (matched_tags db T s))
  = length (List.filter (fun t => bool_decide (carries s t)) T).
Proof.
  intros HT. apply Permutation_length, NoDup_Permutation.
  - apply NoDup_remove_dups.
  - by apply NoDup_filter_b.
  - intros t. rewrite elem_of_remove_dups, elem_of_matched_tags, elem_of_filter_b.
    by rewrite bool_decide_eq_true.
Qed.

(** All of a duplicate-free [T] is carried iff the count reaches [|T|]. *)
Lemma count_carried_full T s :
  length (List.filter (fun t => bool_decide (carries s t)) T) = length T
  <-> forall t, t ∈ T -> carries s t.
Proof.
  induction T as [|a T IH]; simpl.
  - split; [intros _ t Ht; inversion Ht | done].
  - destruct (bool_decide (carries s a)) eqn:Ha; simpl.
    + apply bool_decide_eq_true in Ha. split.
      * intros H t Ht. apply elem_of_cons in Ht as [-> | Ht]; [done|].
        apply IH; [lia | done].
      * intros H. f_equal. apply IH. intros t Ht. apply H. by right.
    + apply bool_decide_eq_false in Ha. split.
      * intros H. pose proof (List.filter_length_le (fun t => bool_decide (carries s t)) T).
        lia.
      * intros H. exfalso. apply Ha, H. left.
Qed.





(** Under AND, every tag of a duplicate-free [T] must be carried. *)
Corollary and_filter_all_tags T s :
  NoDup T ->
  Nat.eqb (length (remove_dups (matched_tags db T s))) (length T) = true
  <-> forall t, t ∈ T -> carries s t.
Proof.
  intros HT. rewrite Nat.eqb_eq, count_distinct_tags_spec by done.
  apply count_carried_full.
Qed.

End TagFilter.

(** The filter {A, B} under AND selects the segment tagged {A, B, C} and
    not the segment tagged {A}. *)
Example and_filter_A_B :
  let p := plan Sample.alice
             (Sample.browse (Sample.tagged (Some AND) ["tag-A"; "tag-B"])) in
  main_rows (fun _ _ => true) Sample.search_tables p = [Sample.abc_segment].
Proof. reflexivity. Qed.

Example or_filter_A_B :
  let p := plan Sample.alice
             (Sample.browse (Sample.tagged (Some OR) ["tag-A"; "tag-B"])) in
  main_rows (fun _ _ => true) Sample.search_tables p
  = [Sample.old_segment; Sample.abc_segment].
Proof. reflexivity. Qed.


(** ** Search: the facet clauses *)

(** Without a date range, and when the tag filter is absent, under OR, or
    is the excluded dimension, a facet clause selects the same segments as
    [getBaseConditions] with that dimension excluded. *)
Lemma facet_where_agrees ts_match db userId dto exclude s :
  exclude <> none ->
  date_range (filters dto) = None ->
  exclude = tags \/ has_length (tag_ids (filters dto)) = false
    \/ tag_logic (filters dto) = Some OR ->
  let facet := generateFacetWhere (filters dto) (tsQueryParamIndex dto) exclude
                 (initial_params userId dto) in
  let base := getBaseConditions userId (filters dto) (tsQueryParamIndex dto)
                (initial_params userId dto) exclude in
  where_holds ts_match db facet.1 facet.2 s = where_holds ts_match db base.1 base.2 s.
Proof.
  intros Hex Hdate Htag.
  destruct dto as [q [c t l d r p] lim off]. simpl in *. subst r.
  unfold initial_params, tsQueryParamIndex, generateFacetWhere, getBaseConditions.
  simpl.
  destruct (Js.truthy_trimmed q); destruct exclude; try done;
    destruct c as [[|? ?]|]; destruct d as [[|? ?]|]; destruct p as [?|];
    destruct t as [[|? ?]|]; simpl;
    try (destruct Htag as [Htag | [Htag | Htag]]; try discriminate; subst; simpl);
    repeat match goal with
           | |- context [bool_decide ?P] => destruct (bool_decide P)
           | |- context [Bool.eqb ?a ?b] => destruct (Bool.eqb a b)
           | |- context [ts_match ?a ?b] => destruct (ts_match a b)
           | |- context [Nat.eqb ?a ?b] => destruct (Nat.eqb a b)
           end; reflexivity.
Qed.

(** No request puts a date condition in a facet clause, while the main
    clause has one for each bound of the range. *)
Lemma facet_where_has_no_date_condition f ts exclude init c :
  c ∈ (generateFacetWhere f ts exclude init).1 ->
  forall p, c <> created_at_ge p /\ c <> created_at_le p.
Proof.
  unfold generateFacetWhere, push_filter, addFilter. intros H p.
  destruct (0 <? ts)%nat, (has_length (document_ids f)), (is_primary f),
    (negb (bool_decide (exclude = category)) && has_length (category_ids f)),
    (negb (bool_decide (exclude = tags)) && has_length (tag_ids f));
    simpl in H; apply list_elem_of_In in H; simpl in H;
    split; intros ->; intuition discriminate.
Qed.

Lemma main_where_has_date_condition userId f ts init r t :
  date_range f = Some r -> range_start r = Some t ->
  exists p, created_at_ge p ∈ (getBaseConditions userId f ts init none).1.
Proof.
  intros Hr Ht. unfold getBaseConditions. rewrite Hr, Ht.
  match goal with
  | |- context [push_filter true created_at_ge ?v ?a] => generalize a
  end.
  intros [conds params]. exists (length (params ++ [VTimestamp t])).
  unfold push_filter, addFilter. simpl.
  destruct (range_end r), (has_length (tag_ids f) && _), (default AND (tag_logic f));
    simpl; rewrite ?elem_of_app, ?list_elem_of_singleton; tauto.
Qed.

(** C1.  The facet clauses are not the main predicate with the facet's own
    dimension removed.  (1) With only a date range in the request, a segment
    created before the range is rejected by the main clause and by
    [getBaseConditions] without the category filter, but it is selected by
    both facet clauses, which have no date condition: the facets count
    segments that the listing (total 0) does not contain.  (2) With tags
    {A, B} under AND, a segment tagged only {A} is rejected by the main
    clause and by [getBaseConditions] without the category filter, but is
    selected by the category facet clause, which tests the tags with EXISTS. *)
Theorem facet_where_drops_date_range_and_tag_logic
    (ts_match : string -> Segment.t -> bool) :
  let db := Sample.search_tables in
  let s := Sample.old_segment in
  (let f := Sample.recent_only in
   let p := plan Sample.alice (Sample.browse f) in
   let expected := getBaseConditions Sample.alice f 0 [VText Sample.alice] category in
   where_holds ts_match db (mainWhereClause p) (mainQueryParams p) s = Some false
   /\ where_holds ts_match db expected.1 expected.2 s = Some false
   /\ where_holds ts_match db (catFacetWhere p) (catFacetParams p) s = Some true
   /\ where_holds ts_match db (tagFacetWhere p) (tagFacetParams p) s = Some true
   /\ total ts_match db p = 0%nat
   /\ category_facet_count ts_match db p "cat-1" = 2%nat
   /\ tag_facet_count ts_match db p "tag-A" = 2%nat)
  /\
  (let f := Sample.tagged (Some AND) ["tag-A"; "tag-B"] in
   let p := plan Sample.alice (Sample.browse f) in
   let expected := getBaseConditions Sample.alice f 0 [VText Sample.alice] category in
   where_holds ts_match db (mainWhereClause p) (mainQueryParams p) s = Some false
   /\ where_holds ts_match db expected.1 expected.2 s = Some false
   /\ where_holds ts_match db (catFacetWhere p) (catFacetParams p) s = Some true
   /\ total ts_match db p = 1%nat
   /\ category_facet_count ts_match db p "cat-1" = 2%nat).
Proof. vm_compute. repeat split. Qed.

End SearchProofs.

(** ** Reconciliation of one document *)

Module SyncProofs.
Import Sync.

(** The world with the rows of [segments] replaced. *)
Definition set_segments (S : list Segment.t) (w : World) : World :=
  set_tables (with_segments (fun _ => S) (tables w)) w.

(** The world after one row is appended to [sync_log]. *)
Definition logged (entry : SyncLog.t) (w : World) : World :=
  set_tables (with_sync_log (fun l => l ++ [entry]) (tables w)) w.

Lemma set_segments_id w : set_segments (segments (tables w)) w = w.
Proof. by destruct w as [[] ? ? ?]. Qed.

Ltac munfold :=
  unfold bind, ret, throw, try_catch, query, execute, check, await,
    BEGIN, COMMIT, ROLLBACK, pool_connect in *.

Lemma logSync_ok userId docId action status details w :
  match docId with
  | Some d => d ∈ Document.id <$> documents (tables w)
  | None => True
  end ->
  logSync userId docId action status details w
  = Return tt (logged (SyncLog.mk userId docId action status details) w).
Proof.
  intros H. unfold logSync. munfold.
  destruct docId as [d|]; [rewrite bool_decide_eq_true_2 by done|]; reflexivity.
Qed.

Lemma find_document_elem userId documentId t doc rest :
  find_document userId documentId t = doc :: rest ->
  doc ∈ documents t /\ Document.id doc = documentId /\ Document.user_id doc = userId.
Proof.
  intros H. assert (Hin : doc ∈ find_document userId documentId t) by (rewrite H; left).
  apply elem_of_filter_b in Hin as [Hin Hb].
  apply andb_true_iff in Hb as [H1 H2].
  apply bool_decide_eq_true in H1, H2. done.
Qed.

Section Reconcile.
Variable env : Env.
Variable fullText : string.
Variable nr : gmap string GoogleDocs.Offsets.

Definition docText (range : GoogleDocs.Offsets) : string :=
  Js.substring fullText (GoogleDocs.start range) (GoogleDocs.end_ range).

Definition textChanged (range : GoogleDocs.Offsets) (seg : Segment.t) : bool :=
  negb (bool_decide (docText range = Segment.text_content seg)).

Definition posChanged (range : GoogleDocs.Offsets) (seg : Segment.t) : bool :=
  negb (bool_decide (GoogleDocs.start range = Segment.start_offset seg))
  || negb (bool_decide (GoogleDocs.end_ range = Segment.end_offset seg)).

(** The segment has a named range and differs from it: an UPDATE is issued. *)
Definition changed (seg : Segment.t) : bool :=
  match nr !! Segment.id seg with
  | Some range => textChanged range seg || posChanged range seg
  | None => false
  end.

(** The segment has no named range. *)
Definition orphaned (seg : Segment.t) : bool :=
  bool_decide (nr !! Segment.id seg = None).

(** The offsets of the named range of the segment fit the INTEGER columns. *)
Definition accepted (seg : Segment.t) : bool :=
  match nr !! Segment.id seg with
  | Some range => int4 (GoogleDocs.start range) && int4 (GoogleDocs.end_ range)
  | None => true
  end.

(** The row after the UPDATE issued for its id. *)
Definition sync_row (r : Segment.t) : Segment.t :=
  match nr !! Segment.id r with
  | Some range =>
      Segment.set_offsets_text (GoogleDocs.start range) (GoogleDocs.end_ range)
        (docText range) (now env) r
  | None => r
  end.

(** The table after the UPDATEs issued for the ids of [U]. *)
Definition apply_updates (U : list string) (rows : list Segment.t) : list Segment.t :=
  List.map (fun r => if bool_decide (Segment.id r ∈ U) then sync_row r else r) rows.

(** The effect of one turn of the loop on [result]. *)
Definition step_result (result : SyncResult) (seg : Segment.t) : SyncResult :=
  match nr !! Segment.id seg with
  | None => push_orphan seg result
  | Some range =>
      if textChanged range seg || posChanged range seg
      then count_change (textChanged range seg) (posChanged range seg) result
      else result
  end.

Lemma sync_row_id r : Segment.id (sync_row r) = Segment.id r.
Proof. unfold sync_row. by destruct (nr !! Segment.id r). Qed.

Lemma sync_row_document_id r : Segment.document_id (sync_row r) = Segment.document_id r.
Proof. unfold sync_row. by destruct (nr !! Segment.id r). Qed.

Lemma sync_row_idem r : sync_row (sync_row r) = sync_row r.
Proof.
  unfold sync_row at 1. rewrite sync_row_id. unfold sync_row.
  by destruct (nr !! Segment.id r).
Qed.

Lemma sync_row_orphaned r : orphaned r = true -> sync_row r = r.
Proof.
  unfold orphaned, sync_row. intros H%bool_decide_eq_true. by rewrite H.
Qed.

Lemma sync_row_unchanged r :
  nr !! Segment.id r <> None -> changed (sync_row r) = false.
Proof.
  unfold changed. rewrite sync_row_id. unfold sync_row.
  destruct (nr !! Segment.id r) as [range|]; [intros _ | done].
  unfold textChanged, posChanged. simpl.
  by rewrite !bool_decide_eq_true_2.
Qed.

Lemma apply_updates_nil rows : apply_updates [] rows = rows.
Proof.
  unfold apply_updates. rewrite <- (List.map_id rows) at 2. apply List.map_ext.
  intros r. by rewrite bool_decide_eq_false_2 by apply not_elem_of_nil.
Qed.

(** One UPDATE followed by the UPDATEs for [U]. *)
Lemma apply_updates_cons seg range U rows :
  nr !! Segment.id seg = Some range ->
  apply_updates U
    (List.map (fun r =>
       if bool_decide (Segment.id r = Segment.id seg)
       then Segment.set_offsets_text (GoogleDocs.start range) (GoogleDocs.end_ range)
              (docText range) (now env) r
       else r) rows)
  = apply_updates (Segment.id seg :: U) rows.
Proof.
  intros Hr. unfold apply_updates. rewrite List.map_map. apply List.map_ext.
  intros r. destruct (decide (Segment.id r = Segment.id seg)) as [E|E].
  - rewrite (bool_decide_eq_true_2 _ E).
    rewrite (bool_decide_eq_true_2 (Segment.id r ∈ Segment.id seg :: U))
      by (rewrite E; left).
    assert (Hs : Segment.set_offsets_text (GoogleDocs.start range)
                   (GoogleDocs.end_ range) (docText range) (now env) r = sync_row r).
    { unfold sync_row. by rewrite E, Hr. }
    rewrite Hs, sync_row_id, sync_row_idem. by destruct (bool_decide _).
  - rewrite (bool_decide_eq_false_2 _ E).
    destruct (decide (Segment.id r ∈ U)) as [HU|HU].
    + rewrite !bool_decide_eq_true_2; [done | by right | done].
    + rewrite !bool_decide_eq_false_2; [done | | done].
      intros [?|?]%elem_of_cons; done.
Qed.

(** When PostgreSQL accepts every UPDATE that is issued, the loop returns:
    the result is the fold of [step_result], and the table is updated at
    the ids of the changed segments. *)
Lemma reconcile_ok dbSegments : forall result w,
  Forall (fun seg => changed seg = true -> accepted seg = true) dbSegments ->
  reconcile env fullText nr dbSegments result w
  = Return (fold_left step_result dbSegments result)
      (set_segments
         (apply_updates (Segment.id <$> List.filter changed dbSegments)
            (segments (tables w))) w).
Proof.
  induction dbSegments as [|seg rest IH]; intros result w Hacc.
  - simpl. unfold ret. by rewrite apply_updates_nil, set_segments_id.
  - apply Forall_cons in Hacc as [Hseg Hrest].
    assert (Hch : changed seg = match nr !! Segment.id seg with
                                | Some range => textChanged range seg || posChanged range seg
                                | None => false end) by reflexivity.
    cbn [reconcile fold_left List.filter]. unfold step_result at 2. rewrite Hch.
    unfold accepted in Hseg. rewrite Hch in Hseg.
    destruct (nr !! Segment.id seg) as [range|] eqn:Hr; [|by apply IH].
    change (Js.substring fullText (GoogleDocs.start range) (GoogleDocs.end_ range))
      with (docText range).
    change (negb (bool_decide (docText range = Segment.text_content seg)))
      with (textChanged range seg).
    change (negb (bool_decide (GoogleDocs.start range = Segment.start_offset seg))
            || negb (bool_decide (GoogleDocs.end_ range = Segment.end_offset seg)))
      with (posChanged range seg).
    destruct (textChanged range seg || posChanged range seg) eqn:Hc; [|by apply IH].
    unfold update_segment. munfold. rewrite (Hseg eq_refl). simpl.
    rewrite IH by done. f_equal. simpl.
    rewrite (apply_updates_cons seg range) by done. reflexivity.
Qed.

(** If the loop returns, every UPDATE it issued was accepted. *)
Lemma reconcile_returns_accepted dbSegments : forall result w r w',
  reconcile env fullText nr dbSegments result w = Return r w' ->
  Forall (fun seg => changed seg = true -> accepted seg = true) dbSegments.
Proof.
  induction dbSegments as [|seg rest IH]; intros result w r w' H; [constructor|].
  simpl in H. apply Forall_cons. unfold changed at 1, accepted at 1.
  destruct (nr !! Segment.id seg) as [range|] eqn:Hr; [|split; [done | by eapply IH]].
  fold (docText range) (textChanged range seg) (posChanged range seg) in H.
  destruct (textChanged range seg || posChanged range seg) eqn:Hc;
    [|split; [done | by eapply IH]].
  unfold update_segment in H. munfold.
  destruct (int4 (GoogleDocs.start range) && int4 (GoogleDocs.end_ range)) eqn:Hi;
    simpl in H; [|discriminate].
  split; [done | by eapply IH].
Qed.

(** Whatever its outcome, the loop writes only [segments]. *)
Lemma reconcile_world dbSegments : forall result w,
  exists S, world_of (reconcile env fullText nr dbSegments result w) = set_segments S w.
Proof.
  induction dbSegments as [|seg rest IH]; intros result w; simpl.
  - exists (segments (tables w)). by rewrite set_segments_id.
  - destruct (nr !! Segment.id seg) as [range|]; [|apply IH].
    match goal with |- context [if ?b then _ else _] => destruct b end; [|apply IH].
    unfold update_segment. munfold.
    destruct (int4 (GoogleDocs.start range) && int4 (GoogleDocs.end_ range)); simpl.
    + match goal with
      | |- context [reconcile _ _ _ rest ?res ?w1] =>
          destruct (IH res w1) as [S HS]; exists S;
          destruct (reconcile env fullText nr rest res w1); simpl in *; rewrite HS
      end; reflexivity.
    + exists (segments (tables w)). by rewrite set_segments_id.
Qed.

(** What the fold records. *)
Lemma fold_step_orphans dbSegments : forall result,
  orphaned_segments (fold_left step_result dbSegments result)
  = orphaned_segments result ++ (orphan_of <$> List.filter orphaned dbSegments)
  /\ conflicts (fold_left step_result dbSegments result)
     = conflicts result ++ (missing_marker <$> List.filter orphaned dbSegments)
  /\ status (fold_left step_result dbSegments result) = status result.
Proof.
  induction dbSegments as [|seg rest IH]; intros result; simpl.
  - by rewrite !app_nil_r.
  - destruct (IH (step_result result seg)) as (-> & -> & ->).
    unfold step_result, orphaned.
    destruct (nr !! Segment.id seg) as [range|] eqn:Hr.
    + rewrite bool_decide_eq_false_2 by done.
      by destruct (textChanged range seg || posChanged range seg).
    + rewrite bool_decide_eq_true_2 by done. simpl.
      by rewrite <- !app_assoc.
Qed.

Lemma fold_step_unchanged dbSegments : forall result,
  Forall (fun seg => changed seg = false) dbSegments ->
  updated_segments (fold_left step_result dbSegments result) = updated_segments result
  /\ repositioned_segments (fold_left step_result dbSegments result)
     = repositioned_segments result.
Proof.
  induction dbSegments as [|seg rest IH]; intros result H; simpl; [done|].
  apply Forall_cons in H as [Hseg Hrest].
  destruct (IH (step_result result seg) Hrest) as (-> & ->).
  unfold step_result. unfold changed in Hseg.
  destruct (nr !! Segment.id seg) as [range|]; [|done].
  by rewrite Hseg.
Qed.

End Reconcile.

(** *** [syncDocument] by cases *)

Definition mark_synced (env : Env) (documentId : string) (driveDoc : GoogleDocs.Document)
    (docs : list Document.t) : list Document.t :=
  List.map (fun d =>
    if bool_decide (Document.id d = documentId)
    then Document.set_synced (GoogleDocs.title driveDoc) (now env) d else d) docs.

Definition deactivated (env : Env) (documentId : string) (docs : list Document.t)
    : list Document.t :=
  List.map (fun d =>
    if bool_decide (Document.id d = documentId)
    then Document.set_is_active false (Some (now env)) d else d) docs.

Definition single_sync_failed (userId documentId : string) (error : JsError) : SyncLog.t :=
  SyncLog.mk userId (Some documentId) "single_sync" "failed" (DetailsError (message error)).

Definition single_sync_success (userId documentId : string) (result : SyncResult)
    : SyncLog.t :=
  SyncLog.mk userId (Some documentId) "single_sync" "success" (DetailsSync result).

(** The segments of the document that the sync loads. *)
Definition dbSegments_of (documentId : string) (w : World) : list Segment.t :=
  List.filter (fun s => bool_decide (Segment.document_id s = documentId))
    (segments (tables w)).

Lemma elem_of_ids_map (f : Document.t -> Document.t) (docs : list Document.t) x :
  (forall d, Document.id (f d) = Document.id d) ->
  x ∈ Document.id <$> docs -> x ∈ Document.id <$> List.map f docs.
Proof.
  intros Hf. rewrite !list_elem_of_fmap. intros [d [-> Hd]].
  exists (f d). split; [by rewrite Hf|].
  apply list_elem_of_In, in_map. by apply list_elem_of_In.
Qed.

Lemma found_document_id userId documentId t doc rest :
  find_document userId documentId t = doc :: rest ->
  documentId ∈ Document.id <$> documents t.
Proof.
  intros H. apply find_document_elem in H as (Hin & <- & _).
  apply list_elem_of_fmap. by exists doc.
Qed.

(** The document is found and fetched: the outcome follows the loop. *)
Lemma syncDocument_fetched env userId documentId w doc rest driveDoc :
  find_document userId documentId (tables w) = doc :: rest ->
  fetchDocument env userId (Document.google_file_id doc) = inr driveDoc ->
  syncDocument env userId documentId w =
    match reconcile env (GoogleDocs.extractFullText driveDoc)
            (GoogleDocs.getCmmsNamedRanges driveDoc)
            (dbSegments_of documentId w) initial_result
            (set_txn (Some (tables w)) w) with
    | Return result w2 =>
        if varchar_opt 500 (GoogleDocs.title driveDoc) then
          Return result
            (logged (single_sync_success userId documentId result)
               (set_txn None
                  (set_tables
                     (with_documents (mark_synced env documentId driveDoc) (tables w2))
                     w2)))
        else
          Throw title_too_long
            (logged (single_sync_failed userId documentId title_too_long)
               (set_txn None w))
    | Throw error w2 =>
        Throw error (logged (single_sync_failed userId documentId error) (set_txn None w))
    end.
Proof.
  intros Hfind Hfetch.
  pose proof (found_document_id _ _ _ _ _ Hfind) as Hid.
  unfold syncDocument, sync_try, sync_catch, reconcile_document. munfold. simpl.
  rewrite Hfind, Hfetch. simpl.
  change (set_txn (Some (tables w)) (set_txn None w)) with (set_txn (Some (tables w)) w).
  fold (dbSegments_of documentId w).
  destruct (reconcile_world env (GoogleDocs.extractFullText driveDoc)
              (GoogleDocs.getCmmsNamedRanges driveDoc) (dbSegments_of documentId w)
              initial_result (set_txn (Some (tables w)) w)) as [S HS].
  destruct (reconcile _ _ _ _ _ _) as [result w2|error w2]; simpl in HS; subst w2.
  - destruct (varchar_opt 500 (GoogleDocs.title driveDoc)); simpl.
    + rewrite logSync_ok.
      * reflexivity.
      * simpl. apply elem_of_ids_map; [|done].
        intros d. by destruct (bool_decide _).
    + rewrite logSync_ok by done. reflexivity.
  - simpl. rewrite logSync_ok by done. reflexivity.
Qed.

(** C5.  When the fetch of the document fails with status 404 or 403,
    [syncDocument] deactivates the document, appends a failed entry to the
    sync log and returns (does not throw) a result of status [failed] with
    one [document_access_lost] conflict; any other error of the fetch is
    thrown to the caller. *)
Theorem access_loss_is_reported env userId documentId w doc rest error :
  find_document userId documentId (tables w) = doc :: rest ->
  fetchDocument env userId (Document.google_file_id doc) = inl error ->
  (statusCode error = Some 404 \/ statusCode error = Some 403 ->
   exists result w',
     syncDocument env userId documentId w = Return result w'
     /\ status result = failed
     /\ conflicts result =
          [ {| conflict_segment_id := "all"; conflict_type := document_access_lost;
               details := message error |} ]
     /\ documents (tables w') = deactivated env documentId (documents (tables w))
     /\ (forall d, d ∈ documents (tables w') -> Document.id d = documentId ->
                   Document.is_active d = false)
     /\ sync_log (tables w')
        = sync_log (tables w) ++ [single_sync_failed userId documentId error]
     /\ segments (tables w') = segments (tables w))
  /\ (statusCode error <> Some 404 -> statusCode error <> Some 403 ->
      exists w', syncDocument env userId documentId w = Throw error w').
Proof.
  intros Hfind Hfetch.
  pose proof (found_document_id _ _ _ _ _ Hfind) as Hid.
  split.
  - intros Hlost.
    assert (Hal : access_lost error = true).
    { unfold access_lost, statusCode_is. apply orb_true_iff.
      destruct Hlost as [H|H]; [left | right]; by apply bool_decide_eq_true. }
    unfold syncDocument, sync_try, handle_fetch_error, Documents.update_is_active.
    munfold. simpl. rewrite Hfind, Hfetch, Hal. simpl.
    rewrite logSync_ok.
    + eexists _, _. split; [reflexivity|]. simpl. repeat split.
      intros d Hd Hdid. apply list_elem_of_In, in_map_iff in Hd as [d0 [<- Hd0]].
      destruct (bool_decide (Document.id d0 = documentId)) eqn:E; [done|].
      apply bool_decide_eq_false in E. done.
    + simpl. apply elem_of_ids_map; [|done]. intros d. by destruct (bool_decide _).
  - intros H404 H403.
    assert (Hal : access_lost error = false).
    { unfold access_lost, statusCode_is. apply orb_false_iff.
      split; by apply bool_decide_eq_false. }
    unfold syncDocument, sync_try, sync_catch, handle_fetch_error.
    munfold. simpl. rewrite Hfind, Hfetch, Hal. simpl.
    rewrite logSync_ok by done. eexists. reflexivity.
Qed.

(** A returned result of status [success] comes from the loop. *)
Lemma syncDocument_success_inv env userId documentId w result w' :
  syncDocument env userId documentId w = Return result w' ->
  status result = success ->
  exists doc rest driveDoc,
    find_document userId documentId (tables w) = doc :: rest
    /\ fetchDocument env userId (Document.google_file_id doc) = inr driveDoc
    /\ varchar_opt 500 (GoogleDocs.title driveDoc) = true
    /\ let fullText := GoogleDocs.extractFullText driveDoc in
       let nr := GoogleDocs.getCmmsNamedRanges driveDoc in
       let dbSegments := dbSegments_of documentId w in
       let S := apply_updates env fullText nr
                  (Segment.id <$> List.filter (changed fullText nr) dbSegments)
                  (segments (tables w)) in
       result = fold_left (step_result fullText nr) dbSegments initial_result
       /\ w' = logged (single_sync_success userId documentId result)
                 (set_txn None
                    (set_tables
                       (with_documents (mark_synced env documentId driveDoc)
                          (with_segments (fun _ => S) (tables w))) w)).
Proof.
  intros Hrun Hstatus.
  destruct (find_document userId documentId (tables w)) as [|doc rest] eqn:Hfind.
  { exfalso. revert Hrun. unfold syncDocument, sync_try, sync_catch. munfold. simpl.
    rewrite Hfind. simpl. by destruct (logSync _ _ _ _ _ _). }
  destruct (fetchDocument env userId (Document.google_file_id doc))
    as [error|driveDoc] eqn:Hfetch.
  { exfalso. revert Hrun.
    unfold syncDocument, sync_try, sync_catch, handle_fetch_error,
      Documents.update_is_active.
    munfold. simpl. rewrite Hfind, Hfetch. simpl.
    destruct (access_lost error); simpl.
    - destruct (logSync _ _ _ _ _ _); simpl.
      + intros [= <- _]. discriminate.
      + by destruct (logSync _ _ _ _ _ _).
    - by destruct (logSync _ _ _ _ _ _). }
  exists doc, rest, driveDoc. split; [done|]. split; [done|].
  rewrite (syncDocument_fetched _ _ _ _ _ _ _ Hfind Hfetch) in Hrun.
  destruct (reconcile _ _ _ _ _ _) as [r w2|error w2] eqn:E; [|discriminate].
  pose proof (reconcile_returns_accepted _ _ _ _ _ _ _ _ E) as Hacc.
  rewrite reconcile_ok in E by done. injection E as <- <-.
  destruct (varchar_opt 500 (GoogleDocs.title driveDoc)); [|discriminate].
  injection Hrun as <- <-. split; [done|]. split; reflexivity.
Qed.

(** *** Idempotence *)

(** Rows of the document after a successful run agree with their ranges. *)
Lemma synced_rows_unchanged env fullText nr documentId (S : list Segment.t) :
  let dbSegments :=
    List.filter (fun s => bool_decide (Segment.document_id s = documentId)) S in
  let U := Segment.id <$> List.filter (changed fullText nr) dbSegments in
  Forall (fun s => changed fullText nr s = false)
    (List.filter (fun s => bool_decide (Segment.document_id s = documentId))
       (apply_updates env fullText nr U S)).
Proof.
  intros dbSegments U. apply Forall_forall. intros b Hb.
  apply elem_of_filter_b in Hb as [Hb Hdoc].
  apply list_elem_of_In, in_map_iff in Hb as [a [<- Ha]].
  apply list_elem_of_In in Ha.
  destruct (bool_decide (Segment.id a ∈ U)) eqn:HU.
  - apply bool_decide_eq_true in HU.
    apply list_elem_of_fmap in HU as [c [Hid Hc]].
    apply elem_of_filter_b in Hc as [_ Hc].
    apply sync_row_unchanged. rewrite Hid. unfold changed in Hc.
    by destruct (nr !! Segment.id c).
  - apply bool_decide_eq_false in HU.
    destruct (changed fullText nr a) eqn:Hch; [|done].
    exfalso. apply HU. apply list_elem_of_fmap. exists a. split; [done|].
    apply elem_of_filter_b. split; [|done]. by apply elem_of_filter_b.
Qed.

(** The orphans of the document are the same rows after a run. *)
Lemma orphans_stable env fullText nr documentId U (S : list Segment.t) :
  List.filter (orphaned nr)
    (List.filter (fun s => bool_decide (Segment.document_id s = documentId))
       (apply_updates env fullText nr U S))
  = List.filter (orphaned nr)
      (List.filter (fun s => bool_decide (Segment.document_id s = documentId)) S).
Proof.
  unfold apply_updates.
  rewrite filter_b_map.
  2:{ intros r. destruct (bool_decide (Segment.id r ∈ U)); [|done].
      by rewrite sync_row_document_id. }
  rewrite filter_b_map.
  2:{ intros r. destruct (bool_decide (Segment.id r ∈ U)); [|done]. unfold orphaned.
      by rewrite sync_row_id. }
  apply map_fixed. intros r Hr. apply elem_of_filter_b in Hr as [_ Hr].
  rewrite sync_row_orphaned by done. by destruct (bool_decide (Segment.id r ∈ U)).
Qed.

Lemma find_document_mark_synced env userId documentId driveDoc t doc rest :
  find_document userId documentId t = doc :: rest ->
  exists doc' rest',
    List.filter (fun d => bool_decide (Document.id d = documentId) &&
                          bool_decide (Document.user_id d = userId))
      (mark_synced env documentId driveDoc (documents t)) = doc' :: rest'
    /\ Document.google_file_id doc' = Document.google_file_id doc.
Proof.
  unfold find_document, mark_synced. intros H.
  rewrite filter_b_map.
  2:{ intros d. destruct (bool_decide (Document.id d = documentId)) eqn:E;
        simpl; by rewrite ?E. }
  rewrite H. simpl. eexists _, _. split; [reflexivity|].
  by destruct (bool_decide (Document.id doc = documentId)).
Qed.

(** C3 (amended).  If [syncDocument] succeeds and the title, text and named
    ranges of the external document are the same at the next run, the next run
    returns [updated_segments = 0], [repositioned_segments = 0] and the same
    [orphaned_segments] as the first run, and leaves every row of
    [segments] as it is. *)
Theorem reconciliation_is_idempotent env1 env2 userId documentId w r1 w1 :
  syncDocument env1 userId documentId w = Return r1 w1 ->
  status r1 = success ->
  (forall fileId d1, fetchDocument env1 userId fileId = inr d1 ->
     exists d2, fetchDocument env2 userId fileId = inr d2
       /\ GoogleDocs.title d2 = GoogleDocs.title d1
       /\ GoogleDocs.extractFullText d2 = GoogleDocs.extractFullText d1
       /\ GoogleDocs.getCmmsNamedRanges d2 = GoogleDocs.getCmmsNamedRanges d1) ->
  exists r2 w2,
    syncDocument env2 userId documentId w1 = Return r2 w2
    /\ status r2 = success
    /\ updated_segments r2 = 0
    /\ repositioned_segments r2 = 0
    /\ orphaned_segments r2 = orphaned_segments r1
    /\ conflicts r2 = conflicts r1
    /\ segments (tables w2) = segments (tables w1).
Proof.
  intros Hrun Hstatus Hsame.
  destruct (syncDocument_success_inv _ _ _ _ _ _ Hrun Hstatus)
    as (doc & rest & d1 & Hfind & Hfetch & Htitle1 & Hr1 & Hw1).
  destruct (Hsame _ _ Hfetch) as (d2 & Hfetch2 & Htitle & Htext & Hnr).
  set (fullText := GoogleDocs.extractFullText d1) in *.
  set (nr := GoogleDocs.getCmmsNamedRanges d1) in *.
  set (U := Segment.id <$> List.filter (changed fullText nr) (dbSegments_of documentId w))
    in *.
  destruct (find_document_mark_synced env1 userId documentId d1 _ _ _ Hfind)
    as (doc' & rest' & Hfind' & Hgf).
  assert (Hfind1 : find_document userId documentId (tables w1) = doc' :: rest').
  { rewrite Hw1. exact Hfind'. }
  rewrite <- Hgf in Hfetch2.
  rewrite (syncDocument_fetched _ _ _ _ _ _ _ Hfind1 Hfetch2).
  rewrite Htext, Hnr, Htitle, Htitle1. fold fullText nr.
  assert (Hdb : dbSegments_of documentId w1
                = List.filter (fun s => bool_decide (Segment.document_id s = documentId))
                    (apply_updates env1 fullText nr U (segments (tables w)))).
  { rewrite Hw1. reflexivity. }
  pose proof (synced_rows_unchanged env1 fullText nr documentId (segments (tables w)))
    as Hunch. simpl in Hunch. fold (dbSegments_of documentId w) in Hunch.
  fold U in Hunch. rewrite <- Hdb in Hunch.
  assert (Hnone : List.filter (changed fullText nr) (dbSegments_of documentId w1) = []).
  { apply filter_b_nil_iff. intros x Hx. by eapply Forall_forall in Hunch. }
  rewrite reconcile_ok.
  2:{ eapply Forall_impl; [exact Hunch|]. simpl. intros x -> [=]. }
  rewrite Hnone. simpl. rewrite apply_updates_nil.
  eexists _, _. split; [reflexivity|].
  destruct (fold_step_orphans fullText nr (dbSegments_of documentId w1) initial_result)
    as (Ho & Hc & Hs).
  destruct (fold_step_unchanged fullText nr (dbSegments_of documentId w1)
              initial_result Hunch) as (Hu & Hp).
  destruct (fold_step_orphans fullText nr (dbSegments_of documentId w) initial_result)
    as (Ho1 & Hc1 & _).
  assert (Horph : List.filter (orphaned nr) (dbSegments_of documentId w1)
                  = List.filter (orphaned nr) (dbSegments_of documentId w)).
  { rewrite Hdb. apply orphans_stable. }
  rewrite Hs, Hu, Hp, Ho, Hc, Hr1, Ho1, Hc1, Horph. simpl.
  repeat split; reflexivity.
Qed.

Lemma reconciliation_is_idempotent_witness :
  let env := Sample.one_marker in
  let first := syncDocument env Sample.alice "doc-1" Sample.sync_world in
  let r1 := Sync.push_orphan Sample.world_seg Sync.initial_result in
  (first = Return r1 (world_of first)
   /\ status r1 = success
   /\ (forall fileId d1, fetchDocument env Sample.alice fileId = inr d1 ->
         exists d2, fetchDocument env Sample.alice fileId = inr d2
           /\ GoogleDocs.title d2 = GoogleDocs.title d1
           /\ GoogleDocs.extractFullText d2 = GoogleDocs.extractFullText d1
           /\ GoogleDocs.getCmmsNamedRanges d2 = GoogleDocs.getCmmsNamedRanges d1))
  /\ exists r2 w2,
       syncDocument env Sample.alice "doc-1" (world_of first) = Return r2 w2
       /\ status r2 = success
       /\ updated_segments r2 = 0
       /\ repositioned_segments r2 = 0
       /\ orphaned_segments r2 = orphaned_segments r1
       /\ conflicts r2 = conflicts r1
       /\ segments (tables w2) = segments (tables (world_of first)).
Proof.
  assert (Hsame : forall fileId d1,
            fetchDocument Sample.one_marker Sample.alice fileId = inr d1 ->
            exists d2, fetchDocument Sample.one_marker Sample.alice fileId = inr d2
              /\ GoogleDocs.title d2 = GoogleDocs.title d1
              /\ GoogleDocs.extractFullText d2 = GoogleDocs.extractFullText d1
              /\ GoogleDocs.getCmmsNamedRanges d2 = GoogleDocs.getCmmsNamedRanges d1).
  { intros fileId d1 H. exists d1. split; [exact H | repeat split; reflexivity]. }
  assert (Hrun : syncDocument Sample.one_marker Sample.alice "doc-1" Sample.sync_world
                 = Return (Sync.push_orphan Sample.world_seg Sync.initial_result)
                     (world_of (syncDocument Sample.one_marker Sample.alice "doc-1"
                                  Sample.sync_world))).
  { vm_compute. reflexivity. }
  split; [split; [exact Hrun | split; [reflexivity | exact Hsame]] |].
  exact (reconciliation_is_idempotent Sample.one_marker Sample.one_marker
           Sample.alice "doc-1" Sample.sync_world _ _ Hrun eq_refl Hsame).
Defined.

(** C3 (as stated) fails: a segment whose marker is missing is reported by
    the first run, stays in the table, and is reported again by the second
    run, whose [orphaned_segments] is therefore not empty. *)
Lemma second_run_reports_orphans_again :
  exists r1 w1 r2 w2,
    syncDocument Sample.one_marker Sample.alice "doc-1" Sample.sync_world
      = Return r1 w1
    /\ status r1 = success
    /\ syncDocument Sample.one_marker Sample.alice "doc-1" w1 = Return r2 w2
    /\ updated_segments r2 = 0
    /\ repositioned_segments r2 = 0
    /\ segments (tables w2) = segments (tables w1)
    /\ orphaned_segments r2 = [orphan_of Sample.world_seg]
    /\ orphaned_segments r2 <> [].
Proof.
  eexists _, _, _, _.
  split; [vm_compute; reflexivity|].
  split; [reflexivity|].
  split; [vm_compute; reflexivity|].
  repeat split; discriminate.
Qed.

(** *** The offsets written by the sync *)

(** C2.  The reconciliation writes the offsets of the named range as they
    are: when the range of a segment is empty (start 3, end 3) the run
    succeeds and the row is stored with [end_offset = start_offset], although
    the request validation of the marker route rejects the same offsets
    before anything is written. *)
Theorem sync_stores_offsets_unchecked :
  (exists result w',
     syncDocument Sample.collapsed_marker Sample.alice "doc-1" Sample.sync_world
       = Return result w'
     /\ status result = success
     /\ updated_segments result = 1
     /\ segments (tables w')
        = [Segment.set_offsets_text 3 3 "" 100 Sample.hello; Sample.world_seg]
     /\ ~ Forall (fun s => Segment.end_offset s > Segment.start_offset s)
          (segments (tables w')))
  /\ Routes.put_markers Sample.collapsed_marker Sample.alice "seg-1"
       {| Segments.markers_start_offset := 3; Segments.markers_end_offset := 3 |}
       Sample.sync_world
     = Throw (AppError "Validation failed" 400) Sample.sync_world.
Proof.
  split; [|reflexivity].
  eexists _, _. split; [vm_compute; reflexivity|].
  repeat split.
  intros H. apply Forall_cons in H as [H _]. simpl in H. lia.
Qed.

(** *** Orphans *)

(** C4.  A stored segment of the document without a named range in the
    fetched document is still in [segments], as it was, after the sync,
    whatever the outcome; when the sync returns a result, [orphaned_segments]
    has the entry with the id, the title and the text of the segment, and
    [conflicts] has the conflict of type [marker_missing] for the id of the
    segment; and the sync returns a result when PostgreSQL accepts the
    updates it issues (the offsets of the changed segments and the title of
    the document). *)
Theorem orphans_are_reported_and_kept env userId documentId w doc rest driveDoc seg :
  find_document userId documentId (tables w) = doc :: rest ->
  fetchDocument env userId (Document.google_file_id doc) = inr driveDoc ->
  seg ∈ segments (tables w) ->
  Segment.document_id seg = documentId ->
  GoogleDocs.getCmmsNamedRanges driveDoc !! Segment.id seg = None ->
  let fullText := GoogleDocs.extractFullText driveDoc in
  let nr := GoogleDocs.getCmmsNamedRanges driveDoc in
  let outcome := syncDocument env userId documentId w in
  seg ∈ segments (tables (world_of outcome))
  /\ (forall result w', outcome = Return result w' ->
        status result = success
        /\ {| orphan_id := Segment.id seg;
               orphan_title := Segment.title seg;
               last_text := Segment.text_content seg |} ∈ orphaned_segments result
        /\ {| conflict_segment_id := Segment.id seg;
               conflict_type := marker_missing;
               details := "Named range not found in Google Doc" |} ∈ conflicts result)
  /\ (Forall (fun s => changed fullText nr s = true -> accepted nr s = true)
        (dbSegments_of documentId w) ->
      varchar_opt 500 (GoogleDocs.title driveDoc) = true ->
      exists result w', outcome = Return result w').
Proof.
  intros Hfind Hfetch Hin Hdoc Hnone fullText nr outcome. subst outcome.
  rewrite (syncDocument_fetched _ _ _ _ _ _ _ Hfind Hfetch). fold fullText nr.
  assert (Horph : orphaned nr seg = true) by by apply bool_decide_eq_true.
  assert (Hdb : seg ∈ dbSegments_of documentId w).
  { apply elem_of_filter_b. split; [done | by apply bool_decide_eq_true]. }
  destruct (reconcile env fullText nr _ _ _) as [result w2|error w2] eqn:E.
  - pose proof (reconcile_returns_accepted _ _ _ _ _ _ _ _ E) as Hacc.
    rewrite reconcile_ok in E by done. injection E as <- <-.
    destruct (varchar_opt 500 (GoogleDocs.title driveDoc)).
    + split; [|split].
      * simpl. unfold apply_updates. apply list_elem_of_In, in_map_iff.
        exists seg. split; [|by apply list_elem_of_In].
        rewrite sync_row_orphaned by done. by destruct (bool_decide _).
      * intros result w' [= <- <-].
        destruct (fold_step_orphans fullText nr (dbSegments_of documentId w)
                    initial_result) as (-> & -> & ->).
        split; [done|]. simpl.
        split; apply list_elem_of_fmap; exists seg; (split; [done|]);
          by apply elem_of_filter_b.
      * intros _ _. by eexists _, _.
    + split; [done|]. split; [by intros ? ? [=] | by intros _ [=]].
  - split; [done|]. split; [by intros ? ? [=]|].
    intros Hacc. rewrite reconcile_ok in E by done. discriminate.
Qed.

Lemma orphans_are_reported_and_kept_witness :
  let env := Sample.one_marker in
  let w := Sample.sync_world in
  let seg := Sample.world_seg in
  let driveDoc := Sample.gdoc [Sample.named "seg-1" 0 5] in
  let outcome := syncDocument env Sample.alice "doc-1" w in
  (find_document Sample.alice "doc-1" (tables w) = [Sample.doc1]
   /\ fetchDocument env Sample.alice "gfile-1" = inr driveDoc
   /\ seg ∈ segments (tables w)
   /\ Segment.document_id seg = "doc-1"
   /\ GoogleDocs.getCmmsNamedRanges driveDoc !! Segment.id seg = None)
  /\ seg ∈ segments (tables (world_of outcome))
  /\ (forall result w', outcome = Return result w' ->
        status result = success
        /\ {| orphan_id := "seg-2"; orphan_title := Some "a title";
               last_text := "world" |} ∈ orphaned_segments result
        /\ {| conflict_segment_id := "seg-2"; conflict_type := marker_missing;
               details := "Named range not found in Google Doc" |} ∈ conflicts result)
  /\ (Forall (fun s => changed (GoogleDocs.extractFullText driveDoc)
                         (GoogleDocs.getCmmsNamedRanges driveDoc) s = true ->
                       accepted (GoogleDocs.getCmmsNamedRanges driveDoc) s = true)
        (dbSegments_of "doc-1" w) ->
      varchar_opt 500 (GoogleDocs.title driveDoc) = true ->
      exists result w', outcome = Return result w').
Proof.
  assert (Hin : Sample.world_seg ∈ segments (tables Sample.sync_world))
    by (right; left).
  split; [repeat split; try reflexivity; exact Hin |].
  exact (orphans_are_reported_and_kept Sample.one_marker Sample.alice "doc-1"
           Sample.sync_world Sample.doc1 [] (Sample.gdoc [Sample.named "seg-1" 0 5])
           Sample.world_seg eq_refl eq_refl Hin eq_refl eq_refl).
Defined.

Lemma access_loss_is_reported_witness :
  let env := Sample.google (inl Sample.not_found) [] in
  let error := AppError "Document not found in Google Drive" 404 in
  (find_document Sample.alice "doc-1" (tables Sample.sync_world) = [Sample.doc1]
   /\ fetchDocument env Sample.alice "gfile-1" = inl error)
  /\ exists result w',
       syncDocument env Sample.alice "doc-1" Sample.sync_world = Return result w'
       /\ status result = failed
       /\ documents (tables w')
          = [Document.set_is_active false (Some 100) Sample.doc1].
Proof.
  split; [split; reflexivity |].
  destruct (access_loss_is_reported (Sample.google (inl Sample.not_found) [])
              Sample.alice "doc-1" Sample.sync_world Sample.doc1 []
              (AppError "Document not found in Google Drive" 404) eq_refl eq_refl)
    as [H _].
  destruct (H (or_introl eq_refl)) as (result & w' & Hrun & Hst & _ & Hdocs & _).
  exists result, w'. split; [exact Hrun|]. split; [exact Hst|]. exact Hdocs.
Defined.

(** *** Whole-folder sync *)

Lemma process_file_returns env userId file st w :
  exists st' w', process_file env userId file st w = Return st' w'
    /\ exists more, errors st'.1 = errors st.1 ++ more.
Proof.
  destruct st as [result dbDocsMap]. unfold process_file.
  destruct (dbDocsMap !! Drive.id file) as [docId|]; munfold.
  - destruct (syncDocument env userId docId w) as [singleRes w'|err w'].
    + eexists _, _. split; [reflexivity|]. exists []. simpl. by rewrite app_nil_r.
    + eexists _, _. split; [reflexivity|]. by eexists.
  - destruct (Documents.registerDocument _ _ _ w) as [d w'|err w'];
      (eexists _, _; split; [reflexivity|]; exists []; simpl; by rewrite app_nil_r).
Qed.

Lemma process_files_returns env userId driveFiles : forall st w,
  exists st' w', process_files env userId driveFiles st w = Return st' w'
    /\ exists more, errors st'.1 = errors st.1 ++ more.
Proof.
  induction driveFiles as [|file rest IH]; intros st w; simpl.
  - eexists _, _. split; [reflexivity|]. exists []. by rewrite app_nil_r.
  - unfold bind.
    destruct (process_file_returns env userId file st w) as (st1 & w1 & -> & m1 & E1).
    destruct (IH st1 w1) as (st2 & w2 & -> & m2 & E2).
    eexists _, _. split; [reflexivity|]. exists (m1 ++ m2).
    by rewrite E2, E1, app_assoc.
Qed.

Lemma process_files_app env userId before after st w :
  process_files env userId (before ++ after) st w
  = bind (process_files env userId before st) (process_files env userId after) w.
Proof.
  revert st w. induction before as [|file before IH]; intros st w; simpl; [done|].
  unfold bind in *.
  destruct (process_file env userId file st w) as [st1 w1|]; [apply IH | done].
Qed.

Lemma deactivate_remaining_returns env entries : forall result w,
  exists result' w', deactivate_remaining env entries result w = Return result' w'
    /\ errors result' = errors result.
Proof.
  induction entries as [|[googleId docId] rest IH]; intros result w; simpl.
  - by eexists _, _.
  - unfold Documents.update_is_active. munfold.
    destruct (IH (removed_one result)
                (set_tables (with_documents
                   (List.map (fun d =>
                      if bool_decide (Document.id d = docId)
                      then Document.set_is_active false (Some (now env)) d else d))
                   (tables w)) w)) as (r & w' & -> & E).
    by eexists _, _.
Qed.

(** The run once the folder is listed. *)
Lemma syncAllDocuments_listed env userId w folderId driveFiles :
  watched_folder userId (tables w) = Some folderId ->
  listDriveFiles env userId folderId = inr driveFiles ->
  exists st w1 result w',
    process_files env userId driveFiles
      (initial_full_result, docs_map (active_documents userId (tables w))) w
      = Return st w1
    /\ syncAllDocuments env userId w = Return result w'
    /\ errors result = errors st.1.
Proof.
  intros Hfolder Hlist.
  destruct (process_files_returns env userId driveFiles
              (initial_full_result, docs_map (active_documents userId (tables w))) w)
    as (st & w1 & Hfiles & _).
  destruct (deactivate_remaining_returns env (map_to_list st.2) st.1 w1)
    as (result & w2 & Hrest & E).
  exists st, w1, result,
    (logged (SyncLog.mk userId None "full_sync" "success" (DetailsFullSync result)) w2).
  split; [done|]. split; [|done].
  unfold syncAllDocuments. munfold. rewrite Hfolder, Hlist. unfold ret. cbv beta iota.
  rewrite Hfiles, Hrest. by rewrite logSync_ok.
Qed.

(** C9.  [syncAllDocuments] throws when no watched folder is configured and
    when the listing of the folder fails, and in no other case: once the
    folder is listed it returns one aggregate result.  When the
    reconciliation of a registered document throws, the error is appended to
    [errors], the loop goes on with the remaining files, and the error is in
    the result that is returned. *)
Theorem full_sync_collects_document_errors env userId w :
  (watched_folder userId (tables w) = None ->
   syncAllDocuments env userId w = Throw (AppError "No watched folder configured" 400) w)
  /\ (forall folderId error,
        watched_folder userId (tables w) = Some folderId ->
        listDriveFiles env userId folderId = inl error ->
        syncAllDocuments env userId w = Throw error w)
  /\ (forall folderId driveFiles,
        watched_folder userId (tables w) = Some folderId ->
        listDriveFiles env userId folderId = inr driveFiles ->
        exists result w', syncAllDocuments env userId w = Return result w')
  /\ (forall file rest result dbDocsMap docId err w0 w1,
        dbDocsMap !! Drive.id file = Some docId ->
        syncDocument env userId docId w0 = Throw err w1 ->
        process_files env userId (file :: rest) (result, dbDocsMap) w0
        = process_files env userId rest
            (push_error docId err result, delete (Drive.id file) dbDocsMap) w1)
  /\ (forall folderId before file after st1 w1 docId err w2,
        watched_folder userId (tables w) = Some folderId ->
        listDriveFiles env userId folderId = inr (before ++ file :: after) ->
        process_files env userId before
          (initial_full_result, docs_map (active_documents userId (tables w))) w
          = Return st1 w1 ->
        st1.2 !! Drive.id file = Some docId ->
        syncDocument env userId docId w1 = Throw err w2 ->
        exists result w',
          syncAllDocuments env userId w = Return result w'
          /\ {| error_document_id := docId; error := message err |} ∈ errors result).
Proof.
  split; [|split; [|split; [|split]]].
  - intros H. unfold syncAllDocuments. munfold. by rewrite H.
  - intros folderId error Hf Hl. unfold syncAllDocuments. munfold. rewrite Hf, Hl.
    reflexivity.
  - intros folderId driveFiles Hf Hl.
    destruct (syncAllDocuments_listed _ _ _ _ _ Hf Hl) as (_ & _ & r & w' & _ & H & _).
    by eexists _, _.
  - intros file rest result dbDocsMap docId err w0 w1 Hmap Hthrow.
    simpl. unfold process_file, bind, try_catch, ret. by rewrite Hmap, Hthrow.
  - intros folderId before file after st1 w1 docId err w2 Hf Hl Hbefore Hmap Hthrow.
    destruct (syncAllDocuments_listed _ _ _ _ _ Hf Hl)
      as (st & w3 & r & w' & Hall & Hrun & Herr).
    exists r, w'. split; [done|]. rewrite Herr.
    rewrite process_files_app in Hall. unfold bind at 1 in Hall.
    rewrite Hbefore in Hall. destruct st1 as [res1 map1]. simpl in Hmap.
    simpl in Hall. unfold process_file, bind, try_catch, ret in Hall.
    rewrite Hmap, Hthrow in Hall.
    destruct (process_files_returns env userId after
                (push_error docId err res1, delete (Drive.id file) map1) w2)
      as (st' & w4 & Hafter & more & Emore).
    unfold bind in Hafter. rewrite Hafter in Hall. injection Hall as <- _.
    rewrite Emore. simpl. apply elem_of_app. left. apply elem_of_app. right. left.
Qed.

Lemma full_sync_collects_document_errors_witness :
  let env := Sample.failing_folder in
  let w := Sample.sync_world in
  let file := {| Drive.id := "gfile-1"; Drive.name := Some "Draft" |} in
  let after := [ {| Drive.id := "gfile-2"; Drive.name := Some "New file" |} ] in
  let st := (initial_full_result, docs_map (active_documents Sample.alice (tables w))) in
  let thrown := syncDocument env Sample.alice "doc-1" w in
  (watched_folder Sample.alice (tables w) = Some "folder-1"
   /\ listDriveFiles env Sample.alice "folder-1" = inr ([] ++ file :: after)
   /\ process_files env Sample.alice [] st w = Return st w
   /\ st.2 !! Drive.id file = Some "doc-1"
   /\ thrown = Throw Sample.backend_error (world_of thrown))
  /\ exists result w',
       syncAllDocuments env Sample.alice w = Return result w'
       /\ {| error_document_id := "doc-1"; error := "Backend Error" |} ∈ errors result.
Proof.
  intros env w file after st thrown.
  assert (Hmap : st.2 !! Drive.id file = Some "doc-1") by (vm_compute; reflexivity).
  assert (Hthrow : thrown = Throw Sample.backend_error (world_of thrown))
    by (vm_compute; reflexivity).
  split; [repeat split; try reflexivity; assumption |].
  destruct (full_sync_collects_document_errors env Sample.alice w) as (_ & _ & _ & _ & H).
  exact (H "folder-1" [] file after st w "doc-1" Sample.backend_error (world_of thrown)
           eq_refl eq_refl eq_refl Hmap Hthrow).
Defined.

(** One run: the fetch of the registered document fails with a server
    error, the other file of the folder is new.  The error is recorded and
    the new file is still registered. *)
Example full_sync_with_a_failing_document :
  exists w',
    syncAllDocuments Sample.failing_folder Sample.alice Sample.sync_world
    = Return {| documents_synced := 0; documents_added := 1; documents_removed := 0;
                segments_updated := 0;
                errors := [ {| error_document_id := "doc-1";
                               error := "Backend Error" |} ] |} w'
    /\ Document.google_file_id <$> documents (tables w') = ["gfile-1"; "gfile-2"].
Proof. eexists. split; [vm_compute; reflexivity | reflexivity]. Qed.

End SyncProofs.

(** ** Segment creation with tags *)

Module SegmentsProofs.
Import Segments.

(** C6.  [createSegment] runs its statements one by one on the pool, with no
    transaction around them: when the INSERT of the [segment_tags] rows fails
    (here the list names one tag twice; then a tag that does not exist), the
    call throws, no tag row is stored, but the new row of [segments] and the
    colour usage stay in the database. *)
Theorem createSegment_keeps_segment_when_tags_fail :
  (exists error w',
     createSegment Sample.one_marker Sample.alice Sample.twice_tagged
       Sample.sync_world = Throw error w'
     /\ segments (tables w') = segments (tables Sample.sync_world) ++ [Sample.brave]
     /\ segment_tags (tables w') = []
     /\ color_usage (tables w') = [ColorUsage.mk Sample.alice "#81C784" 100 1]
     /\ tables w' <> tables Sample.sync_world)
  /\ (exists error w',
        createSegment Sample.one_marker Sample.alice Sample.unknown_tag
          Sample.sync_world = Throw error w'
        /\ segments (tables w') = segments (tables Sample.sync_world) ++ [Sample.brave]
        /\ segment_tags (tables w') = []).
Proof.
  split.
  - eexists _, _. split; [vm_compute; reflexivity|]. repeat split. discriminate.
  - eexists _, _. split; [vm_compute; reflexivity|]. repeat split.
Qed.

End SegmentsProofs.

(** ** Registration of a document *)

Module DocumentsProofs.
Import Documents.

(** The rows of [documents] of this user and file. *)
Definition existing (user : User.t) (dto : CreateDocumentDTO) (w : World) : list Document.t :=
  List.filter (owned_file (User.id user) (google_file_id dto)) (documents (tables w)).

Lemma copy_if_requested_world env user dto w :
  world_of (copy_if_requested env user dto w) = w.
Proof.
  unfold copy_if_requested.
  destruct (default false (copy_to_folder dto)); [|done].
  destruct (folder_of user); [|done]. unfold bind, await, ret, throw.
  destruct (getFileMetadata env (User.id user) (google_file_id dto)); [done|].
  by destruct (copyFileToFolder _ _ _ _ _).
Qed.

(** The INSERT appends one active row of the user, or fails. *)
Lemma insert_document_inv env userId fileId meta parentId w :
  (exists row w',
     insert_document env userId fileId meta parentId w = Return row w'
     /\ documents (tables w') = documents (tables w) ++ [row]
     /\ (row ∉ documents (tables w))
     /\ Document.user_id row = userId
     /\ Document.is_active row = true)
  \/ (exists e w', insert_document env userId fileId meta parentId w = Throw e w').
Proof.
  unfold insert_document. unfold bind, query, check, gen_random_uuid, execute, ret, throw.
  destruct (negb (existsb _ _)); simpl; [|right; by eexists _, _].
  destruct (varchar 255 fileId && _ && _ && _); simpl; [|right; by eexists _, _].
  destruct (negb (bool_decide _)) eqn:Hpk; simpl; [|right; by eexists _, _].
  left. eexists _, _. split; [reflexivity|]. simpl. repeat split.
  apply negb_true_iff, bool_decide_eq_false in Hpk.
  intros Hin. apply Hpk. apply list_elem_of_fmap. eexists. split; [|exact Hin]. done.
Qed.

(** The row of a document after [SET is_active = true]: active, with the
    [updated_at] that the trigger [update_docs_modtime] writes, and every
    other column as it was. *)
Definition reactivated (env : Env) (d : Document.t) : Document.t :=
  Document.mk (Document.id d) (Document.user_id d) (Document.google_file_id d)
    (Document.title d) (Document.google_folder_id d) (Document.mime_type d)
    (Document.last_synced_at d) (Document.last_modified_at d) true (now env).

(** C10.  When a row of [documents] with the user's id and the file id
    exists, [registerDocument] returns that row, as it was read, and inserts
    nothing: an active row leaves the world as it is; of a soft-deleted row
    the stored row becomes active ([is_active = true]), keeps its other
    columns but [updated_at], and no other row or table changes.  When no
    such row exists, a returned document is a new row appended to
    [documents], of this user and active. *)
Theorem registerDocument_is_idempotent env user dto w :
  (forall row rest, existing user dto w = row :: rest ->
     exists w',
       registerDocument env user dto w = Return row w'
       /\ row ∈ documents (tables w)
       /\ Document.user_id row = User.id user
       /\ Document.google_file_id row = google_file_id dto
       /\ length (documents (tables w')) = length (documents (tables w))
       /\ Document.id <$> documents (tables w') = Document.id <$> documents (tables w)
       /\ (Document.is_active row = true -> w' = w)
       /\ (Document.is_active row = false ->
           documents (tables w')
           = List.map (fun d =>
               if bool_decide (Document.id d = Document.id row)
               then reactivated env d else d)
               (documents (tables w))
           /\ reactivated env row ∈ documents (tables w')
           /\ (forall d, d ∈ documents (tables w') ->
                 Document.id d = Document.id row -> Document.is_active d = true)
           /\ tables w' = with_documents (fun _ => documents (tables w')) (tables w)))
  /\ (existing user dto w = [] ->
      forall newDoc w',
        registerDocument env user dto w = Return newDoc w' ->
        documents (tables w') = documents (tables w) ++ [newDoc]
        /\ (newDoc ∉ documents (tables w))
        /\ Document.user_id newDoc = User.id user
        /\ Document.is_active newDoc = true).
Proof.
  split.
  - intros row rest Hex.
    assert (Hrow : row ∈ existing user dto w) by (rewrite Hex; left).
    apply elem_of_filter_b in Hrow as [Hin Hrow]. unfold owned_file in Hrow.
    apply andb_true_iff in Hrow as [Hu Hf]. apply bool_decide_eq_true in Hu, Hf.
    unfold registerDocument, update_is_active. unfold bind, ret, query, execute.
    fold (existing user dto w). rewrite Hex.
    destruct (Document.is_active row) eqn:Hact; simpl.
    + exists w. repeat split; done.
    + eexists. split; [reflexivity|]. simpl. rewrite length_map.
      split; [done|]. split; [done|]. split; [done|]. split; [done|].
      split.
      { rewrite <- list_fmap_compose. apply list_fmap_ext. intros _ d _. simpl.
        by destruct (bool_decide _). }
      split; [done|]. intros _. split; [reflexivity|]. split; [|split].
      * apply list_elem_of_In, in_map_iff. exists row.
        rewrite bool_decide_eq_true_2 by done.
        split; [reflexivity | by apply list_elem_of_In].
      * intros d Hd Hid. apply list_elem_of_In, in_map_iff in Hd as (d0 & <- & _).
        destruct (bool_decide (Document.id d0 = Document.id row)) eqn:E; [done|].
        apply bool_decide_eq_false in E. by destruct E.
      * by destruct (tables w).
  - intros Hex newDoc w'.
    unfold registerDocument. unfold bind at 1. unfold query.
    fold (existing user dto w). rewrite Hex.
    unfold register_new. unfold bind at 1.
    pose proof (copy_if_requested_world env user dto w) as Hcopy.
    destruct (copy_if_requested env user dto w) as [fileId wa|e wa]; [|done].
    simpl in Hcopy. subst wa. unfold bind at 1, await.
    destruct (getFileMetadata env (User.id user) fileId) as [e|meta]; [done|].
    unfold ret at 1. unfold bind at 1.
    destruct (insert_document_inv env (User.id user) fileId meta
                match Drive.parents meta with
                | Some (p :: _) => Some p
                | _ => None
                end w) as [(row & w1 & -> & Hdocs & Hnew & Huser & Hact) | (e & w1 & ->)];
      [|done].
    unfold bind, await, ret. destruct (updateFileProperties _ _ _ _); [done|].
    by intros [= <- <-].
Qed.

Lemma registerDocument_is_idempotent_witness :
  let env := Sample.one_marker in
  let w := Sample.registry_world in
  let again := Sample.register "gfile-9" in
  let fresh := Sample.register "gfile-2" in
  let created := registerDocument env Sample.alice_user fresh w in
  let newDoc :=
    Document.mk "uuid-0" Sample.alice "gfile-2" (Some "New file") (Some "folder-1")
      None None None true 100 in
  let restored :=
    Document.mk "doc-9" Sample.alice "gfile-9" (Some "Old set") None None None None
      true 100 in
  (existing Sample.alice_user again w = [Sample.removed_doc]
   /\ Document.is_active Sample.removed_doc = false
   /\ existing Sample.alice_user fresh w = []
   /\ created = Return newDoc (world_of created))
  /\ (exists w',
        registerDocument env Sample.alice_user again w = Return Sample.removed_doc w'
        /\ length (documents (tables w')) = length (documents (tables w))
        /\ documents (tables w') = [Sample.doc1; restored]
        /\ (forall d, d ∈ documents (tables w') -> Document.id d = "doc-9" ->
              Document.is_active d = true))
  /\ documents (tables (world_of created)) = documents (tables w) ++ [newDoc].
Proof.
  intros env w again fresh created newDoc restored.
  assert (Hcreated : created = Return newDoc (world_of created))
    by (vm_compute; reflexivity).
  split; [repeat split; try reflexivity; assumption |].
  split.
  - destruct (registerDocument_is_idempotent env Sample.alice_user again w) as [H _].
    destruct (H Sample.removed_doc [] eq_refl)
      as (w' & Hrun & _ & _ & _ & Hlen & _ & _ & Hre).
    destruct (Hre eq_refl) as (Hdocs & _ & Hactive & _).
    exists w'. split; [exact Hrun|]. split; [exact Hlen|].
    split; [exact Hdocs | exact Hactive].
  - destruct (registerDocument_is_idempotent env Sample.alice_user fresh w) as [_ H].
    destruct (H eq_refl newDoc (world_of created) Hcreated) as (Hdocs & _).
    exact Hdocs.
Defined.

(** A soft-deleted document is reactivated, not inserted again; the row
    that is returned is the one read before the update. *)
Example register_removed_document :
  exists w',
    registerDocument Sample.one_marker Sample.alice_user (Sample.register "gfile-9")
      Sample.registry_world = Return Sample.removed_doc w'
    /\ documents (tables w')
       = [Sample.doc1;
          Document.set_is_active true (Some 100) Sample.removed_doc].
Proof. eexists. split; reflexivity. Qed.

(** A file that is not registered gets a new row. *)
Example register_new_document :
  exists newDoc w',
    registerDocument Sample.one_marker Sample.alice_user (Sample.register "gfile-2")
      Sample.registry_world = Return newDoc w'
    /\ documents (tables w') = [Sample.doc1; Sample.removed_doc; newDoc]
    /\ Document.google_file_id newDoc = "gfile-2".
Proof. eexists _, _. split; [vm_compute; reflexivity|]. split; reflexivity. Qed.

End DocumentsProofs.

(** ** Colour assignment *)

Module ColorProofs.
Import Color Segments.

(** *** The head of a sorted array *)

Section SortByKey.
Context {A : Type} (key : A -> Z).

(** The first element among those of least key. *)
Fixpoint first_min (l : list A) : option A :=
  match l with
  | [] => None
  | x :: xs =>
      match first_min xs with
      | None => Some x
      | Some m => if key x - key m <=? 0 then Some x else Some m
      end
  end.

Lemma head_insert x l :
  head (Js.insert (fun a b => key a - key b) x l)
  = Some (match head l with
          | Some y => if key x - key y <=? 0 then x else y
          | None => x
          end).
Proof. destruct l as [|y l]; simpl; [done|]. by destruct (_ <=? _). Qed.

Lemma head_sort l : head (Js.sort (fun a b => key a - key b) l) = first_min l.
Proof.
  induction l as [|x xs IH]; simpl; [done|].
  rewrite head_insert, IH. by destruct (first_min xs) as [m|]; [destruct (_ <=? _)|].
Qed.

Lemma first_min_None l : first_min l = None -> l = [].
Proof.
  destruct l as [|x xs]; simpl; [done|].
  by destruct (first_min xs) as [m|]; [destruct (_ <=? _)|].
Qed.

(** [m] is the first element of [l] whose key is the least. *)
Definition first_least (l : list A) (m : A) : Prop :=
  exists pre post,
    l = pre ++ m :: post
    /\ (forall x, x ∈ pre -> key m < key x)
    /\ (forall x, x ∈ post -> key m <= key x).

Lemma first_min_spec l m : first_min l = Some m -> first_least l m.
Proof.
  revert m. induction l as [|x xs IH]; intros m; simpl; [done|].
  destruct (first_min xs) as [m'|] eqn:E.
  - destruct (IH m' eq_refl) as (pre & post & Hl & Hpre & Hpost).
    destruct (key x - key m' <=? 0) eqn:Hle; intros [= <-].
    + apply Z.leb_le in Hle. exists [], xs. split; [done|]. split.
      * intros y Hy. inversion Hy.
      * intros y Hy. rewrite Hl in Hy.
        apply elem_of_app in Hy as [Hy | Hy].
        -- specialize (Hpre y Hy). lia.
        -- apply elem_of_cons in Hy as [-> | Hy]; [lia|].
           specialize (Hpost y Hy). lia.
    + apply Z.leb_gt in Hle. exists (x :: pre), post. split; [by rewrite Hl|]. split.
      * intros y Hy. apply elem_of_cons in Hy as [-> | Hy]; [lia | by apply Hpre].
      * done.
  - apply first_min_None in E. subst xs. intros [= <-].
    exists [], []. split; [done|]. split; intros y Hy; inversion Hy.
Qed.


End SortByKey.

(** *** One assignment *)

Definition palette_of (userId : string) (w : World) : list string :=
  (user_palette (pref_rows userId (tables w)) (DEFAULT_PALETTE w)).1.

Definition available_in (userId documentId : string) (w : World) : list string :=
  List.filter (fun c => negb (bool_decide (c ∈ doc_colors userId documentId (tables w))))
    (palette_of userId w).

Definition usage_of (userId : string) (w : World) : gmap string Stats :=
  usage_map (usage_rows userId (tables w)).

(** The colour that [assignColor] selects. *)
Definition selected (userId documentId : string) (w : World) : option string :=
  match available_in userId documentId w with
  | _ :: _ =>
      first_min (time_of (usage_of userId w)) (available_in userId documentId w)
  | [] => first_min (count_of (usage_of userId w)) (palette_of userId w)
  end.

(** [assignColor] returns the selected colour, reads the tables without
    writing them, and leaves [DEFAULT_PALETTE] as it is while the document
    has an unused colour. *)
Lemma assignColor_selected userId documentId w :
  exists w',
    assignColor userId documentId w = Return (selected userId documentId w) w'
    /\ tables w' = tables w
    /\ uuid_seed w' = uuid_seed w
    /\ (available_in userId documentId w <> [] -> w' = w).
Proof.
  unfold assignColor, selected, available_in, palette_of, usage_of.
  unfold bind, query, ret.
  destruct (user_palette (pref_rows userId (tables w)) (DEFAULT_PALETTE w))
    as [palette shared]. simpl.
  destruct (List.filter _ palette) as [|c available] eqn:Hav.
  - rewrite head_sort. destruct shared; eexists; (split; [reflexivity|]); done.
  - exists w. rewrite <- (head_sort (time_of _)). done.
Qed.

(** *** One creation with an assigned colour *)

(** What the colour assignment reads, apart from [color_usage]. *)
Definition same_colours (w w' : World) : Prop :=
  segments (tables w') = segments (tables w)
  /\ user_preferences (tables w') = user_preferences (tables w)
  /\ DEFAULT_PALETTE w' = DEFAULT_PALETTE w.

Lemma insert_segment_inv env userId documentId categoryId s e txt title color
    is_primary w row w' :
  insert_segment env userId documentId categoryId s e txt title color is_primary w
    = Return row w' ->
  color = Some (Segment.color row)
  /\ Segment.document_id row = documentId
  /\ Segment.user_id row = userId
  /\ Segment.start_offset row = s
  /\ Segment.end_offset row = e
  /\ (Segment.id row ∉ Segment.id <$> segments (tables w))
  /\ segments (tables w') = segments (tables w) ++ [row]
  /\ user_preferences (tables w') = user_preferences (tables w)
  /\ DEFAULT_PALETTE w' = DEFAULT_PALETTE w.
Proof.
  unfold insert_segment. unfold bind, query, check, gen_random_uuid, execute, ret, throw.
  destruct (bool_decide _ && bool_decide _); simpl; [|done].
  destruct (int4 s && int4 e); simpl; [|done].
  destruct (varchar_opt 255 title); simpl; [|done].
  destruct color as [c|]; [|done].
  destruct (varchar 7 c); simpl; [|done].
  destruct (negb (bool_decide _)) eqn:Hpk; simpl; [|done].
  intros [= <- <-]. simpl. repeat split.
  by apply negb_true_iff, bool_decide_eq_false in Hpk.
Qed.

Lemma recordColorUsage_inv env userId color w w' :
  recordColorUsage env userId color w = Return tt w' -> same_colours w w'.
Proof.
  unfold recordColorUsage. unfold bind, check, query, execute, ret, throw.
  destruct (varchar 7 color); simpl; [|done].
  destruct (forallb _ (color_usage (tables w))); simpl; [|done]. by intros [= <-].
Qed.



(** *** The usage recorded in [color_usage] *)

(** The row is that of this user and colour. *)
Definition used_by (userId c : string) (r : ColorUsage.t) : bool :=
  bool_decide (ColorUsage.user_id r = userId) && bool_decide (ColorUsage.color r = c).

(** The row of [color_usage] for a user and a colour, if there is one.  The
    primary key [(user_id, color)] allows one row; of several, the last
    would count, as in the map that [assignColor] fills row by row. *)
Definition usage_row (userId c : string) (t : Tables) : option ColorUsage.t :=
  last (List.filter (used_by userId c) (color_usage t)).

(** The usage count and the time of the last use that the table records;
    0 for a colour without a row. *)
Definition use_count (userId c : string) (t : Tables) : Z :=
  match usage_row userId c t with
  | Some r => ColorUsage.usage_count r
  | None => 0
  end.

Definition last_use (userId c : string) (t : Tables) : Z :=
  match usage_row userId c t with
  | Some r => ColorUsage.last_used_at r
  | None => 0
  end.

Definition stats_of (r : ColorUsage.t) : Stats :=
  {| lastUsed := ColorUsage.last_used_at r; count := ColorUsage.usage_count r |}.

Lemma usage_map_snoc rows r :
  usage_map (rows ++ [r]) = <[ColorUsage.color r := stats_of r]> (usage_map rows).
Proof. unfold usage_map. by rewrite fold_left_app. Qed.

Lemma usage_map_lookup rows c :
  usage_map rows !! c
  = stats_of <$> last (List.filter (fun r => bool_decide (ColorUsage.color r = c)) rows).
Proof.
  induction rows as [|r rows IH] using rev_ind; [done|].
  rewrite usage_map_snoc, last_filter_snoc.
  destruct (decide (ColorUsage.color r = c)) as [<-|Hne].
  - by rewrite lookup_insert_eq, bool_decide_eq_true_2.
  - by rewrite lookup_insert_ne, bool_decide_eq_false_2.
Qed.

Lemma filter_used_by userId c rows :
  List.filter (fun r => bool_decide (ColorUsage.color r = c))
    (List.filter (fun r => bool_decide (ColorUsage.user_id r = userId)) rows)
  = List.filter (used_by userId c) rows.
Proof.
  induction rows as [|r rows IH]; simpl; [done|]. unfold used_by in *.
  destruct (bool_decide (ColorUsage.user_id r = userId)); simpl; [|done].
  by rewrite IH.
Qed.

(** The statistics that [assignColor] looks up are those of the table. *)
Lemma usage_of_lookup userId w c :
  usage_of userId w !! c = stats_of <$> usage_row userId c (tables w).
Proof.
  unfold usage_of, usage_rows, usage_row. by rewrite usage_map_lookup, filter_used_by.
Qed.

Lemma count_of_usage userId w c :
  count_of (usage_of userId w) c = use_count userId c (tables w).
Proof.
  unfold count_of, use_count. rewrite usage_of_lookup. by destruct (usage_row _ _ _).
Qed.

Lemma time_of_usage userId w c :
  time_of (usage_of userId w) c = last_use userId c (tables w).
Proof.
  unfold time_of, last_use. rewrite usage_of_lookup. by destruct (usage_row _ _ _).
Qed.

Lemma first_least_ext {A} (key key' : A -> Z) (l : list A) (m : A) :
  (forall x, key x = key' x) -> first_least key l m -> first_least key' l m.
Proof.
  intros E (pre & post & Hl & Hpre & Hpost). exists pre, post.
  split; [done|]. split; intros x Hx; rewrite <- !E; auto.
Qed.


(** The colour that [assignColor] selects, read from the table: among the
    palette colours not yet in the document the first of those used least
    recently, and when there is none, the first of the palette colours of
    least usage count. *)
Lemma selected_spec userId documentId w c :
  selected userId documentId w = Some c ->
  (available_in userId documentId w <> [] ->
   first_least (fun x => last_use userId x (tables w))
     (available_in userId documentId w) c)
  /\ (available_in userId documentId w = [] ->
      first_least (fun x => use_count userId x (tables w)) (palette_of userId w) c).
Proof.
  unfold selected. destruct (available_in userId documentId w) as [|a av] eqn:E.
  - intros H%first_min_spec. split; [done|]. intros _.
    eapply first_least_ext; [|exact H]. intros x. apply count_of_usage.
  - intros H%first_min_spec. split; [|done]. intros _.
    eapply first_least_ext; [|exact H]. intros x. apply time_of_usage.
Qed.

(** What a recorded use writes: the row of the user and the colour, with the
    time of the call and a count one higher (1 for a first use); no other
    row, and no other table. *)
Lemma recordColorUsage_rows env userId color w w' :
  recordColorUsage env userId color w = Return tt w' ->
  usage_row userId color (tables w')
  = Some (ColorUsage.mk userId color (now env) (use_count userId color (tables w) + 1))
  /\ (forall u c, u <> userId \/ c <> color ->
        usage_row u c (tables w') = usage_row u c (tables w)).
Proof.
  unfold recordColorUsage. unfold bind, check, query, execute, ret, throw.
  destruct (varchar 7 color); simpl; [|done].
  destruct (forallb _ (color_usage (tables w))); simpl; [|done].
  intros [= <-]. unfold use_count, usage_row. simpl.
  set (rows := color_usage (tables w)).
  change (fun r : ColorUsage.t =>
            bool_decide (ColorUsage.user_id r = userId)
            && bool_decide (ColorUsage.color r = color)) with (used_by userId color).
  set (bump := fun r : ColorUsage.t =>
         if used_by userId color r
         then ColorUsage.mk userId color (now env) (ColorUsage.usage_count r + 1)
         else r).
  assert (Hbump : forall r, used_by userId color (bump r) = used_by userId color r).
  { intros r. unfold bump. destruct (used_by userId color r) eqn:E; [|done].
    unfold used_by. simpl. by rewrite !bool_decide_eq_true_2. }
  assert (Hother : forall u c, u <> userId \/ c <> color ->
            forall r, used_by u c (bump r) = used_by u c r
                      /\ (used_by u c r = true -> bump r = r)).
  { intros u c Hne r. unfold bump.
    destruct (used_by userId color r) eqn:E; [|done].
    apply andb_true_iff in E as [Eu Ec]. apply bool_decide_eq_true in Eu, Ec.
    assert (Hr : used_by u c r = false).
    { unfold used_by. rewrite Eu, Ec. apply andb_false_iff.
      destruct Hne as [H|H]; [left | right]; apply bool_decide_eq_false_2; congruence. }
    rewrite Hr. split; [|done]. unfold used_by. simpl. apply andb_false_iff.
    destruct Hne as [H|H]; [left | right]; apply bool_decide_eq_false_2; congruence. }
  destruct (existsb (used_by userId color) rows) eqn:Hex.
  - fold bump. split.
    + rewrite (filter_b_map _ bump _ Hbump), last_map.
      destruct (last (List.filter (used_by userId color) rows)) as [r|] eqn:El.
      * simpl. unfold bump.
        assert (Hr : r ∈ List.filter (used_by userId color) rows).
        { apply last_Some in El as [l' ->]. apply elem_of_app. right. left. }
        apply elem_of_filter_b in Hr as [_ Hr]. by rewrite Hr.
      * exfalso. apply last_None in El.
        apply existsb_exists in Hex as (r & Hr & Hu). apply list_elem_of_In in Hr.
        pose proof (proj1 (filter_b_nil_iff _ _) El r Hr). congruence.
    + intros u c Hne. by rewrite (filter_b_map_other _ bump _ (Hother u c Hne)).
  - assert (Hnone : List.filter (used_by userId color) rows = []).
    { apply filter_b_nil_iff. intros r Hr. apply not_true_iff_false. intros Hu.
      apply not_true_iff_false in Hex. apply Hex, existsb_exists.
      exists r. split; [by apply list_elem_of_In | done]. }
    split.
    + rewrite last_filter_snoc, Hnone. unfold used_by. simpl.
      by rewrite !bool_decide_eq_true_2.
    + intros u c Hne. rewrite last_filter_snoc.
      assert (Hnew : used_by u c (ColorUsage.mk userId color (now env) 1) = false).
      { unfold used_by. simpl. apply andb_false_iff.
        destruct Hne as [H|H]; [left | right]; apply bool_decide_eq_false_2; congruence. }
      by rewrite Hnew.
Qed.





(** *** The first N + 1 segments of a fresh document *)



Lemma elem_of_doc_colors userId documentId t x :
  x ∈ doc_colors userId documentId t
  <-> exists s, s ∈ segments t /\ Segment.document_id s = documentId
               /\ Segment.user_id s = userId /\ Segment.color s = x.
Proof.
  unfold doc_colors. rewrite elem_of_remove_dups, list_elem_of_fmap. split.
  - intros [s [-> Hs]]. apply elem_of_filter_b in Hs as [Hs Hb].
    apply andb_true_iff in Hb as [H1 H2]. apply bool_decide_eq_true in H1, H2.
    by exists s.
  - intros (s & Hs & Hd & Hu & <-). exists s. split; [done|].
    apply elem_of_filter_b. split; [done|].
    apply andb_true_iff. split; by apply bool_decide_eq_true.
Qed.









End ColorProofs.

(** ** The offsets written by the segment routes *)

Module RoutesProofs.
Import Segments Routes.

(** Every stored segment ends after it starts. *)
Definition offsets_ok (w : World) : Prop :=
  Forall (fun s => Segment.start_offset s < Segment.end_offset s) (segments (tables w)).

Lemma insert_segment_segments env userId documentId categoryId s e txt title color
    is_primary w :
  let outcome :=
    insert_segment env userId documentId categoryId s e txt title color is_primary w in
  match outcome with
  | Return row w' =>
      segments (tables w') = segments (tables w) ++ [row]
      /\ Segment.start_offset row = s /\ Segment.end_offset row = e
  | Throw _ w' => segments (tables w') = segments (tables w)
  end.
Proof.
  simpl.
  destruct (insert_segment env userId documentId categoryId s e txt title color
              is_primary w) as [row w'|err w'] eqn:E.
  - by apply ColorProofs.insert_segment_inv in E as (_ & _ & _ & ? & ? & _ & ? & _).
  - revert E. unfold insert_segment.
    unfold bind, query, check, gen_random_uuid, execute, ret, throw.
    destruct (bool_decide _ && bool_decide _); simpl; [|by intros [= _ <-]].
    destruct (int4 s && int4 e); simpl; [|by intros [= _ <-]].
    destruct (varchar_opt 255 title); simpl; [|by intros [= _ <-]].
    destruct color as [c|]; [|by intros [= _ <-]].
    destruct (varchar 7 c); simpl; [|by intros [= _ <-]].
    destruct (negb (bool_decide _)); simpl; [done | by intros [= _ <-]].
Qed.

Lemma recordColorUsage_segments env userId color w :
  segments (tables (world_of (Color.recordColorUsage env userId color w)))
  = segments (tables w).
Proof.
  unfold Color.recordColorUsage. unfold bind, check, query, execute, ret, throw.
  destruct (varchar 7 color); simpl; [|done].
  by destruct (forallb _ (color_usage (tables w))).
Qed.

Lemma insert_segment_tags_segments segmentId tagIds w :
  segments (tables (world_of (insert_segment_tags segmentId tagIds w)))
  = segments (tables w).
Proof.
  unfold insert_segment_tags. unfold bind, query, check, execute, ret, throw.
  destruct (bool_decide _ && forallb _ tagIds); simpl; [|done].
  by destruct (bool_decide (NoDup tagIds) && forallb _ tagIds).
Qed.

Lemma insert_association_segments sourceId targetId type w :
  segments (tables (world_of (insert_association sourceId targetId type w)))
  = segments (tables w).
Proof.
  unfold insert_association. unfold bind, query, check, execute, ret, throw.
  destruct (bool_decide _ && bool_decide _); simpl; [|done].
  destruct (negb (existsb _ _)); simpl; [|done].
  by destruct (varchar 50 type).
Qed.

(** Whatever its outcome, [createSegment] leaves [segments] as it is or
    appends one row with the offsets of the request. *)
Lemma createSegment_segments env userId dto w :
  let w' := world_of (createSegment env userId dto w) in
  segments (tables w') = segments (tables w)
  \/ exists row,
       segments (tables w') = segments (tables w) ++ [row]
       /\ Segment.start_offset row = start_offset dto
       /\ Segment.end_offset row = end_offset dto.
Proof.
  simpl. remember (createSegment env userId dto w) as outcome eqn:Ho.
  unfold createSegment in Ho. unfold bind at 1 in Ho.
  assert (Hcolor : exists c wa,
            match truthy (color dto) with
            | Some c => ret (Some c)
            | None => Color.assignColor userId (document_id dto)
            end w = Return c wa /\ tables wa = tables w).
  { destruct (truthy (color dto)) as [c|].
    - by eexists _, _.
    - destruct (ColorProofs.assignColor_selected userId (document_id dto) w)
        as (wa & -> & Ht & _). by eexists _, _. }
  destruct Hcolor as (c & wa & Hc & Hwa). rewrite Hc in Ho. rewrite <- Hwa.
  unfold bind at 1 in Ho.
  match type of Ho with
  | context [insert_segment ?a ?b ?c ?d ?e ?f ?g ?h ?i ?j wa] =>
      pose proof (insert_segment_segments a b c d e f g h i j wa) as Hins;
      destruct (insert_segment a b c d e f g h i j wa) as [row w1|err w1]
  end; simpl in Hins; [|subst outcome; by left].
  destruct Hins as (Hseg & Hs & He). right. exists row. split; [|done].
  rewrite <- Hseg. unfold bind at 1 in Ho.
  pose proof (recordColorUsage_segments env userId (Segment.color row) w1) as Hrec.
  destruct (Color.recordColorUsage env userId (Segment.color row) w1) as [[] w2|err w2];
    simpl in Hrec; [|by subst outcome].
  rewrite <- Hrec. unfold bind at 1 in Ho.
  assert (Htags : segments (tables (world_of
            (match tag_ids dto with
             | Some (tag :: more) => insert_segment_tags (Segment.id row) (tag :: more)
             | _ => ret tt
             end w2))) = segments (tables w2)).
  { destruct (tag_ids dto) as [[|tag more]|]; [done | | done].
    apply insert_segment_tags_segments. }
  destruct (match tag_ids dto with
            | Some (tag :: more) => insert_segment_tags (Segment.id row) (tag :: more)
            | _ => ret tt
            end w2) as [[] w3|err w3]; simpl in Htags; by subst outcome.
Qed.

Lemma createAssociation_segments env userId sourceId dto w :
  let w' := world_of (createAssociation env userId sourceId dto w) in
  segments (tables w') = segments (tables w)
  \/ exists row,
       segments (tables w') = segments (tables w) ++ [row]
       /\ Segment.start_offset row = assoc_start_offset dto
       /\ Segment.end_offset row = assoc_end_offset dto.
Proof.
  simpl. remember (createAssociation env userId sourceId dto w) as outcome eqn:Ho.
  unfold createAssociation in Ho. unfold bind at 1, getSegmentById at 1, query in Ho.
  destruct (head _) as [sourceSegment|]; [|subst outcome; by left].
  unfold bind at 1 in Ho.
  match type of Ho with
  | context [insert_segment ?a ?b ?c ?d ?e ?f ?g ?h ?i ?j w] =>
      pose proof (insert_segment_segments a b c d e f g h i j w) as Hins;
      destruct (insert_segment a b c d e f g h i j w) as [row w1|err w1]
  end; simpl in Hins; [|subst outcome; by left].
  destruct Hins as (Hseg & Hs & He). right. exists row. split; [|done].
  rewrite <- Hseg. unfold bind at 1 in Ho.
  pose proof (insert_association_segments sourceId (Segment.id row)
                (association_type dto) w1) as Hassoc.
  destruct (insert_association sourceId (Segment.id row) (association_type dto) w1)
    as [[] w2|err w2]; simpl in Hassoc; by subst outcome.
Qed.

Section Validated.
Variable is_uuid : string -> bool.

(** The three routes that take offsets from a request keep the invariant,
    whatever their outcome: the schema rejects [end_offset <= start_offset]
    before the service runs. *)
Lemma post_segment_offsets_ok env userId body w :
  offsets_ok w -> offsets_ok (world_of (post_segment is_uuid env userId body w)).
Proof.
  intros Hok. unfold post_segment, validate.
  destruct (createSegmentSchema is_uuid body) eqn:Hschema; [|done].
  unfold createSegmentSchema in Hschema.
  apply andb_true_iff in Hschema as [_ Hlt]. apply Z.ltb_lt in Hlt.
  destruct (createSegment_segments env userId body w) as [H | (row & H & Hs & He)];
    unfold offsets_ok; rewrite H; [done|].
  apply Forall_app. split; [done|]. constructor; [lia | constructor].
Qed.

Lemma post_associate_offsets_ok env userId id body w :
  offsets_ok w -> offsets_ok (world_of (post_associate is_uuid env userId id body w)).
Proof.
  intros Hok. unfold post_associate, validate.
  destruct (associateSegmentSchema is_uuid body) eqn:Hschema; [|done].
  unfold associateSegmentSchema in Hschema.
  apply andb_true_iff in Hschema as [_ Hlt]. apply Z.ltb_lt in Hlt.
  destruct (createAssociation_segments env userId id body w) as [H | (row & H & Hs & He)];
    unfold offsets_ok; rewrite H; [done|].
  apply Forall_app. split; [done|]. constructor; [lia | constructor].
Qed.

Lemma put_markers_offsets_ok env userId id body w :
  offsets_ok w -> offsets_ok (world_of (put_markers env userId id body w)).
Proof.
  intros Hok. unfold put_markers, validate.
  destruct (updateMarkersSchema body) eqn:Hschema; [|done].
  unfold updateMarkersSchema in Hschema.
  apply andb_true_iff in Hschema as [_ Hlt]. apply Z.ltb_lt in Hlt.
  unfold updateMarkers, getSegmentById. unfold bind, check, query, execute, ret, throw.
  destruct (int4 _ && int4 _); simpl; [|done].
  assert (Hmap : Forall (fun s => Segment.start_offset s < Segment.end_offset s)
            (List.map (fun r =>
               if bool_decide (Segment.id r = id) && bool_decide (Segment.user_id r = userId)
               then Segment.set_offsets (markers_start_offset body)
                      (markers_end_offset body) (now env) r
               else r) (segments (tables w)))).
  { apply Forall_forall. intros x Hx.
    apply list_elem_of_In, in_map_iff in Hx as [r [<- Hr]].
    destruct (_ && _); [done|].
    apply list_elem_of_In in Hr. by eapply Forall_forall in Hok. }
  by destruct (head _).
Qed.

End Validated.

(** The reconciliation does not keep it. *)
Lemma syncDocument_breaks_offsets_ok :
  offsets_ok Sample.sync_world
  /\ ~ offsets_ok (world_of (Sync.syncDocument Sample.collapsed_marker Sample.alice
                              "doc-1" Sample.sync_world)).
Proof.
  split.
  - unfold offsets_ok. simpl. repeat constructor.
  - intros H. unfold offsets_ok in H.
    assert (E : segments (tables (world_of (Sync.syncDocument Sample.collapsed_marker
                  Sample.alice "doc-1" Sample.sync_world)))
                = [Segment.set_offsets_text 3 3 "" 100 Sample.hello; Sample.world_seg])
      by (vm_compute; reflexivity).
    rewrite E in H. apply Forall_cons in H as [H _]. simpl in H. lia.
Qed.

End RoutesProofs.

(* ===================================================================== *)
(** * Further properties of the services *)
(* ===================================================================== *)

(** ** Facts about lists used below *)

Lemma NoDup_fmap_eq {A B} (f : A -> B) (l : list A) x y :
  NoDup (f <$> l) -> x ∈ l -> y ∈ l -> f x = f y -> x = y.
Proof.
  induction l as [|a l IH]; simpl; [by intros _ ?%elem_of_nil|].
  intros [Ha Hl]%NoDup_cons Hx Hy E.
  apply elem_of_cons in Hx as [->|Hx], Hy as [->|Hy]; try done.
  - exfalso. apply Ha. rewrite E. apply list_elem_of_fmap. by exists y.
  - exfalso. apply Ha. rewrite <- E. apply list_elem_of_fmap. by exists x.
  - by apply IH.
Qed.

Lemma Forall2_map_r {A} (R : A -> A -> Prop) (f : A -> A) (l : list A) :
  (forall a, a ∈ l -> R a (f a)) -> Forall2 R l (List.map f l).
Proof.
  induction l as [|a l IH]; intros H; simpl; constructor.
  - apply H. left.
  - apply IH. intros b Hb. apply H. by right.
Qed.

Lemma Forall2_same {A} (R : A -> A -> Prop) (l : list A) :
  (forall a, R a a) -> Forall2 R l l.
Proof. intros H. induction l; by constructor. Qed.

Lemma Forall2_same_in {A} (R : A -> A -> Prop) (l : list A) :
  (forall a, a ∈ l -> R a a) -> Forall2 R l l.
Proof.
  induction l as [|a l IH]; intros H; constructor.
  - apply H. left.
  - apply IH. intros b Hb. apply H. by right.
Qed.

Lemma Forall2_impl_in {A} (R R' : A -> A -> Prop) (l k : list A) :
  Forall2 R l k -> (forall x y, x ∈ l -> y ∈ k -> R x y -> R' x y) -> Forall2 R' l k.
Proof.
  induction 1 as [|x y l k Hxy Hlk IH]; intros H; constructor.
  - apply H; [left | left | done].
  - apply IH. intros a b Ha Hb. apply H; by right.
Qed.

Lemma NoDup_fmap_filter {A B} `{EqDecision B} (f : A -> B) (p : A -> bool) (l : list A) :
  NoDup (f <$> l) -> NoDup (f <$> List.filter p l).
Proof.
  induction l as [|a l IH]; simpl; [done|].
  intros [Ha Hl]%NoDup_cons. destruct (p a); simpl; [|by apply IH].
  apply NoDup_cons. split; [|by apply IH].
  intros Hin. apply Ha. apply list_elem_of_fmap in Hin as (x & -> & Hx).
  apply list_elem_of_fmap. exists x. split; [done|].
  by apply elem_of_filter_b in Hx as [Hx _].
Qed.

Lemma remove_dups_NoDup {A} `{EqDecision A} (l : list A) : NoDup l -> remove_dups l = l.
Proof.
  induction l as [|a l IH]; simpl; [done|]. intros [Ha Hl]%NoDup_cons.
  destruct (decide_rel elem_of a l); [done|]. by rewrite IH.
Qed.

Lemma forallb_false_elem {A} (f : A -> bool) (l : list A) :
  forallb f l = false -> exists x, x ∈ l /\ f x = false.
Proof.
  induction l as [|a l IH]; simpl; [done|].
  destruct (f a) eqn:E; simpl.
  - intros (x & Hx & Hf)%IH. exists x. split; [by right | done].
  - intros _. exists a. split; [left | done].
Qed.

Lemma filter_b_fixed {A} (f : A -> bool) (l : list A) :
  (forall x, x ∈ l -> f x = true) -> List.filter f l = l.
Proof.
  intros H. induction l as [|a l IH]; simpl; [done|].
  rewrite H by left. f_equal. apply IH. intros x Hx. apply H. by right.
Qed.

Lemma filter_b_unique `{EqDecision A} (p : A -> bool) (l : list A) x :
  NoDup l -> x ∈ l -> (forall y, y ∈ l -> p y = true <-> y = x) -> List.filter p l = [x].
Proof.
  induction l as [|a l IH]; [by intros _ ?%elem_of_nil|].
  intros [Ha Hl]%NoDup_cons Hx Hp. simpl.
  destruct (decide (a = x)) as [->|Hne].
  - rewrite (proj2 (Hp x (list_elem_of_here _ _)) eq_refl). f_equal.
    apply filter_b_nil_iff. intros y Hy. apply not_true_iff_false.
    intros E. apply Hp in E; [|by right]. by subst y.
  - apply elem_of_cons in Hx as [->|Hx]; [done|].
    destruct (p a) eqn:E.
    + apply Hp in E; [done | left].
    + apply IH; [done | done |]. intros y Hy. apply Hp. by right.
Qed.

(** ** The named ranges of a fetched document ([services/googleDocs.ts]) *)

Module GoogleDocsProofs.
Import GoogleDocs.

Lemma prefix_append (p s : string) : Js.startsWith p (p +:+ s) = true.
Proof.
  unfold Js.startsWith. induction p as [|a p IH]; simpl; [by destruct s|].
  by destruct (ascii_dec a a).
Qed.

Lemma substring_all (s : string) : String.substring 0 (String.length s) s = s.
Proof. induction s as [|a s IH]; simpl; [done | by rewrite IH]. Qed.

Lemma drop_prefix_append (p s : string) : Js.drop_prefix p (p +:+ s) = s.
Proof.
  unfold Js.drop_prefix. induction p as [|a p IH]; simpl.
  - rewrite Nat.sub_0_r. apply substring_all.
  - exact IH.
Qed.

Lemma startsWith_split (p s : string) :
  Js.startsWith p s = true -> s = p +:+ Js.drop_prefix p s.
Proof.
  unfold Js.startsWith, Js.drop_prefix. revert s.
  induction p as [|a p IH]; intros s; simpl.
  - intros _. rewrite Nat.sub_0_r, substring_all. reflexivity.
  - destruct s as [|b s]; simpl; [discriminate|].
    destruct (ascii_dec a b) as [->|]; simpl; [|discriminate].
    intros H. exact (f_equal (String b) (IH s H)).
Qed.

(** One turn of the loop over [Object.entries(ranges)]. *)
Definition add_range (cmmsRanges : gmap string Offsets)
    (entry : string * NamedRanges) : gmap string Offsets :=
  let '(name, rangeObj) := entry in
  if Js.startsWith cmms_prefix name then
    match first_range rangeObj with
    | Some o => <[Js.drop_prefix cmms_prefix name := o]> cmmsRanges
    | None => cmmsRanges
    end
  else cmmsRanges.

Lemma add_range_other m name r segmentId :
  name <> cmms_prefix +:+ segmentId ->
  add_range m (name, r) !! segmentId = m !! segmentId.
Proof.
  intros Hne. unfold add_range.
  destruct (Js.startsWith cmms_prefix name) eqn:Hp; [|done].
  destruct (first_range r); [|done].
  apply lookup_insert_ne. intros E. apply Hne.
  rewrite (startsWith_split _ _ Hp). by rewrite E.
Qed.

Lemma add_range_same m r segmentId :
  add_range m (cmms_prefix +:+ segmentId, r) !! segmentId
  = match first_range r with
    | Some o => Some o
    | None => m !! segmentId
    end.
Proof.
  unfold add_range. rewrite prefix_append, drop_prefix_append.
  destruct (first_range r); [apply lookup_insert_eq | done].
Qed.

Lemma fold_add_range_lookup (entries : list (string * NamedRanges)) segmentId o :
  forall m,
  NoDup entries.*1 ->
  fold_left add_range entries m !! segmentId = Some o
  <-> (exists r, (cmms_prefix +:+ segmentId, r) ∈ entries /\ first_range r = Some o)
      \/ ((forall r, (cmms_prefix +:+ segmentId, r) ∈ entries -> first_range r = None)
          /\ m !! segmentId = Some o).
Proof.
  induction entries as [|[name r0] entries IH]; intros m Hnd; simpl.
  - split.
    + intros H. right. split; [|done]. intros r Hr. inversion Hr.
    + intros [(r & Hr & _) | [_ H]]; [inversion Hr | done].
  - apply NoDup_cons in Hnd as [Hfresh Hnd]. rewrite (IH _ Hnd).
    destruct (decide (name = cmms_prefix +:+ segmentId)) as [->|Hne].
    + assert (Hno : forall r, (cmms_prefix +:+ segmentId, r) ∈ entries -> False).
      { intros r Hr. apply Hfresh. apply list_elem_of_fmap. by exists (cmms_prefix +:+ segmentId, r). }
      change (if Js.startsWith cmms_prefix (cmms_prefix +:+ segmentId)
              then match first_range r0 with
                   | Some o0 => <[Js.drop_prefix cmms_prefix (cmms_prefix +:+ segmentId):=o0]> m
                   | None => m
                   end
              else m)
        with (add_range m (cmms_prefix +:+ segmentId, r0)).
      rewrite add_range_same. split.
      * intros [(r & Hr & _) | [_ H]]; [by destruct (Hno r)|].
        destruct (first_range r0) as [o0|] eqn:E.
        -- left. exists r0. split; [left | congruence].
        -- right. split; [|done]. intros r [[= <-] | Hr]%elem_of_cons; [done|].
           by destruct (Hno r).
      * intros [(r & [[= <-] | Hr]%elem_of_cons & Ho) | [Hall H]].
        -- right. split; [intros r' Hr'; by destruct (Hno r')|]. by rewrite Ho.
        -- by destruct (Hno r).
        -- right. split; [intros r' Hr'; by destruct (Hno r')|].
           rewrite (Hall r0) by left. done.
    + change (if Js.startsWith cmms_prefix name
              then match first_range r0 with
                   | Some o0 => <[Js.drop_prefix cmms_prefix name:=o0]> m
                   | None => m
                   end
              else m)
        with (add_range m (name, r0)).
      rewrite add_range_other by done. split.
      * intros [(r & Hr & Ho) | [Hall H]].
        -- left. exists r. split; [by right | done].
        -- right. split; [|done]. intros r [[= E _] | Hr]%elem_of_cons; [done | by apply Hall].
      * intros [(r & [[= E _] | Hr]%elem_of_cons & Ho) | [Hall H]]; [done | |].
        -- left. by exists r.
        -- right. split; [|done]. intros r Hr. apply Hall. by right.
Qed.

(** The first range of the first instance exists and both its indices are
    numbers. *)
Lemma first_range_Some r o :
  first_range r = Some o
  <-> exists instance instances range more,
        namedRanges_of r = Some (instance :: instances)
        /\ ranges instance = Some (range :: more)
        /\ startIndex range = Some (start o)
        /\ endIndex range = Some (end_ o).
Proof.
  unfold first_range. split.
  - destruct (namedRanges_of r) as [[|instance instances]|]; try done.
    destruct (ranges instance) as [[|[[s|] [e|]] more]|] eqn:E; try done.
    intros [= <-]. by eexists instance, instances, _, more.
  - intros (instance & instances & [s e] & more & -> & -> & Hs & He).
    simpl in *. subst. by destruct o.
Qed.

(** X1.  When the names of the named ranges are distinct (they are the keys
    of a JSON object), [getCmmsNamedRanges] has an entry for a segment id
    exactly when the document has a named range called [cmms_segment_<id>]
    whose first instance has a first range with both [startIndex] and
    [endIndex] present, and the offsets of the entry are these two indices.
    A named range with no instance, with no range in its first instance, or
    with an index missing in that range gives no entry, whatever its other
    instances and ranges are; names with another prefix give none. *)
Theorem getCmmsNamedRanges_lookup (doc : Document) segmentId o :
  NoDup (namedRanges doc).*1 ->
  getCmmsNamedRanges doc !! segmentId = Some o
  <-> exists r instance instances range more,
        ("cmms_segment_" +:+ segmentId, r) ∈ namedRanges doc
        /\ namedRanges_of r = Some (instance :: instances)
        /\ ranges instance = Some (range :: more)
        /\ startIndex range = Some (start o)
        /\ endIndex range = Some (end_ o).
Proof.
  intros Hnd. unfold getCmmsNamedRanges.
  change (fold_left _ (namedRanges doc) ∅) with (fold_left add_range (namedRanges doc) ∅).
  rewrite fold_add_range_lookup by done.
  change (cmms_prefix +:+ segmentId) with ("cmms_segment_" +:+ segmentId). split.
  - intros [(r & Hr & Ho) | [_ H]]; [|by rewrite lookup_empty in H].
    apply first_range_Some in Ho as (instance & instances & range & more & H).
    by exists r, instance, instances, range, more.
  - intros (r & instance & instances & range & more & Hr & H). left.
    exists r. split; [done|]. apply first_range_Some.
    by exists instance, instances, range, more.
Qed.

Lemma getCmmsNamedRanges_lookup_witness :
  let first := {| startIndex := Some 0; endIndex := Some 5 |} in
  let second := {| startIndex := Some 7; endIndex := Some 9 |} in
  let open := {| startIndex := None; endIndex := Some 9 |} in
  let doc :=
    Sample.gdoc
      [ ("cmms_segment_seg-1",
         {| namedRanges_of := Some [ {| ranges := Some [first; second] |} ] |});
        ("cmms_segment_seg-2",
         {| namedRanges_of := Some [ {| ranges := Some [open; second] |} ] |});
        ("bookmark", {| namedRanges_of := Some [ {| ranges := Some [first] |} ] |}) ] in
  NoDup (namedRanges doc).*1
  /\ getCmmsNamedRanges doc = {[ "seg-1" := {| start := 0; end_ := 5 |} ]}
  /\ (getCmmsNamedRanges doc !! "seg-1" = Some {| start := 0; end_ := 5 |}
      <-> exists r instance instances range more,
            ("cmms_segment_seg-1", r) ∈ namedRanges doc
            /\ namedRanges_of r = Some (instance :: instances)
            /\ ranges instance = Some (range :: more)
            /\ startIndex range = Some 0
            /\ endIndex range = Some 5).
Proof.
  intros first second open doc.
  assert (Hnd : NoDup (namedRanges doc).*1) by (apply (bool_decide_unpack _); exact I).
  split; [exact Hnd|]. split; [reflexivity|].
  exact (getCmmsNamedRanges_lookup doc "seg-1" {| start := 0; end_ := 5 |} Hnd).
Defined.

End GoogleDocsProofs.

(** ** More on the reconciliation of one document ([services/sync.ts]) *)

Module SyncOutcomes.
Import Sync SyncProofs.

Ltac mrun :=
  unfold bind, ret, throw, try_catch, query, execute, check, await,
    BEGIN, COMMIT, ROLLBACK, pool_connect in *.

Definition sync_log_fk : JsError :=
  pg_error "insert or update on table sync_log violates foreign key constraint".

(** *** A document that is not found *)

(** X2.  When no document with this id belongs to the user, [syncDocument]
    throws and writes nothing but the log.  If a document with this id exists
    (it belongs to someone else) the error is "Document not found" (404) and
    a failed entry is logged.  If no document has this id, the failed entry
    cannot be logged (its [document_id] references [documents]) and the error
    that reaches the caller is the foreign-key error of the log, not the 404. *)
Theorem syncDocument_document_not_found env userId documentId w :
  find_document userId documentId (tables w) = [] ->
  (documentId ∈ Document.id <$> documents (tables w) ->
   syncDocument env userId documentId w
   = Throw (AppError "Document not found" 404)
       (logged (single_sync_failed userId documentId (AppError "Document not found" 404))
          (set_txn None w)))
  /\ (documentId ∉ Document.id <$> documents (tables w) ->
      syncDocument env userId documentId w = Throw sync_log_fk (set_txn None w)).
Proof.
  intros Hfind. split; intros Hid.
  - unfold syncDocument, sync_try, sync_catch. mrun. simpl. rewrite Hfind. simpl.
    by rewrite logSync_ok.
  - unfold syncDocument, sync_try, sync_catch. mrun. simpl. rewrite Hfind. simpl.
    unfold logSync. mrun. simpl. by rewrite bool_decide_eq_false_2.
Qed.

Lemma syncDocument_document_not_found_witness :
  let env := Sample.one_marker in
  let w := Sample.sync_world in
  find_document "user-bob" "doc-1" (tables w) = []
  /\ ("doc-1" ∈ Document.id <$> documents (tables w) ->
      syncDocument env "user-bob" "doc-1" w
      = Throw (AppError "Document not found" 404)
          (logged (single_sync_failed "user-bob" "doc-1" (AppError "Document not found" 404))
             (set_txn None w)))
  /\ ("doc-1" ∉ Document.id <$> documents (tables w) ->
      syncDocument env "user-bob" "doc-1" w = Throw sync_log_fk (set_txn None w)).
Proof.
  split; [reflexivity|].
  exact (syncDocument_document_not_found Sample.one_marker "user-bob" "doc-1"
           Sample.sync_world eq_refl).
Defined.

(** *** All the outcomes *)

(** The outcome of [syncDocument] when the user has no such document. *)
Lemma syncDocument_not_found_cases env userId documentId w :
  find_document userId documentId (tables w) = [] ->
  syncDocument env userId documentId w
  = if bool_decide (documentId ∈ Document.id <$> documents (tables w)) then
      Throw (AppError "Document not found" 404)
        (logged (single_sync_failed userId documentId (AppError "Document not found" 404))
           (set_txn None w))
    else Throw sync_log_fk (set_txn None w).
Proof.
  intros Hfind. unfold syncDocument, sync_try, sync_catch, logSync. mrun. simpl.
  rewrite Hfind. simpl. by destruct (bool_decide _).
Qed.


Lemma documents_deactivated_ids env documentId docs x :
  x ∈ Document.id <$> docs ->
  x ∈ Document.id <$> List.map (fun d =>
         if bool_decide (Document.id d = documentId)
         then Document.set_is_active false (Some (now env)) d else d) docs.
Proof.
  intros H. apply elem_of_ids_map; [|done]. intros d. by destruct (bool_decide _).
Qed.

(** The outcome of [syncDocument] when the fetch of a found document fails. *)
Lemma syncDocument_fetch_failed env userId documentId w doc rest error :
  find_document userId documentId (tables w) = doc :: rest ->
  fetchDocument env userId (Document.google_file_id doc) = inl error ->
  syncDocument env userId documentId w
  = if access_lost error then
      Return (access_lost_result error)
        (logged (single_sync_failed userId documentId error)
           (set_tables (with_documents (deactivated env documentId) (tables w))
              (set_txn None w)))
    else
      Throw error (logged (single_sync_failed userId documentId error) (set_txn None w)).
Proof.
  intros Hfind Hfetch.
  pose proof (found_document_id _ _ _ _ _ Hfind) as Hid.
  unfold syncDocument, sync_try, sync_catch, handle_fetch_error,
    Documents.update_is_active.
  mrun. simpl. rewrite Hfind, Hfetch.
  destruct (access_lost error); simpl.
  - rewrite logSync_ok; [done|]. simpl. by apply documents_deactivated_ids.
  - by rewrite logSync_ok.
Qed.

(** X3.  For a document id that exists, every run of [syncDocument] appends
    exactly one row to [sync_log], for this user and document and with
    action [single_sync]; its status is "success" exactly when a result of
    status [success] is returned.  No run leaves a transaction open. *)
Theorem syncDocument_logs_once env userId documentId w :
  documentId ∈ Document.id <$> documents (tables w) ->
  let outcome := syncDocument env userId documentId w in
  exists entry,
    sync_log (tables (world_of outcome)) = sync_log (tables w) ++ [entry]
    /\ SyncLog.user_id entry = userId
    /\ SyncLog.document_id entry = Some documentId
    /\ SyncLog.action entry = "single_sync"
    /\ (SyncLog.status entry = "success"
        <-> exists result w', outcome = Return result w' /\ status result = success)
    /\ txn (world_of outcome) = None.
Proof.
  intros Hid outcome. subst outcome.
  destruct (find_document userId documentId (tables w)) as [|doc rest] eqn:Hfind.
  { rewrite (syncDocument_not_found_cases env userId documentId w Hfind).
    rewrite (bool_decide_eq_true_2 _ Hid).
    eexists. split; [reflexivity|]. simpl. repeat split; try done.
    by intros (r & w' & [=] & _). }
  destruct (fetchDocument env userId (Document.google_file_id doc))
    as [error|driveDoc] eqn:Hfetch.
  { rewrite (syncDocument_fetch_failed _ _ _ _ _ _ _ Hfind Hfetch).
    destruct (access_lost error); (eexists; split; [reflexivity|]);
      simpl; repeat split; try done.
    - by intros (r & w' & [= <- _] & ?).
    - by intros (r & w' & [=] & _). }
  rewrite (syncDocument_fetched _ _ _ _ _ _ _ Hfind Hfetch).
  destruct (reconcile_world env (GoogleDocs.extractFullText driveDoc)
              (GoogleDocs.getCmmsNamedRanges driveDoc) (dbSegments_of documentId w)
              initial_result (set_txn (Some (tables w)) w)) as [S HS].
  destruct (reconcile _ _ _ _ _ _) as [result w2|error w2] eqn:E; simpl in HS; subst w2.
  - destruct (varchar_opt 500 (GoogleDocs.title driveDoc)).
    + eexists. split; [reflexivity|]. simpl. repeat split; try done.
      intros _. exists result. eexists. split; [done|].
      pose proof (reconcile_returns_accepted _ _ _ _ _ _ _ _ E) as Hacc.
      rewrite reconcile_ok in E by done. injection E as <- _.
      by destruct (fold_step_orphans (GoogleDocs.extractFullText driveDoc)
                     (GoogleDocs.getCmmsNamedRanges driveDoc)
                     (dbSegments_of documentId w) initial_result) as (_ & _ & ->).
    + eexists. split; [reflexivity|]. simpl. repeat split; try done.
      by intros (r & w' & [=] & _).
  - eexists. split; [reflexivity|]. simpl. repeat split; try done.
    by intros (r & w' & [=] & _).
Qed.

Lemma syncDocument_logs_once_witness :
  let outcome := syncDocument Sample.one_marker Sample.alice "doc-1" Sample.sync_world in
  "doc-1" ∈ Document.id <$> documents (tables Sample.sync_world)
  /\ exists entry,
       sync_log (tables (world_of outcome)) = sync_log (tables Sample.sync_world) ++ [entry]
       /\ SyncLog.user_id entry = Sample.alice
       /\ SyncLog.document_id entry = Some "doc-1"
       /\ SyncLog.action entry = "single_sync"
       /\ (SyncLog.status entry = "success"
           <-> exists result w', outcome = Return result w' /\ status result = success)
       /\ txn (world_of outcome) = None.
Proof.
  assert (Hid : "doc-1" ∈ Document.id <$> documents (tables Sample.sync_world)) by left.
  split; [exact Hid|].
  exact (syncDocument_logs_once Sample.one_marker Sample.alice "doc-1" Sample.sync_world Hid).
Defined.

(** *** What a successful run counts *)

Section Counts.
Variable fullText : string.
Variable nr : gmap string GoogleDocs.Offsets.

(** The text at the named range differs from the stored text. *)
Definition text_differs (seg : Segment.t) : bool :=
  match nr !! Segment.id seg with
  | Some range => textChanged fullText range seg
  | None => false
  end.

(** The text is the same, the offsets differ. *)
Definition moved_only (seg : Segment.t) : bool :=
  match nr !! Segment.id seg with
  | Some range => posChanged range seg && negb (textChanged fullText range seg)
  | None => false
  end.

(** The named range agrees with the stored row. *)
Definition in_sync (seg : Segment.t) : bool :=
  match nr !! Segment.id seg with
  | Some range => negb (textChanged fullText range seg) && negb (posChanged range seg)
  | None => false
  end.

Definition count (p : Segment.t -> bool) (l : list Segment.t) : Z :=
  Z.of_nat (length (List.filter p l)).

Lemma count_cons p a l : count p (a :: l) = (if p a then 1 else 0) + count p l.
Proof. unfold count. simpl. destruct (p a); simpl; lia. Qed.

Lemma fold_step_counts dbSegments : forall result,
  updated_segments (fold_left (step_result fullText nr) dbSegments result)
  = updated_segments result + count text_differs dbSegments
  /\ repositioned_segments (fold_left (step_result fullText nr) dbSegments result)
     = repositioned_segments result + count moved_only dbSegments.
Proof.
  induction dbSegments as [|seg rest IH]; intros result.
  - unfold count. simpl. lia.
  - cbn [fold_left]. destruct (IH (step_result fullText nr result seg)) as [-> ->].
    rewrite !count_cons. unfold step_result, text_differs, moved_only.
    destruct (nr !! Segment.id seg) as [range|]; [|simpl; lia].
    destruct (textChanged fullText range seg), (posChanged range seg); simpl; lia.
Qed.

Lemma every_segment_is_classified dbSegments :
  count text_differs dbSegments + count moved_only dbSegments
  + count (orphaned nr) dbSegments + count in_sync dbSegments
  = Z.of_nat (length dbSegments).
Proof.
  induction dbSegments as [|seg rest IH]; [done|].
  rewrite !count_cons. cbn [length]. rewrite Nat2Z.inj_succ, <- IH.
  unfold text_differs, moved_only, in_sync, orphaned.
  destruct (nr !! Segment.id seg) as [range|].
  - rewrite bool_decide_eq_false_2 by done.
    destruct (textChanged fullText range seg), (posChanged range seg); simpl; lia.
  - rewrite bool_decide_eq_true_2 by done. simpl. lia.
Qed.

End Counts.

(** X4.  In the result of a successful run, [updated_segments] is the number
    of the document's segments whose text differs from the text at their
    named range, [repositioned_segments] the number of those whose text is
    the same and whose offsets differ, and there is one orphan and one
    conflict for each segment without a named range.  Together with the
    segments that agree with their range these are all the segments of the
    document. *)
Theorem syncDocument_counts env userId documentId w result w' :
  syncDocument env userId documentId w = Return result w' ->
  status result = success ->
  exists doc driveDoc,
    doc ∈ find_document userId documentId (tables w)
    /\ fetchDocument env userId (Document.google_file_id doc) = inr driveDoc
    /\ let fullText := GoogleDocs.extractFullText driveDoc in
       let nr := GoogleDocs.getCmmsNamedRanges driveDoc in
       let dbSegments := dbSegments_of documentId w in
       updated_segments result = count (text_differs fullText nr) dbSegments
       /\ repositioned_segments result = count (moved_only fullText nr) dbSegments
       /\ Z.of_nat (length (orphaned_segments result)) = count (orphaned nr) dbSegments
       /\ length (conflicts result) = length (orphaned_segments result)
       /\ updated_segments result + repositioned_segments result
          + Z.of_nat (length (orphaned_segments result))
          + count (in_sync fullText nr) dbSegments
          = Z.of_nat (length dbSegments).
Proof.
  intros Hrun Hstatus.
  destruct (syncDocument_success_inv _ _ _ _ _ _ Hrun Hstatus)
    as (doc & rest & driveDoc & Hfind & Hfetch & _ & Hres & _).
  exists doc, driveDoc. split; [rewrite Hfind; left|]. split; [done|].
  cbv zeta in *.
  set (fullText := GoogleDocs.extractFullText driveDoc) in *.
  set (nr := GoogleDocs.getCmmsNamedRanges driveDoc) in *.
  set (dbSegments := dbSegments_of documentId w) in *.
  destruct (fold_step_counts fullText nr dbSegments initial_result) as [Hu Hr].
  destruct (fold_step_orphans fullText nr dbSegments initial_result) as (Ho & Hc & _).
  rewrite <- Hres in Hu, Hr, Ho, Hc. simpl in Hu, Hr, Ho, Hc.
  assert (Hlen : Z.of_nat (length (orphaned_segments result)) = count (orphaned nr) dbSegments).
  { rewrite Ho. unfold count. by rewrite length_fmap. }
  split; [lia|]. split; [lia|]. split; [done|].
  split; [by rewrite Ho, Hc, !length_fmap|].
  rewrite Hu, Hr, Hlen. apply every_segment_is_classified.
Qed.

Lemma syncDocument_counts_witness :
  let env := Sample.one_marker in
  let w := Sample.sync_world in
  let outcome := syncDocument env Sample.alice "doc-1" w in
  exists result w',
    outcome = Return result w'
    /\ status result = success
    /\ exists doc driveDoc,
         doc ∈ find_document Sample.alice "doc-1" (tables w)
         /\ fetchDocument env Sample.alice (Document.google_file_id doc) = inr driveDoc
         /\ let fullText := GoogleDocs.extractFullText driveDoc in
            let nr := GoogleDocs.getCmmsNamedRanges driveDoc in
            let dbSegments := dbSegments_of "doc-1" w in
            updated_segments result = count (text_differs fullText nr) dbSegments
            /\ repositioned_segments result = count (moved_only fullText nr) dbSegments
            /\ Z.of_nat (length (orphaned_segments result)) = count (orphaned nr) dbSegments
            /\ length (conflicts result) = length (orphaned_segments result)
            /\ updated_segments result + repositioned_segments result
               + Z.of_nat (length (orphaned_segments result))
               + count (in_sync fullText nr) dbSegments
               = Z.of_nat (length dbSegments).
Proof.
  intros env w outcome.
  destruct outcome as [result w'|e w'] eqn:E; [|vm_compute in E; discriminate].
  assert (Hs : status result = success).
  { vm_compute in E. by injection E as <- _. }
  exists result, w'. split; [done|]. split; [done|].
  exact (syncDocument_counts env Sample.alice "doc-1" w result w' E Hs).
Defined.

(** *** What no run changes *)

(** The columns of a segment that the reconciliation never writes. *)
Definition same_identity (a b : Segment.t) : Prop :=
  Segment.id b = Segment.id a
  /\ Segment.user_id b = Segment.user_id a
  /\ Segment.document_id b = Segment.document_id a
  /\ Segment.category_id b = Segment.category_id a
  /\ Segment.title b = Segment.title a
  /\ Segment.color b = Segment.color a
  /\ Segment.is_primary b = Segment.is_primary a
  /\ Segment.created_at b = Segment.created_at a.

Lemma same_identity_refl a : same_identity a a.
Proof. by repeat split. Qed.

Definition kept (documentId : string) (a b : Segment.t) : Prop :=
  same_identity a b /\ (Segment.document_id a <> documentId -> b = a).

Lemma apply_updates_kept env fullText nr documentId w :
  NoDup (Segment.id <$> segments (tables w)) ->
  Forall2 (kept documentId) (segments (tables w))
    (apply_updates env fullText nr
       (Segment.id <$> List.filter (changed fullText nr) (dbSegments_of documentId w))
       (segments (tables w))).
Proof.
  intros Hkey. apply Forall2_map_r. intros a Ha.
  destruct (bool_decide _) eqn:E; [|split; [apply same_identity_refl | done]].
  apply bool_decide_eq_true in E. split.
  - unfold sync_row. destruct (nr !! Segment.id a); by repeat split.
  - intros Hdoc. exfalso.
    apply list_elem_of_fmap in E as (s & Hid & Hs).
    apply list_elem_of_In, filter_In in Hs as [Hs _].
    apply filter_In in Hs as [Hs Hd]. apply bool_decide_eq_true in Hd.
    apply list_elem_of_In in Hs.
    assert (a = s) by (by eapply (NoDup_fmap_eq Segment.id)).
    by subst s.
Qed.

(** X5.  Whatever its outcome, [syncDocument] neither adds, removes nor
    reorders rows of [segments]; of a row it can change only the offsets, the
    text and [updated_at]; and the segments of the other documents are left
    exactly as they were (ids being the primary key).  Tags, associations and
    colour usage are not written. *)
Theorem syncDocument_keeps_rows env userId documentId w :
  NoDup (Segment.id <$> segments (tables w)) ->
  let w' := world_of (syncDocument env userId documentId w) in
  Forall2 (kept documentId) (segments (tables w)) (segments (tables w'))
  /\ segment_tags (tables w') = segment_tags (tables w)
  /\ segment_associations (tables w') = segment_associations (tables w)
  /\ color_usage (tables w') = color_usage (tables w).
Proof.
  intros Hkey w'. subst w'.
  assert (Hsame : Forall2 (kept documentId) (segments (tables w)) (segments (tables w))).
  { apply Forall2_same. intros a. split; [apply same_identity_refl | done]. }
  destruct (find_document userId documentId (tables w)) as [|doc rest] eqn:Hfind.
  { rewrite (syncDocument_not_found_cases env userId documentId w Hfind).
    by destruct (bool_decide _). }
  destruct (fetchDocument env userId (Document.google_file_id doc))
    as [error|driveDoc] eqn:Hfetch.
  { rewrite (syncDocument_fetch_failed _ _ _ _ _ _ _ Hfind Hfetch).
    by destruct (access_lost error). }
  rewrite (syncDocument_fetched _ _ _ _ _ _ _ Hfind Hfetch).
  destruct (reconcile _ _ _ _ _ _) as [result w2|error w2] eqn:E; [|done].
  destruct (varchar_opt 500 (GoogleDocs.title driveDoc)); [|done].
  pose proof (reconcile_returns_accepted _ _ _ _ _ _ _ _ E) as Hacc.
  rewrite reconcile_ok in E by done. injection E as _ <-. simpl.
  split; [|done]. by apply apply_updates_kept.
Qed.

Lemma syncDocument_keeps_rows_witness :
  let w := Sample.sync_world in
  let w' := world_of (syncDocument Sample.one_marker Sample.alice "doc-1" w) in
  NoDup (Segment.id <$> segments (tables w))
  /\ Forall2 (kept "doc-1") (segments (tables w)) (segments (tables w'))
  /\ segment_tags (tables w') = segment_tags (tables w)
  /\ segment_associations (tables w') = segment_associations (tables w)
  /\ color_usage (tables w') = color_usage (tables w).
Proof.
  assert (Hkey : NoDup (Segment.id <$> segments (tables Sample.sync_world))).
  { apply bool_decide_eq_true with (H := decide _). vm_compute. reflexivity. }
  split; [exact Hkey|].
  exact (syncDocument_keeps_rows Sample.one_marker Sample.alice "doc-1"
           Sample.sync_world Hkey).
Defined.

End SyncOutcomes.

(** ** More on the sync of the watched folder ([services/sync.ts]) *)

Module FullSyncProofs.
Import Sync SyncProofs.

Ltac mrun :=
  unfold bind, ret, throw, try_catch, query, execute, check, await in *.










(** *** What the counters of a full sync add up to *)






End FullSyncProofs.

(* ===================================================================== *)
(** ** Reading and deleting documents ([services/documents.ts]) *)
(* ===================================================================== *)

Module DocumentStore.
Import Documents.

(** A row of [getDocumentById]: the columns of the document and [segments],
    the [json_agg] of its segment rows [FILTER (WHERE s.id IS NOT NULL)],
    which is NULL when the document has no segment. *)
Record DocumentWithSegments := {
  document : Document.t;
  document_segments : option (list Segment.t)
}.

Definition segments_json (t : Tables) (d : Document.t) : option (list Segment.t) :=
  match List.filter (fun s => bool_decide (Segment.document_id s = Document.id d))
          (segments t) with
  | [] => None
  | rows => Some rows
  end.

(** [WHERE d.id = $1 AND d.user_id = $2 AND d.is_active = true] *)
Definition visible (userId id : string) (d : Document.t) : bool :=
  bool_decide (Document.id d = id) && bool_decide (Document.user_id d = userId)
  && Document.is_active d.

Definition getDocumentById (userId id : string) : M (option DocumentWithSegments) :=
  do rows <- query (fun t =>
      List.map (fun d => {| document := d; document_segments := segments_json t d |})
        (List.filter (visible userId id) (documents t))) ;
  match rows with
  | [] => ret None
  | row :: _ => ret (Some row)
  end.

(** [WHERE id = $1 AND user_id = $2] *)
Definition targeted (userId id : string) (d : Document.t) : bool :=
  bool_decide (Document.id d = id) && bool_decide (Document.user_id d = userId).

(** [DELETE FROM documents] for the rows [gone], with the referential actions
    of the schema: [segments.document_id] ON DELETE CASCADE, both columns of
    [segment_tags] and of [segment_associations] ON DELETE CASCADE, and
    [sync_log.document_id] ON DELETE SET NULL. *)
Definition delete_documents (gone : Document.t -> bool) (t : Tables) : Tables :=
  let docIds := Document.id <$> List.filter gone (documents t) in
  let dropped := fun s => bool_decide (Segment.document_id s ∈ docIds) in
  let segIds := Segment.id <$> List.filter dropped (segments t) in
  {| users := users t; user_preferences := user_preferences t;
     categories := categories t; tags := tags t;
     documents := List.filter (fun d => negb (gone d)) (documents t);
     segments := List.filter (fun s => negb (dropped s)) (segments t);
     segment_tags :=
       List.filter (fun st => negb (bool_decide (st.1 ∈ segIds))) (segment_tags t);
     segment_associations :=
       List.filter (fun a =>
           negb (bool_decide (Association.source_segment_id a ∈ segIds))
           && negb (bool_decide (Association.target_segment_id a ∈ segIds)))
         (segment_associations t);
     color_usage := color_usage t;
     sync_log :=
       List.map (fun l =>
           match SyncLog.document_id l with
           | Some d =>
               if bool_decide (d ∈ docIds)
               then SyncLog.mk (SyncLog.user_id l) None (SyncLog.action l)
                      (SyncLog.status l) (SyncLog.details l)
               else l
           | None => l
           end)
         (sync_log t) |}.

(** [res.rowCount && res.rowCount > 0]: the number 0, or [true]. *)
Definition rowCount_and_positive (rowCount : nat) : Z + bool :=
  match rowCount with
  | O => inl 0
  | S _ => inr (0 <? Z.of_nat rowCount)
  end.

Definition deleteDocument (env : Env) (userId id : string) (hardDelete : bool)
    : M (Z + bool) :=
  if hardDelete then
    do rowCount <- query (fun t => length (List.filter (targeted userId id) (documents t))) ;
    execute (delete_documents (targeted userId id)) ;;
    ret (rowCount_and_positive rowCount)
  else
    do rowCount <- query (fun t => length (List.filter (targeted userId id) (documents t))) ;
    execute (with_documents (List.map (fun d =>
      if targeted userId id d
      then Document.set_is_active false (Some (now env)) d else d))) ;;
    ret (rowCount_and_positive rowCount).

(** The request that registers the file of [doc], without a copy. *)
Definition register_file (doc : Document.t) : CreateDocumentDTO :=
  {| google_file_id := Document.google_file_id doc; copy_to_folder := None |}.

(** [if (!success) throw new AppError('Document not found', 404)] of the
    route: [0] is falsy. *)
Definition success (r : Z + bool) : bool :=
  match r with
  | inl z => negb (z =? 0)
  | inr b => b
  end.

End DocumentStore.

Module DocumentStoreProofs.
Import Documents DocumentStore DocumentsProofs.

Ltac mrun :=
  unfold bind, ret, throw, try_catch, query, execute, check, await in *.

Lemma set_tables_same w : set_tables (tables w) w = w.
Proof. by destruct w. Qed.

Lemma with_documents_same f t : f (documents t) = documents t -> with_documents f t = t.
Proof. intros H. destruct t. unfold with_documents. simpl in *. by rewrite H. Qed.

Lemma no_target_delete_documents userId id t :
  List.filter (targeted userId id) (documents t) = [] ->
  delete_documents (targeted userId id) t = t.
Proof.
  intros H. unfold delete_documents. rewrite H.
  pose proof (proj1 (filter_b_nil_iff _ _) H) as Hall.
  change (Document.id <$> []) with (@nil string).
  assert (Hseg : List.filter (fun s => bool_decide (Segment.document_id s ∈ @nil string))
                   (segments t) = []).
  { apply filter_b_nil_iff. intros x _. apply bool_decide_eq_false_2, not_elem_of_nil. }
  rewrite Hseg. change (Segment.id <$> []) with (@nil string).
  destruct t as [us ups cs ts ds ss sts sas cus sls];
    cbn [users user_preferences categories tags documents segments
         segment_tags segment_associations color_usage sync_log] in *.
  f_equal.
  - apply filter_b_fixed. intros x Hx. by rewrite (Hall x Hx).
  - apply filter_b_fixed. intros x _. apply negb_true_iff, bool_decide_eq_false_2.
    apply not_elem_of_nil.
  - apply filter_b_fixed. intros x _. apply negb_true_iff, bool_decide_eq_false_2.
    apply not_elem_of_nil.
  - apply filter_b_fixed. intros x _.
    by rewrite !bool_decide_eq_false_2 by apply not_elem_of_nil.
  - apply map_fixed. intros l _. destruct (SyncLog.document_id l); [|done].
    by rewrite bool_decide_eq_false_2 by apply not_elem_of_nil.
Qed.

(** X8.  [deleteDocument] for an id that is not a document of this user (an
    unknown id, or a document of someone else) changes nothing, soft or
    hard, and returns the falsy [0], which the route answers with 404. *)
Theorem deleteDocument_of_another_user env userId id hardDelete w :
  (forall d, d ∈ documents (tables w) -> Document.id d = id ->
             Document.user_id d <> userId) ->
  deleteDocument env userId id hardDelete w = Return (inl 0) w
  /\ success (inl 0) = false.
Proof.
  intros Hown. split; [|done].
  assert (Hnone : List.filter (targeted userId id) (documents (tables w)) = []).
  { apply filter_b_nil_iff. intros d Hd. unfold targeted.
    destruct (decide (Document.id d = id)) as [E|E].
    - rewrite (bool_decide_eq_true_2 _ E). simpl. apply bool_decide_eq_false_2.
      by apply Hown.
    - by rewrite (bool_decide_eq_false_2 _ E). }
  unfold deleteDocument. destruct hardDelete; mrun; rewrite Hnone; simpl.
  - by rewrite no_target_delete_documents, set_tables_same.
  - rewrite with_documents_same, set_tables_same; [done|].
    apply map_fixed. intros d Hd.
    by rewrite (proj1 (filter_b_nil_iff _ _) Hnone d Hd).
Qed.

Lemma deleteDocument_of_another_user_witness :
  let w := Sample.sync_world in
  (forall d, d ∈ documents (tables w) -> Document.id d = "doc-1" ->
             Document.user_id d <> "user-bob")
  /\ deleteDocument Sample.one_marker "user-bob" "doc-1" true w = Return (inl 0) w
  /\ success (inl 0) = false.
Proof.
  assert (H : forall d, d ∈ documents (tables Sample.sync_world) ->
                        Document.id d = "doc-1" -> Document.user_id d <> "user-bob").
  { intros d Hd _. apply list_elem_of_singleton in Hd. by subst d. }
  split; [exact H|].
  exact (deleteDocument_of_another_user Sample.one_marker "user-bob" "doc-1" true
           Sample.sync_world H).
Defined.

Lemma rowCount_positive {A} (l : list A) x :
  x ∈ l -> rowCount_and_positive (length l) = inr true.
Proof. destruct l; [by intros ?%elem_of_nil | done]. Qed.



(** The sample library with a tag on its first segment. *)
Definition tagged_world : World :=
  set_tables (with_segment_tags (fun _ => [("seg-1", "tag-A")]) (tables Sample.sync_world))
    Sample.sync_world.


(** *** Soft delete *)

Definition soft_deleted (env : Env) (userId id : string) (docs : list Document.t)
    : list Document.t :=
  List.map (fun d =>
    if targeted userId id d
    then Document.set_is_active false (Some (now env)) d else d) docs.

Lemma soft_deleted_idem env userId id docs :
  soft_deleted env userId id (soft_deleted env userId id docs)
  = soft_deleted env userId id docs.
Proof.
  unfold soft_deleted. rewrite List.map_map. apply List.map_ext. intros d.
  destruct (targeted userId id d) eqn:E; [|by rewrite E].
  unfold targeted in *. simpl. by rewrite E.
Qed.

Lemma soft_deleted_hidden env userId id docs :
  List.filter (visible userId id) (soft_deleted env userId id docs) = [].
Proof.
  apply filter_b_nil_iff. intros d Hd.
  apply list_elem_of_In, in_map_iff in Hd as (d0 & <- & _).
  unfold visible. destruct (targeted userId id d0) eqn:E.
  - simpl. apply andb_false_r.
  - unfold targeted in E. by rewrite E.
Qed.

Lemma soft_deleted_targets env userId id docs :
  List.filter (targeted userId id) (soft_deleted env userId id docs)
  = soft_deleted env userId id (List.filter (targeted userId id) docs).
Proof.
  unfold soft_deleted. apply filter_b_map. intros d.
  by destruct (targeted userId id d) eqn:E.
Qed.

(** How a row of [documents] differs after a soft delete of document [id]
    of the user at time [now]: the row of the document is inactive and
    updated at [now], with its other columns as they were; every other row
    is as it was. *)
Definition hidden_at (now : Z) (userId id : string) (d d' : Document.t) : Prop :=
  (Document.id d = id /\ Document.user_id d = userId ->
   d' = Document.mk (Document.id d) (Document.user_id d) (Document.google_file_id d)
          (Document.title d) (Document.google_folder_id d) (Document.mime_type d)
          (Document.last_synced_at d) (Document.last_modified_at d) false now)
  /\ (~ (Document.id d = id /\ Document.user_id d = userId) -> d' = d).

Lemma soft_deleted_hidden_at env userId id docs :
  Forall2 (hidden_at (now env) userId id) docs (soft_deleted env userId id docs).
Proof.
  apply Forall2_map_r. intros d _. unfold hidden_at, targeted.
  destruct (decide (Document.id d = id)) as [Hi|Hi];
    [destruct (decide (Document.user_id d = userId)) as [Hu|Hu]|].
  - rewrite !bool_decide_eq_true_2 by done. simpl. split; [done|]. intros H.
    by destruct H.
  - rewrite (bool_decide_eq_false_2 (Document.user_id d = userId)) by done.
    rewrite andb_false_r. split; [|done]. by intros [_ ?].
  - rewrite (bool_decide_eq_false_2 (Document.id d = id)) by done. simpl.
    split; [|done]. by intros [? _].
Qed.

(** Two soft deletes in a row leave what the later one alone leaves. *)
Lemma soft_deleted_twice env env' userId id docs :
  soft_deleted env' userId id (soft_deleted env userId id docs)
  = soft_deleted env' userId id docs.
Proof.
  unfold soft_deleted. rewrite List.map_map. apply List.map_ext. intros d.
  destruct (targeted userId id d) eqn:E; [|by rewrite E].
  unfold targeted in *. simpl. by rewrite E.
Qed.

(** X10.  A soft delete of a document of the user returns [true] and only
    marks the document: its row becomes inactive with a new [updated_at],
    [getDocumentById] finds nothing afterwards, and the other documents, the
    segments, their tags and associations are all still stored as they
    were.  Deleting the same document again, at any later time, succeeds
    again and keeps it hidden; it writes [updated_at] of the row once more
    and changes nothing else, so the tables are those that one soft delete at
    the later time leaves. *)
Theorem deleteDocument_soft_hides env env' userId id w doc :
  doc ∈ documents (tables w) ->
  Document.id doc = id -> Document.user_id doc = userId ->
  exists w1 w2,
    deleteDocument env userId id false w = Return (inr true) w1
    /\ getDocumentById userId id w1 = Return None w1
    /\ Forall2 (hidden_at (now env) userId id) (documents (tables w)) (documents (tables w1))
    /\ segments (tables w1) = segments (tables w)
    /\ segment_tags (tables w1) = segment_tags (tables w)
    /\ segment_associations (tables w1) = segment_associations (tables w)
    /\ deleteDocument env' userId id false w1 = Return (inr true) w2
    /\ getDocumentById userId id w2 = Return None w2
    /\ Forall2 (hidden_at (now env') userId id) (documents (tables w1))
         (documents (tables w2))
    /\ w2 = world_of (deleteDocument env' userId id false w)
    /\ (now env' = now env -> w2 = w1).
Proof.
  intros Hdoc Hid Huser.
  assert (Ht : targeted userId id doc = true).
  { unfold targeted. by rewrite !bool_decide_eq_true_2. }
  assert (Hin : doc ∈ List.filter (targeted userId id) (documents (tables w)))
    by (by apply elem_of_filter_b).
  assert (Hrun : forall e, deleteDocument e userId id false w
            = Return (inr true)
                (set_tables (with_documents (soft_deleted e userId id) (tables w)) w)).
  { intros e. unfold deleteDocument. mrun. by rewrite (rowCount_positive _ _ Hin). }
  set (w1 := set_tables (with_documents (soft_deleted env userId id) (tables w)) w).
  assert (Hagain : deleteDocument env' userId id false w1
            = Return (inr true)
                (set_tables (with_documents (soft_deleted env' userId id) (tables w)) w)).
  { unfold deleteDocument. mrun. simpl.
    rewrite soft_deleted_targets.
    assert (Hin' : Document.set_is_active false (Some (now env)) doc
                   ∈ soft_deleted env userId id
                       (List.filter (targeted userId id) (documents (tables w)))).
    { apply list_elem_of_In, in_map_iff. exists doc. rewrite Ht.
      split; [done | by apply list_elem_of_In]. }
    rewrite (rowCount_positive _ _ Hin'). f_equal.
    unfold set_tables, with_documents. simpl. do 2 f_equal.
    apply soft_deleted_twice. }
  exists w1, (set_tables (with_documents (soft_deleted env' userId id) (tables w)) w).
  split; [apply Hrun|].
  split.
  { unfold getDocumentById. mrun. simpl. by rewrite soft_deleted_hidden. }
  split; [apply soft_deleted_hidden_at|].
  split; [done|]. split; [done|]. split; [done|].
  split; [exact Hagain|].
  split.
  { unfold getDocumentById. mrun. simpl. by rewrite soft_deleted_hidden. }
  split.
  { simpl. rewrite <- (soft_deleted_twice env env').
    apply soft_deleted_hidden_at. }
  split; [by rewrite Hrun|].
  intros Hnow. unfold w1, soft_deleted. by rewrite Hnow.
Qed.

(** The sample environment at another time. *)
Definition at_time (t : Z) : Env :=
  {| now := t;
     docs_documents_get := docs_documents_get Sample.one_marker;
     drive_files_list := drive_files_list Sample.one_marker;
     drive_files_get := drive_files_get Sample.one_marker;
     drive_files_copy := drive_files_copy Sample.one_marker;
     drive_files_update := drive_files_update Sample.one_marker |}.

Lemma deleteDocument_soft_hides_witness :
  let hidden t := Document.mk "doc-1" Sample.alice "gfile-1" (Some "Draft") None None
                    None None false t in
  Sample.doc1 ∈ documents (tables tagged_world)
  /\ exists w1 w2,
       deleteDocument Sample.one_marker Sample.alice "doc-1" false tagged_world
       = Return (inr true) w1
       /\ documents (tables w1) = [hidden 100]
       /\ getDocumentById Sample.alice "doc-1" w1 = Return None w1
       /\ segments (tables w1) = segments (tables tagged_world)
       /\ deleteDocument (at_time 250) Sample.alice "doc-1" false w1
          = Return (inr true) w2
       /\ documents (tables w2) = [hidden 250]
       /\ getDocumentById Sample.alice "doc-1" w2 = Return None w2.
Proof.
  intros hidden.
  assert (Hdoc : Sample.doc1 ∈ documents (tables tagged_world)) by left.
  split; [exact Hdoc|].
  destruct (deleteDocument_soft_hides Sample.one_marker (at_time 250)
              Sample.alice "doc-1" tagged_world Sample.doc1 Hdoc eq_refl eq_refl)
    as (w1 & w2 & Hrun & Hget & _ & Hsegs & _ & _ & Hagain & Hget2 & _ & Hw2 & _).
  exists w1, w2.
  assert (Hw1 : w1 = world_of (deleteDocument Sample.one_marker Sample.alice "doc-1" false
                                 tagged_world)) by (by rewrite Hrun).
  split; [exact Hrun|]. split; [by rewrite Hw1|]. split; [exact Hget|].
  split; [exact Hsegs|]. split; [exact Hagain|]. split; [by rewrite Hw2|]. exact Hget2.
Defined.

(** *** Registering a soft-deleted document again *)

Lemma getDocumentById_unique userId id w d :
  NoDup (Document.id <$> documents (tables w)) ->
  d ∈ documents (tables w) ->
  Document.id d = id -> Document.user_id d = userId -> Document.is_active d = true ->
  getDocumentById userId id w
  = Return (Some {| document := d; document_segments := segments_json (tables w) d |}) w.
Proof.
  intros Hkey Hd Hid Hu Ha. unfold getDocumentById. mrun.
  rewrite (filter_b_unique _ _ d); [done | by eapply NoDup_fmap_1 | done |].
  intros y Hy. split.
  - intros Hv. unfold visible in Hv.
    apply andb_true_iff in Hv as [Hv _]. apply andb_true_iff in Hv as [Hv _].
    apply bool_decide_eq_true in Hv.
    apply (NoDup_fmap_eq Document.id _ y d Hkey Hy Hd). by rewrite Hv.
  - intros ->. unfold visible. by rewrite Ha, !bool_decide_eq_true_2.
Qed.

Definition restored (env : Env) (id : string) (docs : list Document.t) : list Document.t :=
  List.map (fun d =>
    if bool_decide (Document.id d = id)
    then Document.set_is_active true (Some (now env)) d else d) docs.

(** X11.  Registering the file of a soft-deleted document again brings the
    document back under its old id: afterwards [getDocumentById] returns it,
    active, with the segments it had, and the table differs from the one
    before the delete only in [updated_at] and [is_active] of this row.  The
    row that [registerDocument] itself returns is the one read before the
    update and still says [is_active = false]. *)
Theorem registerDocument_restores_soft_deleted env user w doc :
  NoDup (Document.id <$> documents (tables w)) ->
  existing user (register_file doc) w = [doc] ->
  let id := Document.id doc in
  let w1 := world_of (deleteDocument env (User.id user) id false w) in
  exists w2,
    registerDocument env user (register_file doc) w1
    = Return (Document.set_is_active false (Some (now env)) doc) w2
    /\ documents (tables w2) = restored env id (documents (tables w))
    /\ getDocumentById (User.id user) id w2
       = Return (Some {| document := Document.set_is_active true (Some (now env)) doc;
                         document_segments := segments_json (tables w) doc |}) w2.
Proof.
  intros Hkey Hex id w1.
  assert (Hdoc : doc ∈ existing user (register_file doc) w) by (rewrite Hex; left).
  apply elem_of_filter_b in Hdoc as [Hdoc Hown]. unfold owned_file in Hown.
  apply andb_true_iff in Hown as [Hu _]. apply bool_decide_eq_true in Hu.
  assert (Ht : forall d, d ∈ documents (tables w) ->
                 targeted (User.id user) id d = bool_decide (Document.id d = id)).
  { intros d Hd. unfold targeted. destruct (decide (Document.id d = id)) as [E|E].
    - rewrite (bool_decide_eq_true_2 _ E). simpl. apply bool_decide_eq_true_2.
      by rewrite (NoDup_fmap_eq Document.id _ d doc Hkey Hd Hdoc E).
    - by rewrite (bool_decide_eq_false_2 _ E). }
  assert (Hw1 : documents (tables w1)
                = soft_deleted env (User.id user) id (documents (tables w))) by done.
  assert (Hex1 : existing user (register_file doc) w1
                 = [Document.set_is_active false (Some (now env)) doc]).
  { unfold existing. rewrite Hw1. unfold soft_deleted.
    rewrite filter_b_map by (intros d; by destruct (targeted _ _ d)).
    fold (existing user (register_file doc) w). rewrite Hex. simpl.
    by rewrite (Ht doc Hdoc), bool_decide_eq_true_2. }
  assert (Hdocs : restored env id (documents (tables w1))
                  = restored env id (documents (tables w))).
  { rewrite Hw1. unfold restored, soft_deleted. rewrite List.map_map.
    apply map_ext_in. intros d Hd. apply list_elem_of_In in Hd. rewrite (Ht d Hd).
    destruct (bool_decide (Document.id d = id)) eqn:E; simpl; by rewrite E. }
  set (w2 := set_tables (with_documents (restored env id) (tables w1)) w1).
  assert (Hw2 : documents (tables w2) = restored env id (documents (tables w))).
  { change (documents (tables w2)) with (restored env id (documents (tables w1))).
    exact Hdocs. }
  exists w2. split; [|split; [exact Hw2|]].
  - unfold registerDocument, update_is_active. mrun.
    fold (existing user (register_file doc) w1). rewrite Hex1. reflexivity.
  - rewrite (getDocumentById_unique (User.id user) id _
               (Document.set_is_active true (Some (now env)) doc)); try done.
    + rewrite Hw2. unfold restored. rewrite <- list_fmap_compose.
      erewrite list_fmap_ext; [exact Hkey|]. intros _ d _. simpl.
      by destruct (bool_decide _).
    + rewrite Hw2. apply list_elem_of_In, in_map_iff. exists doc.
      rewrite bool_decide_eq_true_2 by done. split; [done | by apply list_elem_of_In].
Qed.

Lemma registerDocument_restores_soft_deleted_witness :
  let env := Sample.one_marker in
  let w := Sample.sync_world in
  let w1 := world_of (deleteDocument env Sample.alice "doc-1" false w) in
  NoDup (Document.id <$> documents (tables w))
  /\ existing Sample.alice_user (register_file Sample.doc1) w = [Sample.doc1]
  /\ exists w2,
       registerDocument env Sample.alice_user (register_file Sample.doc1) w1
       = Return (Document.set_is_active false (Some 100) Sample.doc1) w2
       /\ documents (tables w2) = restored env "doc-1" (documents (tables w))
       /\ getDocumentById Sample.alice "doc-1" w2
          = Return (Some {| document := Document.set_is_active true (Some 100) Sample.doc1;
                            document_segments := segments_json (tables w) Sample.doc1 |}) w2.
Proof.
  assert (Hkey : NoDup (Document.id <$> documents (tables Sample.sync_world))).
  { apply bool_decide_eq_true with (H := decide _). vm_compute. reflexivity. }
  split; [exact Hkey|]. split; [reflexivity|].
  exact (registerDocument_restores_soft_deleted Sample.one_marker Sample.alice_user
           Sample.sync_world Sample.doc1 Hkey eq_refl).
Defined.

End DocumentStoreProofs.

(** ** More on the registration of documents ([services/documents.ts]) *)

Module RegistrationProofs.
Import Documents DocumentStore DocumentsProofs.

Ltac mrun :=
  unfold bind, ret, throw, try_catch, query, execute, check, await in *.

(** [meta.parents && meta.parents.length > 0 ? meta.parents[0] : null] *)
Definition parent_of (meta : Drive.Metadata) : option string :=
  match Drive.parents meta with
  | Some (p :: _) => Some p
  | _ => None
  end.

(** What a successful INSERT has checked and written. *)
Lemma insert_document_returns env userId fileId meta parentId w row w' :
  insert_document env userId fileId meta parentId w = Return row w' ->
  documents (tables w') = documents (tables w) ++ [row]
  /\ List.filter (owned_file userId fileId) (documents (tables w)) = []
  /\ (Document.id row ∉ Document.id <$> documents (tables w))
  /\ Document.user_id row = userId
  /\ Document.google_file_id row = fileId
  /\ Document.is_active row = true.
Proof.
  unfold insert_document. unfold bind, query, check, gen_random_uuid, execute, ret, throw.
  destruct (negb (existsb _ _)) eqn:Hu; simpl; [|discriminate].
  destruct (varchar 255 fileId && _ && _ && _); simpl; [|discriminate].
  destruct (negb (bool_decide _)) eqn:Hpk; simpl; [|discriminate].
  intros [= <- <-]. simpl. repeat split.
  - apply filter_b_nil_iff. intros d Hd. apply negb_true_iff in Hu.
    apply not_true_iff_false. intros Ho.
    apply not_true_iff_false in Hu. apply Hu, existsb_exists.
    exists d. split; [by apply list_elem_of_In | done].
  - by apply negb_true_iff, bool_decide_eq_false in Hpk.
Qed.

Lemma insert_document_throws env userId fileId meta parentId w e w' :
  insert_document env userId fileId meta parentId w = Throw e w' ->
  tables w' = tables w.
Proof.
  unfold insert_document. unfold bind, query, check, gen_random_uuid, execute, ret, throw.
  destruct (negb (existsb _ _)); simpl; [|by intros [= _ <-]].
  destruct (varchar 255 fileId && _ && _ && _); simpl; [|by intros [= _ <-]].
  destruct (negb (bool_decide _)); simpl; [discriminate|].
  by intros [= _ <-].
Qed.

(** The outcomes of [registerDocument] for a file that is not registered. *)
Lemma register_new_cases env user dto w :
  existing user dto w = [] ->
  (exists e w', registerDocument env user dto w = Throw e w' /\ tables w' = tables w)
  \/ exists fileId meta newDoc w1,
       copy_if_requested env user dto w = Return fileId w
       /\ insert_document env (User.id user) fileId meta (parent_of meta) w
          = Return newDoc w1
       /\ registerDocument env user dto w
          = match updateFileProperties env (User.id user) fileId (Document.id newDoc) with
            | inl e => Throw e w1
            | inr _ => Return newDoc w1
            end.
Proof.
  intros Hex.
  assert (Hreg : registerDocument env user dto w = register_new env user dto w).
  { unfold registerDocument, bind, query. fold (existing user dto w). by rewrite Hex. }
  remember (registerDocument env user dto w) as outcome eqn:Ho. clear Ho. subst outcome.
  remember (register_new env user dto w) as outcome eqn:Ho.
  unfold register_new, bind, await in Ho.
  pose proof (copy_if_requested_world env user dto w) as Hcopy.
  destruct (copy_if_requested env user dto w) as [fileId wa|e wa] eqn:Ecopy;
    simpl in Hcopy; subst wa; [|left; by exists e, w].
  destruct (getFileMetadata env (User.id user) fileId) as [e|meta];
    [left; by exists e, w|].
  unfold ret at 1 in Ho. cbv beta in Ho. fold (parent_of meta) in Ho.
  destruct (insert_document env (User.id user) fileId meta (parent_of meta) w)
    as [newDoc w1|e w1] eqn:Eins.
  - right. exists fileId, meta, newDoc, w1. split; [done|]. split; [done|].
    rewrite Ho. unfold ret, throw.
    by destruct (updateFileProperties _ _ _ _) as [e|[]].
  - left. exists e, w1. split; [done|]. by eapply insert_document_throws.
Qed.

(** The file id that [copy_if_requested] returns without a copy. *)
Lemma copy_if_requested_id env user dto w fileId :
  copy_if_requested env user dto w = Return fileId w ->
  default false (copy_to_folder dto) = false -> fileId = google_file_id dto.
Proof.
  unfold copy_if_requested. intros H E. rewrite E in H. unfold ret in H. congruence.
Qed.

(** X12.  Registration is not atomic.  When [registerDocument] throws for a
    file that is not registered, either no table has changed, or the new row
    has been inserted and the error is that of the update of the file's Drive
    properties; in that case the row stays, and registering its file again
    returns this row and changes nothing, whatever Drive answers then. *)
Theorem registerDocument_keeps_row_when_properties_fail env user dto w e w' :
  existing user dto w = [] ->
  registerDocument env user dto w = Throw e w' ->
  tables w' = tables w
  \/ exists newDoc,
       documents (tables w') = documents (tables w) ++ [newDoc]
       /\ updateFileProperties env (User.id user) (Document.google_file_id newDoc)
            (Document.id newDoc) = inl e
       /\ forall env',
            registerDocument env' user (register_file newDoc) w' = Return newDoc w'.
Proof.
  intros Hex Hrun.
  destruct (register_new_cases env user dto w Hex)
    as [(e0 & w0 & Hthrow & Ht) | (fileId & meta & newDoc & w1 & Hcopy & Hins & Hreg)].
  { rewrite Hthrow in Hrun. injection Hrun as <- <-. by left. }
  rewrite Hreg in Hrun.
  destruct (updateFileProperties env (User.id user) fileId (Document.id newDoc))
    as [e1|[]] eqn:Hup; [|discriminate].
  injection Hrun as <- <-. right. exists newDoc.
  apply insert_document_returns in Hins as (Hdocs & Hnone & _ & Hu & Hf & Ha).
  split; [done|]. split; [by rewrite Hf|].
  intros env'. unfold registerDocument. mrun.
  fold (existing user (register_file newDoc) w1). unfold existing.
  rewrite Hdocs, List.filter_app. simpl. rewrite Hf, Hnone. simpl.
  unfold owned_file. rewrite Hu, Hf, !bool_decide_eq_true_2 by done. simpl.
  by rewrite Ha.
Qed.

(** A Drive whose property update fails. *)
Definition read_only_drive : Env :=
  {| now := now Sample.one_marker;
     docs_documents_get := docs_documents_get Sample.one_marker;
     drive_files_list := drive_files_list Sample.one_marker;
     drive_files_get := drive_files_get Sample.one_marker;
     drive_files_copy := drive_files_copy Sample.one_marker;
     drive_files_update := fun _ _ => Some Sample.backend_error |}.

Lemma registerDocument_keeps_row_when_properties_fail_witness :
  let w := Sample.registry_world in
  let dto := Sample.register "gfile-2" in
  let outcome := registerDocument read_only_drive Sample.alice_user dto w in
  existing Sample.alice_user dto w = []
  /\ exists w',
       outcome = Throw Sample.backend_error w'
       /\ (tables w' = tables w
           \/ exists newDoc,
                documents (tables w') = documents (tables w) ++ [newDoc]
                /\ updateFileProperties read_only_drive (User.id Sample.alice_user)
                     (Document.google_file_id newDoc) (Document.id newDoc)
                   = inl Sample.backend_error
                /\ forall env',
                     registerDocument env' Sample.alice_user (register_file newDoc) w'
                     = Return newDoc w').
Proof.
  intros w dto outcome. split; [reflexivity|].
  assert (Hrun : outcome = Throw Sample.backend_error (world_of outcome))
    by (vm_compute; reflexivity).
  exists (world_of outcome). split; [exact Hrun|].
  exact (registerDocument_keeps_row_when_properties_fail read_only_drive
           Sample.alice_user dto w Sample.backend_error (world_of outcome) eq_refl Hrun).
Defined.

(** X13.  The idempotency check looks for the file id of the request, but a
    registration with [copy_to_folder] stores the id of the copy.  So when
    the copy got an id of its own, the request is still not registered
    afterwards: the same request, if it succeeds again, inserts a second
    document (for a second copy). *)
Theorem registerDocument_with_copy_registers_again env user dto w newDoc w1 :
  existing user dto w = [] ->
  registerDocument env user dto w = Return newDoc w1 ->
  Document.google_file_id newDoc <> google_file_id dto ->
  default false (copy_to_folder dto) = true
  /\ existing user dto w1 = []
  /\ forall env' doc2 w2,
       registerDocument env' user dto w1 = Return doc2 w2 ->
       documents (tables w2) = documents (tables w) ++ [newDoc; doc2]
       /\ Document.id doc2 <> Document.id newDoc.
Proof.
  intros Hex Hrun Hid.
  destruct (register_new_cases env user dto w Hex)
    as [(e0 & w0 & Hthrow & _) | (fileId & meta & row & w' & Hcopy & Hins & Hreg)];
    [congruence|].
  rewrite Hreg in Hrun.
  destruct (updateFileProperties env (User.id user) fileId (Document.id row))
    as [e1|[]]; [discriminate|].
  injection Hrun as -> ->.
  apply insert_document_returns in Hins as (Hdocs & _ & _ & Hu & Hf & _).
  assert (Hex1 : existing user dto w1 = []).
  { unfold existing. rewrite Hdocs, List.filter_app. fold (existing user dto w).
    rewrite Hex. simpl. unfold owned_file.
    by rewrite (bool_decide_eq_false_2 (Document.google_file_id newDoc = _)),
      andb_false_r. }
  split; [|split; [exact Hex1|]].
  - destruct (default false (copy_to_folder dto)) eqn:E; [done|].
    exfalso. apply Hid. rewrite Hf. by eapply copy_if_requested_id.
  - intros env' doc2 w2 Hrun2.
    destruct (register_new_cases env' user dto w1 Hex1)
      as [(e0 & w0 & Hthrow & _) | (fileId2 & meta2 & row & w' & _ & Hins & Hreg2)];
      [congruence|].
    rewrite Hreg2 in Hrun2.
    destruct (updateFileProperties env' (User.id user) fileId2 (Document.id row))
      as [e1|[]]; [discriminate|].
    injection Hrun2 as -> ->.
    apply insert_document_returns in Hins as (Hdocs2 & _ & Hnew & _).
    split; [by rewrite Hdocs2, Hdocs, <- app_assoc|].
    intros E. apply Hnew. rewrite E, Hdocs, fmap_app. apply elem_of_app. right. left.
Qed.

(** The request registers a copy of the file. *)
Definition register_copy (fileId : string) : CreateDocumentDTO :=
  {| google_file_id := fileId; copy_to_folder := Some true |}.

Lemma registerDocument_with_copy_registers_again_witness :
  let env := Sample.one_marker in
  let w := Sample.registry_world in
  let dto := register_copy "gfile-2" in
  let outcome := registerDocument env Sample.alice_user dto w in
  existing Sample.alice_user dto w = []
  /\ exists newDoc w1,
       outcome = Return newDoc w1
       /\ Document.google_file_id newDoc = "gfile-copy"
       /\ existing Sample.alice_user dto w1 = []
       /\ forall env' doc2 w2,
            registerDocument env' Sample.alice_user dto w1 = Return doc2 w2 ->
            documents (tables w2) = documents (tables w) ++ [newDoc; doc2]
            /\ Document.id doc2 <> Document.id newDoc.
Proof.
  intros env w dto outcome. split; [reflexivity|].
  destruct outcome as [newDoc w1|e w1] eqn:E; [|vm_compute in E; discriminate].
  assert (Hf : Document.google_file_id newDoc = "gfile-copy").
  { vm_compute in E. by injection E as <- _. }
  assert (Hne : Document.google_file_id newDoc <> google_file_id dto).
  { rewrite Hf. discriminate. }
  exists newDoc, w1. split; [reflexivity|]. split; [exact Hf|].
  exact (proj2 (registerDocument_with_copy_registers_again env Sample.alice_user dto w
                  newDoc w1 eq_refl E Hne)).
Defined.

End RegistrationProofs.

(** ** More on colours ([services/color.ts]) *)

Module ColorUsageProofs.
Import Color ColorProofs.

Lemma first_least_le {A} (key : A -> Z) l m :
  first_least key l m -> forall x, x ∈ l -> key m <= key x.
Proof.
  intros (pre & post & -> & Hpre & Hpost) x Hx.
  apply elem_of_app in Hx as [Hx|Hx]; [specialize (Hpre x Hx); lia|].
  apply elem_of_cons in Hx as [->|Hx]; [lia | by apply Hpost].
Qed.

(** The colour is that of a segment of the user in the document. *)
Definition used_in (userId documentId : string) (t : Tables) (c : string) : Prop :=
  exists s, s ∈ segments t /\ Segment.document_id s = documentId
            /\ Segment.user_id s = userId /\ Segment.color s = c.

(** X14.  [assignColor] writes no table.  It returns nothing exactly when
    the palette of the user is empty; otherwise it returns a colour of the
    palette.  While some palette colour is not yet the colour of a segment
    of the user in the document, the colour returned is not either, and no
    such colour has an earlier last use in [color_usage] (a colour without a
    row counting as time 0).  When every palette colour is used in the
    document, the colour returned is the first one of the palette among
    those of least usage count in [color_usage] (0 without a row). *)
Theorem assignColor_picks_from_palette userId documentId w :
  exists r w',
    assignColor userId documentId w = Return r w'
    /\ tables w' = tables w
    /\ (r = None <-> palette_of userId w = [])
    /\ forall c, r = Some c ->
         let palette := palette_of userId w in
         let used := used_in userId documentId (tables w) in
         c ∈ palette
         /\ (forall c', c' ∈ palette -> ~ used c' ->
               ~ used c
               /\ forall c'', c'' ∈ palette -> ~ used c'' ->
                    last_use userId c (tables w) <= last_use userId c'' (tables w))
         /\ ((forall c', c' ∈ palette -> used c') ->
             first_least (fun x => use_count userId x (tables w)) palette c
             /\ forall c', c' ∈ palette ->
                  use_count userId c (tables w) <= use_count userId c' (tables w)).
Proof.
  destruct (assignColor_selected userId documentId w) as (w' & Hrun & Ht & _ & _).
  exists (selected userId documentId w), w'. split; [done|]. split; [done|].
  assert (Hav : forall c, c ∈ available_in userId documentId w
                  <-> c ∈ palette_of userId w
                      /\ ~ used_in userId documentId (tables w) c).
  { intros c. unfold available_in, used_in.
    by rewrite elem_of_filter_b, negb_true_iff, bool_decide_eq_false,
      elem_of_doc_colors. }
  split.
  { unfold selected. destruct (available_in userId documentId w) as [|a rest] eqn:Eav.
    - split; [apply first_min_None | by intros ->].
    - assert (Ha : a ∈ palette_of userId w) by (apply Hav; left).
      split; [by intros H%first_min_None|].
      intros H. rewrite H in Ha. by apply elem_of_nil in Ha. }
  intros c Hc. cbv zeta.
  pose proof (selected_spec _ _ _ _ Hc) as [Hlru Hleast].
  destruct (available_in userId documentId w) as [|a rest] eqn:Eav.
  - specialize (Hleast eq_refl).
    assert (Hin : c ∈ palette_of userId w).
    { destruct Hleast as (pre & post & -> & _). apply elem_of_app. right. left. }
    split; [done|]. split.
    + intros c' Hp Hu. exfalso.
      assert (H : c' ∈ @nil string) by (by apply Hav). by apply elem_of_nil in H.
    + intros _. split; [done|]. intros c' Hc'.
      by apply (first_least_le _ _ _ Hleast).
  - assert (Hne : a :: rest <> []) by done. specialize (Hlru Hne).
    assert (Hin : c ∈ a :: rest).
    { destruct Hlru as (pre & post & -> & _). apply elem_of_app. right. left. }
    apply Hav in Hin as [Hp Hu]. split; [done|]. split.
    + intros _ _ _. split; [done|]. intros c'' Hp'' Hu''.
      apply (first_least_le _ _ _ Hlru). by apply Hav.
    + intros Hall. exfalso. assert (Ha : a ∈ a :: rest) by left.
      apply Hav in Ha as [Ha1 Ha2]. by apply Ha2, Hall.
Qed.

Lemma assignColor_picks_from_palette_witness :
  let w := Sample.palette_world in
  assignColor Sample.alice "doc-2" w = Return (Some "#BBBBBB") w
  /\ palette_of Sample.alice w = ["#AAAAAA"; "#BBBBBB"]
  /\ last_use Sample.alice "#AAAAAA" (tables w) = 40
  /\ last_use Sample.alice "#BBBBBB" (tables w) = 30
  /\ ~ used_in Sample.alice "doc-2" (tables w) "#BBBBBB"
  /\ forall c, c ∈ palette_of Sample.alice w ->
               ~ used_in Sample.alice "doc-2" (tables w) c ->
               last_use Sample.alice "#BBBBBB" (tables w)
               <= last_use Sample.alice c (tables w).
Proof.
  intros w.
  assert (Hc : assignColor Sample.alice "doc-2" w = Return (Some "#BBBBBB") w)
    by (vm_compute; reflexivity).
  assert (Hfree : ~ used_in Sample.alice "doc-2" (tables w) "#AAAAAA").
  { intros (s & Hs & Hd & _). apply list_elem_of_singleton in Hs. by subst s. }
  split; [exact Hc|]. split; [reflexivity|]. split; [reflexivity|].
  split; [reflexivity|].
  destruct (assignColor_picks_from_palette Sample.alice "doc-2" w)
    as (r & w' & Hrun & _ & _ & Hsome).
  rewrite Hc in Hrun. injection Hrun as <- _.
  destruct (Hsome "#BBBBBB" eq_refl) as (_ & Hlru & _).
  exact (Hlru "#AAAAAA" ltac:(left) Hfree).
Defined.

Lemma insert_Permutation {A} (cmp : A -> A -> Z) x l :
  Permutation (Js.insert cmp x l) (x :: l).
Proof.
  induction l as [|y l IH]; simpl; [done|].
  destruct (cmp x y <=? 0); [done|]. rewrite IH. apply perm_swap.
Qed.

Lemma sort_Permutation {A} (cmp : A -> A -> Z) l : Permutation (Js.sort cmp l) l.
Proof.
  induction l as [|x l IH]; simpl; [done|]. by rewrite insert_Permutation, IH.
Qed.

(** X15.  [assignColor] may reorder the shared [DEFAULT_PALETTE] array (it
    sorts it in place), but never adds, drops or repeats a colour in it; and
    the array is left exactly as it is whenever the user has a palette of
    their own or some palette colour is still unused in the document. *)
Theorem assignColor_permutes_DEFAULT_PALETTE userId documentId w :
  let w' := world_of (assignColor userId documentId w) in
  Permutation (DEFAULT_PALETTE w') (DEFAULT_PALETTE w)
  /\ ((user_palette (pref_rows userId (tables w)) (DEFAULT_PALETTE w)).2 = false ->
      w' = w)
  /\ (forall c, c ∈ palette_of userId w ->
                c ∉ doc_colors userId documentId (tables w) -> w' = w).
Proof.
  cbv zeta. unfold assignColor, palette_of. unfold bind, query, ret.
  destruct (user_palette (pref_rows userId (tables w)) (DEFAULT_PALETTE w))
    as [palette shared] eqn:Epal. simpl.
  destruct (List.filter _ palette) as [|a available] eqn:Hav.
  - destruct shared; simpl.
    + split; [|split; [done|]].
      * assert (palette = DEFAULT_PALETTE w) as ->.
        { revert Epal. unfold user_palette.
          destruct (pref_rows userId (tables w)) as [|row ?]; [congruence|].
          destruct (UserPreferences.color_palette row); congruence. }
        apply sort_Permutation.
      * intros c Hc Hu. exfalso.
        assert (H : c ∈ @nil string).
        { rewrite <- Hav. apply elem_of_filter_b. split; [done|].
          by apply negb_true_iff, bool_decide_eq_false_2. }
        by apply elem_of_nil in H.
    + done.
  - done.
Qed.

Lemma assignColor_permutes_DEFAULT_PALETTE_witness :
  let w := Sample.sync_world in
  let w' := world_of (assignColor Sample.alice "doc-1" w) in
  Permutation (DEFAULT_PALETTE w') (DEFAULT_PALETTE w)
  /\ ("#81C784" ∈ palette_of Sample.alice w ->
      "#81C784" ∉ doc_colors Sample.alice "doc-1" (tables w) -> w' = w).
Proof.
  intros w w'.
  destruct (assignColor_permutes_DEFAULT_PALETTE Sample.alice "doc-1" w)
    as (Hperm & _ & Hfree).
  split; [exact Hperm | exact (Hfree "#81C784")].
Defined.

(** *** Recording a use *)

(** The row of [userId] and [color] after the conflict update. *)
Definition bump (env : Env) (userId color : string) (r : ColorUsage.t) : ColorUsage.t :=
  if bool_decide (ColorUsage.user_id r = userId) && bool_decide (ColorUsage.color r = color)
  then ColorUsage.mk userId color (now env) (ColorUsage.usage_count r + 1)
  else r.





(** X16.  For a colour of at most 7 characters (what the column holds), a
    call of [recordColorUsage] that returns leaves in [color_usage] the row
    of this user and colour with the time of the call and a usage count one
    higher than before (1 when the colour had no row); no row of another
    colour or of another user is touched, and no segment.  A call that
    throws changes nothing; it throws only when the count of the row would
    leave the INTEGER range. *)
Theorem recordColorUsage_counts_one env userId color w :
  (String.length color <= 7)%nat ->
  match recordColorUsage env userId color w with
  | Return _ w' =>
      usage_row userId color (tables w')
      = Some (ColorUsage.mk userId color (now env)
                (use_count userId color (tables w) + 1))
      /\ use_count userId color (tables w') = use_count userId color (tables w) + 1
      /\ last_use userId color (tables w') = now env
      /\ (usage_row userId color (tables w) = None ->
          use_count userId color (tables w') = 1)
      /\ (forall u c, u <> userId \/ c <> color ->
            usage_row u c (tables w') = usage_row u c (tables w))
      /\ segments (tables w') = segments (tables w)
  | Throw e w' =>
      w' = w
      /\ e = pg_error "integer out of range"
      /\ exists r, r ∈ color_usage (tables w)
                   /\ ColorUsage.user_id r = userId /\ ColorUsage.color r = color
                   /\ int4 (ColorUsage.usage_count r + 1) = false
  end.
Proof.
  intros Hfit.
  destruct (recordColorUsage env userId color w) as [[] w'|e w'] eqn:E.
  - pose proof (recordColorUsage_rows _ _ _ _ _ E) as [Hrow Hrest].
    pose proof (recordColorUsage_inv _ _ _ _ _ E) as (Hsegs & _ & _).
    split; [done|]. unfold use_count at 1, last_use. rewrite Hrow. simpl.
    split; [done|]. split; [done|]. split; [|done].
    intros Hnone. unfold use_count at 1. rewrite Hrow. simpl.
    unfold use_count. by rewrite Hnone.
  - revert E. unfold recordColorUsage. unfold bind, check, query, execute, ret, throw.
    assert (Hlen : varchar 7 color = true) by (by apply Nat.leb_le).
    rewrite Hlen. simpl.
    destruct (forallb _ (color_usage (tables w))) eqn:Hall; simpl; [discriminate|].
    intros [= <- <-]. split; [done|]. split; [done|].
    apply forallb_false_elem in Hall as (r & Hr & Hf). exists r. split; [done|].
    apply orb_false_iff in Hf as [Hm Hi]. apply negb_false_iff, andb_true_iff in Hm.
    destruct Hm as [Hu Hc]. by apply bool_decide_eq_true in Hu, Hc.
Qed.

Lemma recordColorUsage_counts_one_witness :
  let env := Sample.one_marker in
  let w := Sample.palette_world in
  let w' := world_of (recordColorUsage env Sample.alice "#AAAAAA" w) in
  (String.length "#AAAAAA" <= 7)%nat
  /\ recordColorUsage env Sample.alice "#AAAAAA" w = Return tt w'
  /\ use_count Sample.alice "#AAAAAA" (tables w) = 7
  /\ color_usage (tables w')
     = [ ColorUsage.mk Sample.alice "#AAAAAA" 100 8;
         ColorUsage.mk Sample.alice "#BBBBBB" 30 5 ]
  /\ use_count Sample.alice "#AAAAAA" (tables w') = 8
  /\ last_use Sample.alice "#AAAAAA" (tables w') = 100.
Proof.
  intros env w w'.
  assert (Hfit : (String.length "#AAAAAA" <= 7)%nat) by (simpl; lia).
  assert (Hrun : recordColorUsage env Sample.alice "#AAAAAA" w = Return tt w')
    by reflexivity.
  split; [exact Hfit|]. split; [exact Hrun|]. split; [reflexivity|].
  split; [reflexivity|].
  pose proof (recordColorUsage_counts_one env Sample.alice "#AAAAAA" w Hfit) as H.
  rewrite Hrun in H. destruct H as (_ & Hc & Ht & _).
  split; [rewrite Hc; reflexivity | exact Ht].
Defined.

End ColorUsageProofs.

(* ===================================================================== *)
(** ** Updating and deleting segments ([services/segments.ts]) *)
(* ===================================================================== *)

Module SegmentStore.
Import Segments.

(** [WHERE id = $1 AND user_id = $2] *)
Definition owned (userId id : string) (s : Segment.t) : bool :=
  bool_decide (Segment.id s = id) && bool_decide (Segment.user_id s = userId).

(** *** [updateTags] *)

(** [DELETE FROM segment_tags WHERE segment_id = $1] *)
Definition delete_segment_tags (id : string) : M unit :=
  execute (with_segment_tags
    (List.filter (fun st => negb (bool_decide (st.1 = id))))).

Definition updateTags_try (userId id : string) (tagIds : list string)
    : M (option Segment.t) :=
  BEGIN ;;
  (* Verify ownership *)
  do rowCount <- query (fun t => length (List.filter (owned userId id) (segments t))) ;
  (if (rowCount =? 0)%nat then throw (AppError "Segment not found" 404) else ret tt) ;;
  (* Delete existing *)
  delete_segment_tags id ;;
  (* Insert new *)
  match tagIds with
  | _ :: _ => insert_segment_tags id tagIds
  | [] => ret tt
  end ;;
  COMMIT ;;
  getSegmentById userId id.

Definition updateTags (userId id : string) (tagIds : list string)
    : M (option Segment.t) :=
  Sync.pool_connect ;;
  try_catch (updateTags_try userId id tagIds)
    (fun e => ROLLBACK ;; throw e).

(** *** [deleteSegment] *)

(** [DELETE FROM segments] for the rows [gone]; both columns of
    [segment_tags] and of [segment_associations] are ON DELETE CASCADE. *)
Definition delete_segments (gone : Segment.t -> bool) (t : Tables) : Tables :=
  let segIds := Segment.id <$> List.filter gone (segments t) in
  with_segment_associations
    (List.filter (fun a =>
       negb (bool_decide (Association.source_segment_id a ∈ segIds))
       && negb (bool_decide (Association.target_segment_id a ∈ segIds))))
    (with_segment_tags
       (List.filter (fun st => negb (bool_decide (st.1 ∈ segIds))))
       (with_segments (List.filter (fun s => negb (gone s))) t)).

(** [SELECT target_segment_id FROM segment_associations
     WHERE source_segment_id = $1] *)
Definition targets_of (id : string) (t : Tables) : list string :=
  Association.target_segment_id <$>
    List.filter (fun a => bool_decide (Association.source_segment_id a = id))
      (segment_associations t).

(** A row of [segments] with another value of [is_primary]; every UPDATE of
    the table sets [updated_at] (trigger [segments_text_search_update]). *)
Definition set_is_primary (b : bool) (now : Z) (s : Segment.t) : Segment.t :=
  Segment.mk (Segment.id s) (Segment.user_id s) (Segment.document_id s)
    (Segment.category_id s) (Segment.start_offset s) (Segment.end_offset s)
    (Segment.text_content s) (Segment.title s) (Segment.color s) b
    (Segment.created_at s) now.

(** [FROM segment_associations sa WHERE sa.source_segment_id = $1
     AND sa.target_segment_id = s.id AND s.user_id = $2] *)
Definition direct_target (userId id : string) (t : Tables) (s : Segment.t) : bool :=
  bool_decide (Segment.id s ∈ targets_of id t)
  && bool_decide (Segment.user_id s = userId).

Definition deleteSegment (env : Env) (userId id : string) (deleteAssociations : bool)
    : M (Z + bool) :=
  (if deleteAssociations then
     do targetIds <- query (targets_of id) ;
     match targetIds with
     | _ :: _ =>
         (* Delete children segments *)
         execute (delete_segments (fun s =>
           bool_decide (Segment.id s ∈ targetIds)
           && bool_decide (Segment.user_id s = userId)))
     | [] => ret tt
     end
   else
     (* Just unlink: Set targets to is_primary = true *)
     execute (fun t => with_segments (List.map (fun s =>
       if direct_target userId id t s then set_is_primary true (now env) s else s)) t)) ;;
  (* Finally delete the segment itself *)
  do rowCount <- query (fun t => length (List.filter (owned userId id) (segments t))) ;
  execute (delete_segments (owned userId id)) ;;
  ret (DocumentStore.rowCount_and_positive rowCount).

End SegmentStore.

Module SegmentStoreProofs.
Import Segments SegmentStore.

Ltac mrun :=
  unfold bind, ret, throw, try_catch, query, execute, check, await,
    BEGIN, COMMIT, ROLLBACK, Sync.pool_connect in *.

(** The tag ids linked to a segment, in table order. *)
Definition tags_of (id : string) (t : Tables) : list string :=
  snd <$> List.filter (fun st => bool_decide (st.1 = id)) (segment_tags t).

(** The links of the other segments. *)
Definition other_links (id : string) (t : Tables) : list (string * string) :=
  List.filter (fun st => negb (bool_decide (st.1 = id))) (segment_tags t).

Lemma insert_segment_tags_cases segmentId tagIds w :
  insert_segment_tags segmentId tagIds w
  = if bool_decide (segmentId ∈ Segment.id <$> segments (tables w))
       && forallb (fun tag => bool_decide (tag ∈ tags (tables w))) tagIds
    then if bool_decide (NoDup tagIds)
            && forallb (fun tag =>
                 negb (bool_decide ((segmentId, tag) ∈ segment_tags (tables w)))) tagIds
         then Return tt
                (set_tables (with_segment_tags
                   (fun l => l ++ ((fun tag => (segmentId, tag)) <$> tagIds)) (tables w)) w)
         else Throw (pg_error "duplicate key value violates unique constraint") w
    else Throw (pg_error
           "insert or update on table segment_tags violates foreign key constraint") w.
Proof.
  unfold insert_segment_tags. mrun.
  destruct (bool_decide _ && forallb _ tagIds); simpl; [|done].
  by destruct (bool_decide (NoDup tagIds) && forallb _ tagIds).
Qed.

(** X17.  [updateTags] is all or nothing: whenever it throws (the segment is
    not the user's, a tag id does not exist or is given twice), the tables
    are exactly as before, the old tags included, and no transaction is left
    open. *)
Theorem updateTags_is_atomic userId id tagIds w e w' :
  updateTags userId id tagIds w = Throw e w' ->
  tables w' = tables w /\ txn w' = None.
Proof.
  unfold updateTags, updateTags_try, delete_segment_tags, getSegmentById. mrun. simpl.
  destruct (length _ =? 0)%nat; simpl; [by intros [= _ <-]|].
  destruct tagIds as [|tag more]; simpl; [discriminate|].
  rewrite insert_segment_tags_cases. simpl.
  destruct (bool_decide _ && _); simpl.
  - destruct (bool_decide _ && _); simpl; [discriminate | by intros [= _ <-]].
  - by intros [= _ <-].
Qed.

Lemma updateTags_is_atomic_witness :
  let w := DocumentStoreProofs.tagged_world in
  exists e w',
    updateTags Sample.alice "seg-1" ["tag-B"; "tag-B"] w = Throw e w'
    /\ tables w' = tables w /\ txn w' = None.
Proof.
  intros w.
  destruct (updateTags Sample.alice "seg-1" ["tag-B"; "tag-B"] w) as [r w'|e w'] eqn:E;
    [vm_compute in E; discriminate|].
  exists e, w'. split; [reflexivity|].
  exact (updateTags_is_atomic Sample.alice "seg-1" ["tag-B"; "tag-B"] w e w' E).
Defined.

Lemma filter_b_idem {A} (p : A -> bool) (l : list A) :
  List.filter p (List.filter p l) = List.filter p l.
Proof.
  apply filter_b_fixed. intros x Hx. by apply elem_of_filter_b in Hx as [_ Hx].
Qed.

Lemma filter_b_none {A} (p q : A -> bool) (l : list A) :
  (forall x, p x = true -> q x = false) -> List.filter q (List.filter p l) = [].
Proof.
  intros H. apply filter_b_nil_iff. intros x Hx.
  apply elem_of_filter_b in Hx as [_ Hx]. by apply H.
Qed.

Lemma replaced_links (id : string) (tagIds : list string) (links : list (string * string)) :
  let new := List.filter (fun st => negb (bool_decide (st.1 = id))) links
             ++ ((fun tag => (id, tag)) <$> tagIds) in
  snd <$> List.filter (fun st => bool_decide (st.1 = id)) new = tagIds
  /\ List.filter (fun st => negb (bool_decide (st.1 = id))) new
     = List.filter (fun st => negb (bool_decide (st.1 = id))) links.
Proof.
  cbv zeta.
  set (new := (fun tag => (id, tag)) <$> tagIds).
  assert (H1 : List.filter (fun st : string * string => bool_decide (st.1 = id)) new = new).
  { apply filter_b_fixed. intros x Hx. apply list_elem_of_fmap in Hx as (tag & -> & _).
    by apply bool_decide_eq_true_2. }
  assert (H2 : List.filter (fun st : string * string => negb (bool_decide (st.1 = id))) new
               = []).
  { apply filter_b_nil_iff. intros x Hx. apply list_elem_of_fmap in Hx as (tag & -> & _).
    simpl. by rewrite bool_decide_eq_true_2. }
  rewrite !List.filter_app, H1, H2, filter_b_idem, app_nil_r.
  rewrite (filter_b_none _ (fun st => bool_decide (st.1 = id)))
    by (by intros x ->%negb_true_iff).
  split; [|done]. simpl. unfold new. rewrite <- list_fmap_compose.
  by rewrite <- (list_fmap_id tagIds) at 2.
Qed.

(** X18.  When the segment is the user's, the tag ids are distinct and all
    exist, [updateTags] returns the segment and the tags of the segment are
    afterwards exactly the ids given, in the order given; the links of all
    other segments and the segments themselves are unchanged. *)
Theorem updateTags_replaces_the_tags userId id tagIds w s :
  s ∈ segments (tables w) -> owned userId id s = true ->
  NoDup tagIds ->
  (forall tag, tag ∈ tagIds -> tag ∈ tags (tables w)) ->
  exists seg w',
    updateTags userId id tagIds w = Return (Some seg) w'
    /\ seg ∈ segments (tables w) /\ owned userId id seg = true
    /\ tags_of id (tables w') = tagIds
    /\ other_links id (tables w') = other_links id (tables w)
    /\ segments (tables w') = segments (tables w)
    /\ txn w' = None.
Proof.
  intros Hs Hown Hnd Htags.
  assert (Hin : s ∈ List.filter (owned userId id) (segments (tables w)))
    by (by apply elem_of_filter_b).
  destruct (List.filter (owned userId id) (segments (tables w))) as [|seg rest] eqn:Ef;
    [by apply elem_of_nil in Hin|].
  assert (Hseg : seg ∈ segments (tables w) /\ owned userId id seg = true).
  { apply elem_of_filter_b. rewrite Ef. left. }
  assert (Hid : id ∈ Segment.id <$> segments (tables w)).
  { apply list_elem_of_fmap. exists s. split; [|done].
    unfold owned in Hown. apply andb_true_iff in Hown as [Hown _].
    by apply bool_decide_eq_true in Hown. }
  destruct (replaced_links id tagIds (segment_tags (tables w))) as [Hnew1 Hnew2].
  exists seg.
  unfold updateTags, updateTags_try, delete_segment_tags, getSegmentById. mrun. simpl.
  fold (owned userId id). rewrite Ef. simpl.
  destruct tagIds as [|tag more].
  { simpl. rewrite Ef. eexists. split; [reflexivity|].
    rewrite app_nil_r in Hnew1, Hnew2. destruct Hseg. by repeat split. }
  rewrite insert_segment_tags_cases. simpl.
  rewrite (bool_decide_eq_true_2 _ Hid).
  assert (Hall : forallb (fun tag0 => bool_decide (tag0 ∈ tags (tables w))) (tag :: more)
                 = true).
  { apply forallb_forall. intros x Hx. apply bool_decide_eq_true_2, Htags.
    by apply list_elem_of_In. }
  simpl in Hall. rewrite Hall. simpl.
  rewrite (bool_decide_eq_true_2 _ Hnd).
  assert (Hfresh : forallb (fun tag0 =>
             negb (bool_decide ((id, tag0) ∈ List.filter
                     (fun st : string * string => negb (bool_decide (st.1 = id)))
                     (segment_tags (tables w))))) (tag :: more) = true).
  { apply forallb_forall. intros x _. apply negb_true_iff, bool_decide_eq_false_2.
    intros Hx. apply elem_of_filter_b in Hx as [_ Hx]. simpl in Hx.
    by rewrite bool_decide_eq_true_2 in Hx. }
  simpl in Hfresh. rewrite Hfresh. simpl.
  fold (owned userId id). rewrite Ef. simpl.
  eexists. split; [reflexivity|].
  destruct Hseg. split; [done|]. split; [done|].
  split; [exact Hnew1|]. split; [exact Hnew2|]. done.
Qed.

Lemma updateTags_replaces_the_tags_witness :
  let w := DocumentStoreProofs.tagged_world in
  Sample.hello ∈ segments (tables w)
  /\ NoDup ["tag-B"; "tag-A"]
  /\ exists seg w',
       updateTags Sample.alice "seg-1" ["tag-B"; "tag-A"] w = Return (Some seg) w'
       /\ tags_of "seg-1" (tables w') = ["tag-B"; "tag-A"]
       /\ segments (tables w') = segments (tables w).
Proof.
  intros w.
  assert (Hs : Sample.hello ∈ segments (tables w)) by left.
  assert (Hnd : NoDup ["tag-B"; "tag-A"]).
  { apply bool_decide_eq_true with (H := decide _). vm_compute. reflexivity. }
  assert (Ht : forall tag, tag ∈ ["tag-B"; "tag-A"] -> tag ∈ tags (tables w)).
  { intros tag Htag. apply elem_of_cons in Htag as [->|Htag]; [right; left|].
    apply list_elem_of_singleton in Htag as ->. left. }
  split; [exact Hs|]. split; [exact Hnd|].
  destruct (updateTags_replaces_the_tags Sample.alice "seg-1" ["tag-B"; "tag-A"] w
              Sample.hello Hs eq_refl Hnd Ht)
    as (seg & w' & Hrun & _ & _ & Htags & _ & Hsegs & _).
  exists seg, w'. split; [exact Hrun|]. split; [exact Htags | exact Hsegs].
Defined.

(** *** [deleteSegment] *)

(** [t'] is [t] without the segments [gone], their tag links and the
    associations that start or end at one of them; nothing else differs. *)
Definition removes (gone : Segment.t -> bool) (t t' : Tables) : Prop :=
  let dead := fun segId =>
    exists x, x ∈ segments t /\ gone x = true /\ Segment.id x = segId in
  (forall y, y ∈ segments t' <-> y ∈ segments t /\ gone y = false)
  /\ (forall p, p ∈ segment_tags t' <-> p ∈ segment_tags t /\ ~ dead p.1)
  /\ (forall a, a ∈ segment_associations t' <->
                a ∈ segment_associations t
                /\ ~ dead (Association.source_segment_id a)
                /\ ~ dead (Association.target_segment_id a))
  /\ documents t' = documents t.

Lemma dead_ids (gone : Segment.t -> bool) (t : Tables) segId :
  segId ∈ Segment.id <$> List.filter gone (segments t)
  <-> exists x, x ∈ segments t /\ gone x = true /\ Segment.id x = segId.
Proof.
  rewrite list_elem_of_fmap. split.
  - intros (x & -> & Hx). apply elem_of_filter_b in Hx as [Hx Hg]. by exists x.
  - intros (x & Hx & Hg & <-). exists x. split; [done|]. by apply elem_of_filter_b.
Qed.

Lemma delete_segments_removes gone t : removes gone t (delete_segments gone t).
Proof.
  unfold removes, delete_segments. simpl. split; [|split; [|split]].
  - intros y. by rewrite elem_of_filter_b, negb_true_iff.
  - intros p. by rewrite elem_of_filter_b, negb_true_iff, bool_decide_eq_false, dead_ids.
  - intros a. by rewrite elem_of_filter_b, andb_true_iff, !negb_true_iff,
      !bool_decide_eq_false, !dead_ids.
  - done.
Qed.





(** A source with one derived segment. *)
Definition linked_world : World :=
  set_tables
    (with_segment_associations (fun _ => [Association.mk "seg-1" "seg-2" "derivative"])
       (tables DocumentStoreProofs.tagged_world))
    DocumentStoreProofs.tagged_world.


(** The row of a direct target after the unlink. *)
Definition promoted (env : Env) (userId id : string) (t : Tables) (x : Segment.t)
    : Segment.t :=
  if direct_target userId id t x then set_is_primary true (now env) x else x.

Lemma promoted_owned env userId id t x i :
  owned userId i (promoted env userId id t x) = owned userId i x.
Proof. unfold promoted. by destruct (direct_target userId id t x). Qed.

Lemma promoted_id env userId id t x :
  Segment.id (promoted env userId id t x) = Segment.id x.
Proof. unfold promoted. by destruct (direct_target userId id t x). Qed.

(** X20.  Without [delete_associations], [deleteSegment] of a segment of the
    user returns [true] and removes the segment, its tag links and every
    association that starts or ends at it.  All other segments stay; those
    that were its direct targets (and are the user's) are now primary. *)
Theorem deleteSegment_unlinks env userId id w s :
  s ∈ segments (tables w) -> owned userId id s = true ->
  exists w',
    deleteSegment env userId id false w = Return (inr true) w'
    /\ let t := tables w in
       let t' := tables w' in
       (forall y, y ∈ segments t' <->
                  exists x, x ∈ segments t /\ owned userId id x = false
                            /\ y = promoted env userId id t x)
       /\ (forall x, x ∈ segments t -> direct_target userId id t x = true ->
                     Segment.is_primary (promoted env userId id t x) = true)
       /\ (forall p, p ∈ segment_tags t' <-> p ∈ segment_tags t /\ p.1 <> id)
       /\ (forall a, a ∈ segment_associations t' <->
                     a ∈ segment_associations t
                     /\ Association.source_segment_id a <> id
                     /\ Association.target_segment_id a <> id).
Proof.
  intros Hs Hown.
  set (t1 := with_segments (List.map (promoted env userId id (tables w))) (tables w)).
  assert (Hin1 : forall y, y ∈ segments t1 <->
                   exists x, x ∈ segments (tables w)
                             /\ y = promoted env userId id (tables w) x).
  { intros y. unfold t1. simpl. rewrite list_elem_of_In, in_map_iff.
    split; intros (x & H1 & H2); exists x; rewrite ?list_elem_of_In in *; by split. }
  assert (Hs1 : promoted env userId id (tables w) s
                ∈ List.filter (owned userId id) (segments t1)).
  { apply elem_of_filter_b. split; [apply Hin1; by exists s|].
    by rewrite promoted_owned. }
  assert (Hid : Segment.id s = id).
  { unfold owned in Hown. apply andb_true_iff in Hown as [Hid _].
    by apply bool_decide_eq_true in Hid. }
  assert (Hdead : forall segId,
            (exists x, x ∈ segments t1 /\ owned userId id x = true
                       /\ Segment.id x = segId) <-> segId = id).
  { intros segId. split.
    - intros (x & _ & Hx & <-). unfold owned in Hx.
      apply andb_true_iff in Hx as [Hx _]. by apply bool_decide_eq_true in Hx.
    - intros ->. exists (promoted env userId id (tables w) s).
      split; [apply Hin1; by exists s|]. by rewrite promoted_owned, promoted_id. }
  destruct (delete_segments_removes (owned userId id) t1) as (Hsegs & Htags & Hassoc & _).
  exists (set_tables (delete_segments (owned userId id) t1) w). split.
  { unfold deleteSegment. mrun. cbn [tables set_tables].
    fold (promoted env userId id (tables w)). fold t1.
    by rewrite (DocumentStoreProofs.rowCount_positive _ _ Hs1). }
  cbv zeta. cbn [tables set_tables]. split; [|split; [|split]].
  - intros y. rewrite Hsegs, Hin1. split.
    + intros [(x & Hx & ->) Hy]. exists x. by rewrite promoted_owned in Hy.
    + intros (x & Hx & Ho & ->). split; [by exists x | by rewrite promoted_owned].
  - intros x _ Hx. unfold promoted. by rewrite Hx.
  - intros p. by rewrite Htags, Hdead.
  - intros a. by rewrite Hassoc, !Hdead.
Qed.

Lemma deleteSegment_unlinks_witness :
  let w := linked_world in
  Sample.hello ∈ segments (tables w)
  /\ exists w',
       deleteSegment Sample.one_marker Sample.alice "seg-1" false w = Return (inr true) w'
       /\ segments (tables w') = [set_is_primary true 100 Sample.world_seg]
       /\ (forall a, a ∈ segment_associations (tables w') <->
                     a ∈ segment_associations (tables w)
                     /\ Association.source_segment_id a <> "seg-1"
                     /\ Association.target_segment_id a <> "seg-1").
Proof.
  intros w.
  assert (Hs : Sample.hello ∈ segments (tables w)) by left.
  split; [exact Hs|].
  assert (E : deleteSegment Sample.one_marker Sample.alice "seg-1" false w
              = Return (inr true)
                  (world_of (deleteSegment Sample.one_marker Sample.alice "seg-1" false w)))
    by (vm_compute; reflexivity).
  destruct (deleteSegment_unlinks Sample.one_marker Sample.alice "seg-1" w
              Sample.hello Hs eq_refl) as (w' & Hrun & _ & _ & _ & Hassoc).
  exists w'. split; [exact Hrun|]. split; [|exact Hassoc].
  rewrite E in Hrun. injection Hrun as <-. vm_compute. reflexivity.
Defined.

End SegmentStoreProofs.

(** *** [updateSegment] and [propagateColorChange] *)

Module SegmentUpdate.
Import Segments SegmentStore.








End SegmentUpdate.

Module SegmentUpdateProofs.
Import Segments SegmentStore SegmentUpdate Color ColorProofs.

Ltac mrun :=
  unfold bind, ret, throw, try_catch, query, execute, check, await in *.





End SegmentUpdateProofs.

(* ===================================================================== *)
(** ** Linking tags to segments ([services/tags.ts]) *)
(* ===================================================================== *)

Module TagLinks.
Import Segments.

(** The tag ids linked to a segment, in table order. *)
Definition linked (segmentId : string) (t : Tables) : list string :=
  snd <$> List.filter (fun st => bool_decide (st.1 = segmentId)) (segment_tags t).

(** The tags of the VALUES list that [ON CONFLICT (segment_id, tag_id)
    DO NOTHING] lets in: those not linked yet and not given earlier in the
    list. *)
Fixpoint fresh_tags (linked tagIds : list string) : list string :=
  match tagIds with
  | [] => []
  | tag :: rest =>
      if bool_decide (tag ∈ linked) then fresh_tags linked rest
      else tag :: fresh_tags (tag :: linked) rest
  end.

(** [INSERT INTO segment_tags (segment_id, tag_id) VALUES ...
     ON CONFLICT (segment_id, tag_id) DO NOTHING]; the rows that are inserted
    must reference an existing segment and existing tags. *)
Definition insert_links (segmentId : string) (tagIds : list string) : M unit :=
  do t <- query (fun t => t) ;
  let fresh := fresh_tags (linked segmentId t) tagIds in
  check (match fresh with
         | [] => true
         | _ :: _ =>
             bool_decide (segmentId ∈ Segment.id <$> segments t)
             && forallb (fun tag => bool_decide (tag ∈ tags t)) fresh
         end)
    (pg_error "insert or update on table segment_tags violates foreign key constraint") ;;
  execute (with_segment_tags (fun l => l ++ ((fun tag => (segmentId, tag)) <$> fresh))).

Definition addTagsToSegment (userId segmentId : string) (tagIds : list string)
    : M (option Segment.t) :=
  (* Verify access via segment *)
  do segment <- getSegmentById userId segmentId ;
  match segment with
  | None => throw (AppError "Segment not found" 404)
  | Some segment =>
      match tagIds with
      | [] => ret (Some segment)
      | _ :: _ =>
          insert_links segmentId tagIds ;;
          getSegmentById userId segmentId
      end
  end.

Definition removeTagFromSegment (userId segmentId tagId : string) : M unit :=
  (* Verify access via segment *)
  do segment <- getSegmentById userId segmentId ;
  match segment with
  | None => throw (AppError "Segment not found" 404)
  | Some _ =>
      execute (with_segment_tags (List.filter (fun st =>
        negb (bool_decide (st.1 = segmentId) && bool_decide (st.2 = tagId)))))
  end.

End TagLinks.

Module TagLinksProofs.
Import Segments SegmentStore TagLinks.

Ltac mrun :=
  unfold bind, ret, throw, try_catch, query, execute, check, await in *.

Lemma fresh_tags_elem tagIds : forall linked tag,
  tag ∈ fresh_tags linked tagIds <-> tag ∈ tagIds /\ tag ∉ linked.
Proof.
  induction tagIds as [|a rest IH]; intros linked tag; simpl.
  - split; [by intros ?%elem_of_nil | by intros [?%elem_of_nil _]].
  - destruct (decide (a ∈ linked)) as [Ha|Ha].
    + rewrite (bool_decide_eq_true_2 _ Ha), IH, elem_of_cons. split; [tauto|].
      intros [[->|?] ?]; tauto.
    + rewrite (bool_decide_eq_false_2 _ Ha), !elem_of_cons, IH, elem_of_cons.
      split.
      * intros [->|[? ?]]; tauto.
      * intros [[->|?] ?]; [tauto|].
        destruct (decide (tag = a)); [tauto|]. right. tauto.
Qed.

Lemma fresh_tags_NoDup tagIds : forall linked, NoDup (fresh_tags linked tagIds).
Proof.
  induction tagIds as [|a rest IH]; intros linked; simpl; [constructor|].
  destruct (bool_decide (a ∈ linked)); [apply IH|].
  apply NoDup_cons. split; [|apply IH].
  rewrite fresh_tags_elem. intros [_ H]. apply H. left.
Qed.

Lemma fresh_tags_nil tagIds linked :
  (forall tag, tag ∈ tagIds -> tag ∈ linked) -> fresh_tags linked tagIds = [].
Proof.
  intros H. destruct (fresh_tags linked tagIds) as [|a l] eqn:E; [done|].
  assert (Ha : a ∈ fresh_tags linked tagIds) by (rewrite E; left).
  apply fresh_tags_elem in Ha as [Ha Hn]. by apply H in Ha.
Qed.

Lemma linked_app segmentId t fresh :
  linked segmentId
    (with_segment_tags (fun l => l ++ ((fun tag => (segmentId, tag)) <$> fresh)) t)
  = linked segmentId t ++ fresh.
Proof.
  unfold linked. simpl. rewrite List.filter_app, fmap_app. f_equal.
  rewrite filter_b_fixed.
  - rewrite <- list_fmap_compose. by rewrite <- (list_fmap_id fresh) at 2.
  - intros x Hx. apply list_elem_of_fmap in Hx as (tag & -> & _).
    by apply bool_decide_eq_true_2.
Qed.

Lemma with_segment_tags_same t : with_segment_tags (fun l => l ++ []) t = t.
Proof. destruct t. unfold with_segment_tags. simpl. by rewrite app_nil_r. Qed.

(** A call that finds every tag linked already. *)
Lemma addTagsToSegment_noop userId segmentId tagIds w seg rest :
  List.filter (owned userId segmentId) (segments (tables w)) = seg :: rest ->
  fresh_tags (linked segmentId (tables w)) tagIds = [] ->
  addTagsToSegment userId segmentId tagIds w = Return (Some seg) w.
Proof.
  intros Ef Hfresh. unfold addTagsToSegment, getSegmentById, insert_links. mrun.
  fold (owned userId segmentId). rewrite Ef. simpl.
  destruct tagIds as [|a l]; [done|]. rewrite Hfresh. simpl.
  rewrite with_segment_tags_same, DocumentStoreProofs.set_tables_same.
  fold (owned userId segmentId). by rewrite Ef.
Qed.

(** X22.  For a segment of the user and tag ids that exist,
    [addTagsToSegment] returns the segment and adds, to the tags the segment
    already has, the given ids that it does not have yet, each once (repeated
    ids and ids already linked are skipped, not an error).  The links of
    other segments stay as they are, and the same call made again changes
    nothing. *)
Theorem addTagsToSegment_adds_missing_tags userId segmentId tagIds w s :
  s ∈ segments (tables w) -> owned userId segmentId s = true ->
  (forall tag, tag ∈ tagIds -> tag ∈ tags (tables w)) ->
  exists seg w',
    addTagsToSegment userId segmentId tagIds w = Return (Some seg) w'
    /\ owned userId segmentId seg = true
    /\ linked segmentId (tables w')
       = linked segmentId (tables w) ++ fresh_tags (linked segmentId (tables w)) tagIds
    /\ (forall tag, tag ∈ linked segmentId (tables w') <->
                    tag ∈ linked segmentId (tables w) \/ tag ∈ tagIds)
    /\ (NoDup (linked segmentId (tables w)) -> NoDup (linked segmentId (tables w')))
    /\ (forall other, other <> segmentId ->
                      linked other (tables w') = linked other (tables w))
    /\ addTagsToSegment userId segmentId tagIds w' = Return (Some seg) w'.
Proof.
  intros Hs Hown Htags.
  assert (Hin : s ∈ List.filter (owned userId segmentId) (segments (tables w)))
    by (by apply elem_of_filter_b).
  destruct (List.filter (owned userId segmentId) (segments (tables w)))
    as [|seg rest] eqn:Ef; [by apply elem_of_nil in Hin|].
  assert (Hseg : owned userId segmentId seg = true).
  { assert (H : seg ∈ seg :: rest) by left. rewrite <- Ef in H.
    by apply elem_of_filter_b in H as [_ H]. }
  assert (Hid : segmentId ∈ Segment.id <$> segments (tables w)).
  { apply list_elem_of_fmap. exists s. split; [|done].
    unfold owned in Hown. apply andb_true_iff in Hown as [Hown _].
    by apply bool_decide_eq_true in Hown. }
  set (fresh := fresh_tags (linked segmentId (tables w)) tagIds).
  set (w' := set_tables (with_segment_tags
                (fun l => l ++ ((fun tag => (segmentId, tag)) <$> fresh)) (tables w)) w).
  assert (Hlinked : linked segmentId (tables w') = linked segmentId (tables w) ++ fresh)
    by apply linked_app.
  assert (Hunion : forall tag, tag ∈ linked segmentId (tables w') <->
                     tag ∈ linked segmentId (tables w) \/ tag ∈ tagIds).
  { intros tag. rewrite Hlinked, elem_of_app. unfold fresh. rewrite fresh_tags_elem.
    destruct (decide (tag ∈ linked segmentId (tables w))); tauto. }
  assert (Hok : (match fresh with
                 | [] => true
                 | _ :: _ =>
                     bool_decide (segmentId ∈ Segment.id <$> segments (tables w))
                     && forallb (fun tag => bool_decide (tag ∈ tags (tables w))) fresh
                 end) = true).
  { destruct fresh as [|a l] eqn:E; [done|].
    rewrite (bool_decide_eq_true_2 _ Hid). simpl.
    change (forallb (fun tag => bool_decide (tag ∈ tags (tables w))) (a :: l) = true).
    apply forallb_forall. intros x Hx. apply bool_decide_eq_true_2, Htags.
    apply list_elem_of_In in Hx. rewrite <- E in Hx.
    by apply fresh_tags_elem in Hx as [Hx _]. }
  assert (Hrun : forall w0, tables w0 = tables w' \/ tables w0 = tables w ->
            segments (tables w0) = segments (tables w)).
  { intros w0 [->| ->]; done. }
  assert (Hfirst : tagIds <> [] ->
            addTagsToSegment userId segmentId tagIds w = Return (Some seg) w').
  { intros Hne. unfold addTagsToSegment, getSegmentById, insert_links. mrun.
    fold (owned userId segmentId). rewrite Ef. simpl.
    destruct tagIds as [|a l]; [done|]. fold fresh. rewrite Hok. simpl.
    fold (owned userId segmentId). by rewrite Ef. }
  assert (Hagain : fresh_tags (linked segmentId (tables w')) tagIds = []).
  { apply fresh_tags_nil. intros tag Htag. apply Hunion. by right. }
  destruct tagIds as [|a l] eqn:Etag.
  - exists seg, w. unfold addTagsToSegment, getSegmentById. mrun.
    fold (owned userId segmentId). rewrite Ef. simpl.
    split; [done|]. split; [done|]. split; [by rewrite app_nil_r|].
    split; [|split; [done|split; [done|done]]].
    intros tag. split; [by left|]. by intros [?|?%elem_of_nil].
  - exists seg, w'. split; [by apply Hfirst|]. split; [done|]. split; [exact Hlinked|].
    split; [exact Hunion|]. split; [|split].
    + intros Hnd. rewrite Hlinked. apply NoDup_app. split; [done|]. split.
      * intros x Hx Hf. unfold fresh in Hf. by apply fresh_tags_elem in Hf as [_ Hf].
      * apply fresh_tags_NoDup.
    + intros other Hother. unfold linked. simpl. rewrite List.filter_app.
      rewrite (proj2 (filter_b_nil_iff _ ((fun tag => (segmentId, tag)) <$> fresh))).
      * by rewrite app_nil_r.
      * intros x Hx. apply list_elem_of_fmap in Hx as (tag & -> & _).
        by apply bool_decide_eq_false_2.
    + apply (addTagsToSegment_noop _ _ _ _ _ rest); [exact Ef | exact Hagain].
Qed.

Lemma addTagsToSegment_adds_missing_tags_witness :
  let w := DocumentStoreProofs.tagged_world in
  Sample.hello ∈ segments (tables w)
  /\ exists seg w',
       addTagsToSegment Sample.alice "seg-1" ["tag-B"; "tag-A"; "tag-B"] w
       = Return (Some seg) w'
       /\ linked "seg-1" (tables w') = ["tag-A"; "tag-B"]
       /\ addTagsToSegment Sample.alice "seg-1" ["tag-B"; "tag-A"; "tag-B"] w'
          = Return (Some seg) w'.
Proof.
  intros w.
  assert (Hs : Sample.hello ∈ segments (tables w)) by left.
  assert (Ht : forall tag, tag ∈ ["tag-B"; "tag-A"; "tag-B"] -> tag ∈ tags (tables w)).
  { intros tag Htag. apply bool_decide_eq_true with (H := decide _).
    repeat (apply elem_of_cons in Htag as [->|Htag]; [vm_compute; reflexivity|]).
    by apply elem_of_nil in Htag. }
  split; [exact Hs|].
  destruct (addTagsToSegment_adds_missing_tags Sample.alice "seg-1"
              ["tag-B"; "tag-A"; "tag-B"] w Sample.hello Hs eq_refl Ht)
    as (seg & w' & Hrun & _ & Hlinked & _ & _ & _ & Hagain).
  exists seg, w'. split; [exact Hrun|]. split; [exact Hlinked | exact Hagain].
Defined.

Lemma unlinked_filter segmentId tagId (links : list (string * string)) :
  tagId ∉ snd <$> List.filter (fun st => bool_decide (st.1 = segmentId)) links ->
  List.filter (fun st : string * string =>
      negb (bool_decide (st.1 = segmentId) && bool_decide (st.2 = tagId))) links
  = links.
Proof.
  intros Hno. apply filter_b_fixed. intros x Hx. apply negb_true_iff.
  apply not_true_iff_false. intros H. apply andb_true_iff in H as [H1 H2].
  apply bool_decide_eq_true in H2. apply Hno, list_elem_of_fmap.
  exists x. split; [done|]. by apply elem_of_filter_b.
Qed.

(** X23.  For a segment of the user, removing a tag that was just added
    (and was not linked before) gives back the world as it was before the
    tag was added; and removing a tag that is not linked succeeds without
    changing anything. *)
Theorem removeTagFromSegment_undoes_add userId segmentId tagId w s :
  s ∈ segments (tables w) -> owned userId segmentId s = true ->
  tagId ∈ tags (tables w) ->
  tagId ∉ linked segmentId (tables w) ->
  removeTagFromSegment userId segmentId tagId w = Return tt w
  /\ exists seg w1,
       addTagsToSegment userId segmentId [tagId] w = Return (Some seg) w1
       /\ tagId ∈ linked segmentId (tables w1)
       /\ removeTagFromSegment userId segmentId tagId w1 = Return tt w.
Proof.
  intros Hs Hown Htag Hno.
  assert (Hin : s ∈ List.filter (owned userId segmentId) (segments (tables w)))
    by (by apply elem_of_filter_b).
  destruct (List.filter (owned userId segmentId) (segments (tables w)))
    as [|seg rest] eqn:Ef; [by apply elem_of_nil in Hin|].
  assert (Hid : segmentId ∈ Segment.id <$> segments (tables w)).
  { apply list_elem_of_fmap. exists s. split; [|done].
    unfold owned in Hown. apply andb_true_iff in Hown as [Hown _].
    by apply bool_decide_eq_true in Hown. }
  assert (Hsame : forall f t, f (segment_tags t) = segment_tags t ->
                              with_segment_tags f t = t).
  { intros f [] H. unfold with_segment_tags. simpl in *. by rewrite H. }
  split.
  - unfold removeTagFromSegment, getSegmentById. mrun.
    fold (owned userId segmentId). rewrite Ef. cbn [head].
    rewrite Hsame by (by apply unlinked_filter).
    by rewrite DocumentStoreProofs.set_tables_same.
  - exists seg. eexists. split; [|split].
    + unfold addTagsToSegment, getSegmentById, insert_links. mrun.
      fold (owned userId segmentId). rewrite Ef. simpl.
      rewrite (bool_decide_eq_false_2 _ Hno). simpl.
      rewrite (bool_decide_eq_true_2 _ Hid), (bool_decide_eq_true_2 _ Htag). simpl.
      fold (owned userId segmentId). rewrite Ef. reflexivity.
    + unfold linked. simpl. rewrite List.filter_app, fmap_app. apply elem_of_app. right.
      simpl. rewrite bool_decide_eq_true_2 by done. left.
    + unfold removeTagFromSegment, getSegmentById. mrun. simpl.
      fold (owned userId segmentId). rewrite Ef. cbn [head]. f_equal.
      assert (Hlinks : List.filter (fun st : string * string =>
                  negb (bool_decide (st.1 = segmentId) && bool_decide (st.2 = tagId)))
                  (segment_tags (tables w) ++ [(segmentId, tagId)])
                = segment_tags (tables w)).
      { rewrite List.filter_app. simpl.
        rewrite !bool_decide_eq_true_2 by done. simpl. rewrite app_nil_r.
        by apply unlinked_filter. }
      clear -Hlinks. destruct w as [[] ? ? ?]. unfold set_tables, with_segment_tags.
      simpl in *. by rewrite Hlinks.
Qed.

Lemma removeTagFromSegment_undoes_add_witness :
  let w := DocumentStoreProofs.tagged_world in
  Sample.hello ∈ segments (tables w)
  /\ "tag-B" ∈ tags (tables w)
  /\ ("tag-B" ∉ linked "seg-1" (tables w))
  /\ removeTagFromSegment Sample.alice "seg-1" "tag-B" w = Return tt w
  /\ exists seg w1,
       addTagsToSegment Sample.alice "seg-1" ["tag-B"] w = Return (Some seg) w1
       /\ "tag-B" ∈ linked "seg-1" (tables w1)
       /\ removeTagFromSegment Sample.alice "seg-1" "tag-B" w1 = Return tt w.
Proof.
  intros w.
  assert (Hs : Sample.hello ∈ segments (tables w)) by left.
  assert (Ht : "tag-B" ∈ tags (tables w)).
  { apply bool_decide_eq_true with (H := decide _). vm_compute. reflexivity. }
  assert (Hn : "tag-B" ∉ linked "seg-1" (tables w)).
  { apply bool_decide_eq_true with (H := decide _). vm_compute. reflexivity. }
  split; [exact Hs|]. split; [exact Ht|]. split; [exact Hn|].
  exact (removeTagFromSegment_undoes_add Sample.alice "seg-1" "tag-B" w Sample.hello
           Hs eq_refl Ht Hn).
Defined.

End TagLinksProofs.

(* ===================================================================== *)
(** ** The routes that link tags ([routes/segments.ts]) *)
(* ===================================================================== *)

Module TagRoutes.

Section Schemas.
(** [z.string().uuid()] of zod. *)
Variable is_uuid : string -> bool.

(** [req.params] maps the names of the placeholders of the route path to
    their values.

    [segmentIdParamSchema]: [params: z.object({ id: z.string().uuid() })];
    a key that is missing fails the parse. *)
Definition segmentIdParamSchema (params : gmap string string) : bool :=
  match params !! "id" with
  | Some id => is_uuid id
  | None => false
  end.

(** [segmentIdTagIdParamSchema] *)
Definition segmentIdTagIdParamSchema (params : gmap string string) : bool :=
  match params !! "segment_id", params !! "tag_id" with
  | Some segment_id, Some tag_id => is_uuid segment_id && is_uuid tag_id
  | _, _ => false
  end.

(** [addSegmentTagsSchema]: [tag_ids: z.array(z.string().uuid()).min(1)] *)
Definition addSegmentTagsSchema (tag_ids : list string) : bool :=
  forallb is_uuid tag_ids && (1 <=? length tag_ids)%nat.

(** [router.post('/:segment_id/tags', validate(segmentIdParamSchema),
     validate(addSegmentTagsSchema), handler)] *)
Definition post_segment_tags (userId segment_id : string) (tag_ids : list string)
    : M (option Segment.t) :=
  let params : gmap string string := {[ "segment_id" := segment_id ]} in
  Routes.validate (segmentIdParamSchema params)
    (Routes.validate (addSegmentTagsSchema tag_ids)
       (TagLinks.addTagsToSegment userId segment_id tag_ids)).

(** [router.delete('/:segment_id/tags/:tag_id',
     validate(segmentIdTagIdParamSchema), handler)] *)
Definition delete_segment_tag (userId segment_id tag_id : string) : M unit :=
  let params : gmap string string := <[ "tag_id" := tag_id ]> {[ "segment_id" := segment_id ]} in
  Routes.validate (segmentIdTagIdParamSchema params)
    (TagLinks.removeTagFromSegment userId segment_id tag_id).

End Schemas.

End TagRoutes.

Module TagRoutesProofs.
Import TagRoutes.

(** X24.  The route that adds tags to a segment names its placeholder
    [segment_id] but validates the parameters with the schema that requires
    [id]: every request is rejected with 400 before [addTagsToSegment] runs,
    and nothing is written.  The route that removes a tag validates the names
    it declares, and runs [removeTagFromSegment] when both ids are uuids. *)
Theorem post_segment_tags_is_always_rejected is_uuid userId segment_id tag_id tag_ids w :
  post_segment_tags is_uuid userId segment_id tag_ids w
  = Throw (AppError "Validation failed" 400) w
  /\ (is_uuid segment_id = true -> is_uuid tag_id = true ->
      delete_segment_tag is_uuid userId segment_id tag_id w
      = TagLinks.removeTagFromSegment userId segment_id tag_id w).
Proof.
  split.
  - unfold post_segment_tags, segmentIdParamSchema. cbv zeta.
    by rewrite lookup_singleton_ne.
  - intros Hs Ht. unfold delete_segment_tag, segmentIdTagIdParamSchema. cbv zeta.
    rewrite lookup_insert_ne, lookup_singleton_eq, lookup_insert_eq by done.
    by rewrite Hs, Ht.
Qed.

Lemma post_segment_tags_is_always_rejected_witness :
  let is_uuid := fun s => (String.length s =? 36)%nat in
  let w := DocumentStoreProofs.tagged_world in
  let seg := "11111111-1111-1111-1111-111111111111" in
  let tag := "22222222-2222-2222-2222-222222222222" in
  post_segment_tags is_uuid Sample.alice seg [tag] w
  = Throw (AppError "Validation failed" 400) w
  /\ delete_segment_tag is_uuid Sample.alice seg tag w
     = TagLinks.removeTagFromSegment Sample.alice seg tag w.
Proof.
  intros is_uuid w seg tag.
  destruct (post_segment_tags_is_always_rejected is_uuid Sample.alice seg tag [tag] w)
    as [H1 H2].
  split; [exact H1 | exact (H2 eq_refl eq_refl)].
Defined.

End TagRoutesProofs.

(* ===================================================================== *)
(** ** More on search ([services/search.ts]) *)
(* ===================================================================== *)

Module SearchScopeProofs.
Import Search.

Section Scope.
Variable ts_match : string -> Segment.t -> bool.
Variable db : Tables.
Variable userId : string.

(** The clause starts with [s.user_id = $1], [$1] is the user id, and every
    condition refers to a parameter that is bound, with a value of the type
    the condition needs. *)
Definition well_formed (acc : list SqlCond * list SqlValue) : Prop :=
  (exists cs, acc.1 = user_id_eq 1 :: cs)
  /\ (exists ps, acc.2 = VText userId :: ps)
  /\ forall c s, c ∈ acc.1 -> eval_cond ts_match db acc.2 s c <> None.

Lemma param_app ps extra p v :
  param ps p = Some v -> param (ps ++ extra) p = Some v.
Proof. destruct p as [|k]; simpl; [done|]. apply lookup_app_l_Some. Qed.

Lemma param_last ps v : param (ps ++ [v]) (length (ps ++ [v])) = Some v.
Proof.
  rewrite length_app. simpl. rewrite Nat.add_1_r. simpl.
  by rewrite lookup_app_r, Nat.sub_diag.
Qed.

Lemma eval_cond_app ps extra s c :
  eval_cond ts_match db ps s c <> None ->
  eval_cond ts_match db (ps ++ extra) s c = eval_cond ts_match db ps s c.
Proof.
  destruct c; simpl; destruct (param ps p) as [v|] eqn:E; try done;
    by rewrite (param_app _ extra _ _ E).
Qed.

Lemma where_holds_app conds ps extra s :
  (forall c, c ∈ conds -> eval_cond ts_match db ps s c <> None) ->
  where_holds ts_match db conds (ps ++ extra) s = where_holds ts_match db conds ps s.
Proof.
  induction conds as [|c cs IH]; intros H; simpl; [done|].
  rewrite eval_cond_app by (apply H; left).
  rewrite IH; [done|]. intros c' Hc'. apply H. by right.
Qed.

Lemma where_holds_defined conds ps s :
  (forall c, c ∈ conds -> eval_cond ts_match db ps s c <> None) ->
  where_holds ts_match db conds ps s <> None.
Proof.
  induction conds as [|c cs IH]; intros H; simpl; [done|].
  pose proof (H c (list_elem_of_here _ _)) as Hc.
  destruct (eval_cond ts_match db ps s c); [|done].
  assert (Hcs : where_holds ts_match db cs ps s <> None).
  { apply IH. intros c' Hc'. apply H. by right. }
  by destruct (where_holds ts_match db cs ps s).
Qed.

Lemma well_formed_push acc (c : nat -> SqlCond) v :
  well_formed acc ->
  (forall ps s, eval_cond ts_match db (ps ++ [v]) s (c (length (ps ++ [v]))) <> None) ->
  well_formed (acc.1 ++ [c (length (acc.2 ++ [v]))], acc.2 ++ [v]).
Proof.
  intros ((cs & Hcs) & (ps & Hps) & Hall) Hnew. split; [|split]; simpl.
  - exists (cs ++ [c (length (acc.2 ++ [v]))]). by rewrite Hcs.
  - exists (ps ++ [v]). by rewrite Hps.
  - intros c' s [Hc'|Hc']%elem_of_app.
    + rewrite eval_cond_app; by apply Hall.
    + apply list_elem_of_singleton in Hc' as ->. apply Hnew.
Qed.

Lemma well_formed_push_filter b (c : nat -> SqlCond) v acc :
  well_formed acc ->
  (forall ps s, eval_cond ts_match db (ps ++ [v]) s (c (length (ps ++ [v]))) <> None) ->
  well_formed (push_filter b c v acc).
Proof.
  intros Hacc Hnew. unfold push_filter, addFilter. destruct b; [|done].
  by apply well_formed_push.
Qed.

Lemma well_formed_ts acc p q :
  well_formed acc -> param acc.2 p = Some (VText q) ->
  well_formed (acc.1 ++ [tsvector_matches p], acc.2).
Proof.
  intros ((cs & Hcs) & (ps & Hps) & Hall) Hq. split; [|split]; simpl.
  - exists (cs ++ [tsvector_matches p]). by rewrite Hcs.
  - by exists ps.
  - intros c' s [Hc'|Hc']%elem_of_app; [by apply Hall|].
    apply list_elem_of_singleton in Hc' as ->. simpl. by rewrite Hq.
Qed.

Ltac wf_side := intros ? ?; simpl; by rewrite param_last.

Ltac wf_step :=
  match goal with
  | |- well_formed (push_filter _ _ _ _) => apply well_formed_push_filter; [|wf_side]
  | |- well_formed (_ ++ [count_distinct_tags_eq _ ?n], _ ++ [?v]) =>
      apply (well_formed_push _ (fun p => count_distinct_tags_eq p n) v); [|wf_side]
  | |- well_formed (_ ++ [_ (length (_ ++ [_]))], _ ++ [_]) =>
      apply well_formed_push; [|wf_side]
  | |- well_formed (match ?x with _ => _ end) => destruct x
  end.

Lemma initial_well_formed dto :
  well_formed ([user_id_eq 1], initial_params userId dto).
Proof.
  split; [by exists []|]. split.
  - unfold initial_params. destruct (Js.truthy_trimmed (query dto)); by eexists.
  - intros c s ->%list_elem_of_singleton. unfold initial_params. simpl.
    by destruct (Js.truthy_trimmed (query dto)).
Qed.

Lemma initial_query dto :
  (0 <? tsQueryParamIndex dto)%nat = true ->
  param (initial_params userId dto) (tsQueryParamIndex dto) = Some (VText (query dto)).
Proof.
  unfold tsQueryParamIndex, initial_params.
  by destruct (Js.truthy_trimmed (query dto)).
Qed.

Lemma getBaseConditions_well_formed dto exclude :
  well_formed (getBaseConditions userId (filters dto) (tsQueryParamIndex dto)
                 (initial_params userId dto) exclude).
Proof.
  pose proof (initial_well_formed dto) as H0.
  pose proof (initial_query dto) as Hq.
  unfold getBaseConditions. cbv zeta.
  destruct (0 <? tsQueryParamIndex dto)%nat eqn:Hts.
  - specialize (Hq eq_refl).
    pose proof (well_formed_ts _ _ _ H0 Hq) as H1. simpl in H1. simpl.
    repeat wf_step; exact H1.
  - simpl. repeat wf_step; exact H0.
Qed.

Lemma generateFacetWhere_well_formed dto exclude :
  well_formed (generateFacetWhere (filters dto) (tsQueryParamIndex dto) exclude
                 (initial_params userId dto)).
Proof.
  pose proof (initial_well_formed dto) as H0.
  pose proof (initial_query dto) as Hq.
  unfold generateFacetWhere. cbv zeta.
  destruct (0 <? tsQueryParamIndex dto)%nat eqn:Hts.
  - specialize (Hq eq_refl).
    assert (H2 : tsQueryParamIndex dto = 2%nat).
    { unfold tsQueryParamIndex in *. by destruct (Js.truthy_trimmed (query dto)). }
    rewrite H2 in Hq.
    pose proof (well_formed_ts _ _ _ H0 Hq) as H1. simpl in H1. simpl.
    repeat wf_step; exact H1.
  - simpl. repeat wf_step; exact H0.
Qed.

Lemma well_formed_scoped acc extra s :
  well_formed acc ->
  where_holds ts_match db acc.1 (acc.2 ++ extra) s = Some true ->
  Segment.user_id s = userId.
Proof.
  intros ((cs & Hcs) & (ps & Hps) & _). rewrite Hcs, Hps. simpl.
  destruct (where_holds ts_match db cs _ s) as [bs|]; [|done].
  intros [= H]. apply andb_true_iff in H as [H _]. by apply bool_decide_eq_true in H.
Qed.

End Scope.

(** X25.  Every row that one of the four statements of [searchSegments]
    selects (the listing, the count, the category facet, the tag facet)
    belongs to the user who searches, whatever the request. *)
Theorem searchSegments_is_scoped_to_the_user ts_match db userId dto s :
  let p := plan userId dto in
  s ∈ main_rows ts_match db p
  \/ s ∈ select_where ts_match db (mainWhereClause p) (queryParams p)
  \/ s ∈ select_where ts_match db (catFacetWhere p) (catFacetParams p)
  \/ s ∈ select_where ts_match db (tagFacetWhere p) (tagFacetParams p) ->
  Segment.user_id s = userId.
Proof.
  cbv zeta. unfold main_rows, select_where, plan. simpl.
  rewrite !elem_of_filter_b, !bool_decide_eq_true.
  intros [[_ H] | [[_ H] | [[_ H] | [_ H]]]].
  - eapply well_formed_scoped; [apply getBaseConditions_well_formed | exact H].
  - rewrite <- (app_nil_r (getBaseConditions _ _ _ _ _).2) in H.
    eapply well_formed_scoped; [apply getBaseConditions_well_formed | exact H].
  - rewrite <- (app_nil_r (generateFacetWhere _ _ _ _).2) in H.
    eapply well_formed_scoped; [apply generateFacetWhere_well_formed | exact H].
  - rewrite <- (app_nil_r (generateFacetWhere _ _ _ _).2) in H.
    eapply well_formed_scoped; [apply generateFacetWhere_well_formed | exact H].
Qed.

Lemma searchSegments_is_scoped_to_the_user_witness :
  let ts_match := fun (_ : string) (_ : Segment.t) => true in
  let db := Sample.search_tables in
  let p := plan Sample.alice (Sample.browse (Sample.tagged (Some OR) ["tag-B"])) in
  Sample.abc_segment ∈ main_rows ts_match db p
  /\ Segment.user_id Sample.abc_segment = Sample.alice.
Proof.
  intros ts_match db p.
  assert (H : Sample.abc_segment ∈ main_rows ts_match db p).
  { apply bool_decide_eq_true with (H := decide _). vm_compute. reflexivity. }
  split; [exact H|].
  exact (searchSegments_is_scoped_to_the_user ts_match db Sample.alice
           (Sample.browse (Sample.tagged (Some OR) ["tag-B"])) Sample.abc_segment
           (or_introl H)).
Defined.

(** X26.  The listing and the count of [searchSegments] never fail on a
    parameter: every condition of their WHERE clause refers to a bound
    parameter of the right type.  And [total] is the number of rows the
    listing selects before LIMIT and OFFSET (segment ids being unique): the
    two statements, although run with different parameter arrays, apply the
    same predicate. *)
Theorem total_counts_the_rows_of_the_listing ts_match db userId dto :
  NoDup (Segment.id <$> segments db) ->
  let p := plan userId dto in
  (forall s, where_holds ts_match db (mainWhereClause p) (mainQueryParams p) s <> None)
  /\ (forall s, where_holds ts_match db (mainWhereClause p) (mainQueryParams p) s
                = where_holds ts_match db (mainWhereClause p) (queryParams p) s)
  /\ total ts_match db p = length (main_rows ts_match db p).
Proof.
  intros Hkey p.
  destruct (getBaseConditions_well_formed ts_match db userId dto none)
    as (_ & _ & Hall).
  assert (Hsame : forall s,
            where_holds ts_match db (mainWhereClause p) (mainQueryParams p) s
            = where_holds ts_match db (mainWhereClause p) (queryParams p) s).
  { intros s. unfold p, plan. simpl. apply where_holds_app. intros c Hc. by apply Hall. }
  split; [|split; [exact Hsame|]].
  - intros s. rewrite Hsame. unfold p, plan. simpl. apply where_holds_defined.
    intros c Hc. by apply Hall.
  - unfold total, main_rows, select_where.
    rewrite remove_dups_NoDup by (by apply NoDup_fmap_filter).
    rewrite length_fmap. f_equal. apply List.filter_ext. intros s. by rewrite Hsame.
Qed.

Lemma total_counts_the_rows_of_the_listing_witness :
  let ts_match := fun (_ : string) (_ : Segment.t) => true in
  let db := Sample.search_tables in
  let p := plan Sample.alice (Sample.browse (Sample.tagged (Some OR) ["tag-B"])) in
  NoDup (Segment.id <$> segments db)
  /\ total ts_match db p = length (main_rows ts_match db p).
Proof.
  intros ts_match db p.
  assert (Hkey : NoDup (Segment.id <$> segments db)).
  { apply bool_decide_eq_true with (H := decide _). vm_compute. reflexivity. }
  split; [exact Hkey|].
  exact (proj2 (proj2 (total_counts_the_rows_of_the_listing ts_match db Sample.alice
                         (Sample.browse (Sample.tagged (Some OR) ["tag-B"])) Hkey))).
Defined.

End SearchScopeProofs.

(** ** More on associations ([services/segments.ts]) *)

Module AssociationProofs.
Import Segments SegmentStore.

Ltac mrun :=
  unfold bind, ret, throw, try_catch, query, execute, check, await,
    gen_random_uuid in *.

(** X27.  When [createAssociation] returns, it returns the new target
    segment: a row appended to [segments] that belongs to the user, lies in
    the target document with the offsets and text of the request, is not
    primary, and has the category, the title and the colour of the source
    segment (a segment of the user).  One association from the source to the
    target is appended.  Unlike [createSegment] it records no colour usage,
    and the target gets no tags. *)
Theorem createAssociation_inherits_from_source env userId sourceId dto w r w' :
  createAssociation env userId sourceId dto w = Return r w' ->
  exists source target,
    r = Some target
    /\ source ∈ segments (tables w) /\ owned userId sourceId source = true
    /\ segments (tables w') = segments (tables w) ++ [target]
    /\ (Segment.id target ∉ Segment.id <$> segments (tables w))
    /\ Segment.user_id target = userId
    /\ Segment.document_id target = target_document_id dto
    /\ Segment.start_offset target = assoc_start_offset dto
    /\ Segment.end_offset target = assoc_end_offset dto
    /\ Segment.text_content target = assoc_text_content dto
    /\ Segment.is_primary target = false
    /\ Segment.category_id target = Segment.category_id source
    /\ Segment.title target = Segment.title source
    /\ Segment.color target = Segment.color source
    /\ segment_associations (tables w')
       = segment_associations (tables w)
         ++ [Association.mk sourceId (Segment.id target) (association_type dto)]
    /\ color_usage (tables w') = color_usage (tables w)
    /\ segment_tags (tables w') = segment_tags (tables w).
Proof.
  intros Hrun. remember (createAssociation env userId sourceId dto w) as outcome eqn:Ho.
  unfold createAssociation in Ho. unfold bind at 1, getSegmentById at 1, query in Ho.
  fold (owned userId sourceId) in Ho.
  destruct (List.filter (owned userId sourceId) (segments (tables w)))
    as [|source rest] eqn:Ef; simpl in Ho; [subst outcome; discriminate|].
  assert (Hsrc : source ∈ segments (tables w) /\ owned userId sourceId source = true).
  { apply elem_of_filter_b. rewrite Ef. left. }
  unfold insert_segment, insert_association in Ho. mrun. simpl in Ho.
  destruct (bool_decide _ && bool_decide _); simpl in Ho; [|subst outcome; discriminate].
  destruct (int4 _ && int4 _); simpl in Ho; [|subst outcome; discriminate].
  destruct (varchar_opt 255 _); simpl in Ho; [|subst outcome; discriminate].
  destruct (varchar 7 _); simpl in Ho; [|subst outcome; discriminate].
  destruct (negb (bool_decide _)) eqn:Hpk; simpl in Ho; [|subst outcome; discriminate].
  destruct (bool_decide _ && bool_decide _); simpl in Ho; [|subst outcome; discriminate].
  destruct (negb (existsb _ _)); simpl in Ho; [|subst outcome; discriminate].
  destruct (varchar 50 _); simpl in Ho; [|subst outcome; discriminate].
  apply negb_true_iff, bool_decide_eq_false in Hpk.
  unfold getSegmentById, query in Ho. simpl in Ho.
  rewrite List.filter_app in Ho. simpl in Ho.
  rewrite !bool_decide_eq_true_2 in Ho by done. simpl in Ho.
  assert (Hnil : List.filter (fun s =>
              bool_decide (Segment.id s = "uuid-" +:+ pretty (uuid_seed w))
              && bool_decide (Segment.user_id s = userId)) (segments (tables w)) = []).
  { apply filter_b_nil_iff. intros x Hx. apply andb_false_iff. left.
    apply bool_decide_eq_false. intros E. apply Hpk.
    apply list_elem_of_fmap. by exists x. }
  rewrite Hnil in Ho. simpl in Ho.
  subst outcome. injection Hrun as <- <-.
  destruct Hsrc as [Hin Hown]. eexists source, _. split; [reflexivity|].
  simpl. by repeat split.
Qed.

Definition derive (doc : string) (s e : Z) (txt : string) : AssociateSegmentDTO :=
  {| target_document_id := doc; assoc_start_offset := s; assoc_end_offset := e;
     assoc_text_content := txt; association_type := "derivative" |}.

Lemma createAssociation_inherits_from_source_witness :
  let w := Sample.sync_world in
  let outcome :=
    createAssociation Sample.one_marker Sample.alice "seg-1" (derive "doc-1" 6 11 "brave") w in
  exists r w' target,
    outcome = Return r w'
    /\ r = Some target
    /\ segments (tables w') = segments (tables w) ++ [target]
    /\ Segment.is_primary target = false
    /\ Segment.color target = Segment.color Sample.hello
    /\ color_usage (tables w') = color_usage (tables w).
Proof.
  intros w outcome.
  destruct outcome as [r w'|e w'] eqn:E; [|vm_compute in E; discriminate].
  destruct (createAssociation_inherits_from_source Sample.one_marker Sample.alice "seg-1"
              (derive "doc-1" 6 11 "brave") w r w' E)
    as (source & target & Hr & Hsrc & Hown & Hsegs & _ & _ & _ & _ & _ & _ & Hp & _ & _
        & Hc & _ & Hu & _).
  exists r, w', target. split; [reflexivity|]. split; [exact Hr|]. split; [exact Hsegs|].
  split; [exact Hp|]. split; [|exact Hu].
  rewrite Hc. f_equal.
  apply list_elem_of_In in Hsrc. simpl in Hsrc.
  destruct Hsrc as [<-|[<-|[]]]; [reflexivity | discriminate Hown].
Defined.

End AssociationProofs.

(* ===================================================================== *)
(** ** Categories ([services/categories.ts]) *)
(* ===================================================================== *)

Module Categories.

Module Category.
Record t := mk {
  id : string;
  user_id : string;
  name : string;
  sort_order : Z;
  updated_at : Z
}.

Global Instance eq_dec : EqDecision t.
Proof. solve_decision. Defined.
End Category.

(** The two tables the category service reads and writes. *)
Record Db := {
  categories : list Category.t;
  segments : list Segment.t
}.

(** [WHERE id = $1 AND user_id = $2] on [categories] *)
Definition owned (userId id : string) (c : Category.t) : bool :=
  bool_decide (Category.id c = id) && bool_decide (Category.user_id c = userId).

(** [s.category_id = c.id] *)
Definition in_category (id : string) (s : Segment.t) : bool :=
  bool_decide (Segment.category_id s = id).

(** [UPDATE segments SET category_id = $1, updated_at = NOW()] on one row. *)
Definition set_category (target : string) (now : Z) (s : Segment.t) : Segment.t :=
  Segment.mk (Segment.id s) (Segment.user_id s) (Segment.document_id s) target
    (Segment.start_offset s) (Segment.end_offset s) (Segment.text_content s)
    (Segment.title s) (Segment.color s) (Segment.is_primary s)
    (Segment.created_at s) now.

(** The value of a uuid text, written as PostgreSQL prints it.  A request
    may spell the hexadecimal digits of an id in either case (the validation
    of the routes lets both through); the statements compare the values,
    while [===] compares the texts. *)
Definition lower_hex (a : ascii) : ascii :=
  let n := nat_of_ascii a in
  if ((65 <=? n) && (n <=? 70))%nat then ascii_of_nat (n + 32) else a.

Fixpoint uuid (s : string) : string :=
  match s with
  | EmptyString => EmptyString
  | String a rest => String (lower_hex a) (uuid rest)
  end.

(** 2. Handle Migration Logic: the rows of [segments] after it.  [id] and
    [userId] are the values of the parameters, [idText] is the id as the
    caller wrote it. *)
Definition migrate (env : Env) (userId id idText : string) (migrateToId : option string)
    (db : Db) : JsError + list Segment.t :=
  let segmentCount := length (List.filter (in_category id) (segments db)) in
  if (0 <? segmentCount)%nat then
    match Segments.truthy migrateToId with
    | None =>
        inl (AppError ("Cannot delete category with " +:+ pretty segmentCount
                       +:+ " segments. Provide 'migrate_to' query parameter.") 400)
    | Some target =>
        (* Verify target category *)
        match List.filter (owned userId (uuid target)) (categories db) with
        | [] => inl (AppError "Target category for migration not found" 400)
        | _ :: _ =>
            if String.eqb idText target
            then inl (AppError "Cannot migrate to the same category being deleted" 400)
            else
              (* Migrate segments *)
              inr (List.map (fun s =>
                     if in_category id s then set_category (uuid target) (now env) s
                     else s)
                     (segments db))
        end
    end
  else inr (segments db).

(** The statements between BEGIN and COMMIT: the database they leave, or
    the error that is thrown.  [segments.category_id] references
    [categories] without a cascade. *)
Definition deleteCategory_try (env : Env) (userIdText idText : string)
    (migrateToId : option string) (db : Db) : JsError + Db :=
  let userId := uuid userIdText in
  let id := uuid idText in
  (* 1. Check existence and segment count *)
  match List.filter (owned userId id) (categories db) with
  | [] => inl (AppError "Category not found" 404)
  | _ :: _ =>
      match migrate env userId id idText migrateToId db with
      | inl e => inl e
      | inr segs =>
          (* 3. Delete Category *)
          if existsb (in_category id) segs
          then inl (pg_error
                 "update or delete on table categories violates foreign key constraint")
          else inr {| categories :=
                        List.filter (fun c => negb (owned userId id c)) (categories db);
                      segments := segs |}
      end
  end.

(** [try { BEGIN ... COMMIT } catch (error) { ROLLBACK; throw error }] *)
Definition transaction (body : Db -> JsError + Db) (db : Db) : option JsError * Db :=
  match body db with
  | inl e => (Some e, db)
  | inr db' => (None, db')
  end.

Definition deleteCategory (env : Env) (userId id : string)
    (migrateToId : option string) (db : Db) : option JsError * Db :=
  transaction (deleteCategory_try env userId id migrateToId) db.

(** *** [reorderCategories] *)

(** A row of [listCategories]: the category and
    [COUNT(s.id)::int as segment_count]. *)
Record Listed := {
  category : Category.t;
  segment_count : nat
}.

(** [WHERE c.user_id = $1 GROUP BY c.id ORDER BY c.sort_order ASC]; rows of
    equal [sort_order], whose order PostgreSQL leaves open, are kept in
    table order. *)
Definition listCategories (userId : string) (db : Db) : list Listed :=
  Js.sort (fun a b => Category.sort_order (category a) - Category.sort_order (category b))
    (List.map (fun c =>
       {| category := c;
          segment_count :=
            length (List.filter (in_category (Category.id c)) (segments db)) |})
       (List.filter (fun c => bool_decide (Category.user_id c = userId))
          (categories db))).

(** [UPDATE categories SET sort_order = $1] on one row; the trigger
    [update_cats_modtime] sets [updated_at]. *)
Definition set_sort_order (z now : Z) (c : Category.t) : Category.t :=
  Category.mk (Category.id c) (Category.user_id c) (Category.name c) z now.

(** [for (let i = 0; i < categoryIds.length; i++)] from index [i] on:
    [UPDATE categories SET sort_order = (i + 1) * 10
     WHERE id = categoryIds[i] AND user_id = $3]. *)
Fixpoint update_sort_orders (env : Env) (userId : string) (i : nat)
    (categoryIds : list string) (rows : list Category.t)
    : JsError + list Category.t :=
  match categoryIds with
  | [] => inr rows
  | id :: rest =>
      let sort_order := (Z.of_nat i + 1) * 10 in
      if int4 sort_order then
        update_sort_orders env userId (S i) rest
          (List.map (fun c =>
             if owned userId id c then set_sort_order sort_order (now env) c else c)
             rows)
      else inl (pg_error "value out of range for type integer")
  end.

Definition reorderCategories_try (env : Env) (userId : string)
    (categoryIds : list string) (db : Db) : JsError + Db :=
  (* Verify all IDs belong to user *)
  let rowCount :=
    length (List.filter (fun c =>
              bool_decide (Category.user_id c = userId)
              && bool_decide (Category.id c ∈ categoryIds)) (categories db)) in
  if negb (rowCount =? length categoryIds)%nat then
    inl (AppError "One or more categories not found or do not belong to user" 400)
  else
    (* Update sort_order for each *)
    match update_sort_orders env userId 0 categoryIds (categories db) with
    | inl e => inl e
    | inr rows => inr {| categories := rows; segments := segments db |}
    end.

Definition reorderCategories (env : Env) (userId : string)
    (categoryIds : list string) (db : Db) : (JsError + list Listed) * Db :=
  match transaction (reorderCategories_try env userId categoryIds) db with
  | (Some e, db') => (inl e, db')
  | (None, db') => (inr (listCategories userId db'), db')
  end.

End Categories.

Module CategoriesProofs.
Import Categories.

(** How a row of [segments] differs after the category of value [id] is
    deleted: a segment of the category is in the category of [migrate_to],
    with a new [updated_at] and its other columns as they were; every other
    segment is as it was. *)
Definition moved (env : Env) (id : string) (migrateToId : option string)
    (x y : Segment.t) : Prop :=
  (Segment.category_id x = id ->
   exists target,
     migrateToId = Some target
     /\ y = Segment.mk (Segment.id x) (Segment.user_id x) (Segment.document_id x)
              (uuid target) (Segment.start_offset x) (Segment.end_offset x)
              (Segment.text_content x) (Segment.title x) (Segment.color x)
              (Segment.is_primary x) (Segment.created_at x) (now env))
  /\ (Segment.category_id x <> id -> y = x).

Lemma uuid_nonempty s : uuid s = "" -> s = "".
Proof. by destruct s. Qed.

Lemma migrate_cases env userId id idText migrateToId db :
  match migrate env userId id idText migrateToId db with
  | inl e => statusCode e = Some 400
  | inr segs =>
      Forall2 (moved env id migrateToId) (segments db) segs
      /\ ((exists s, s ∈ segments db /\ Segment.category_id s = id) ->
          exists target c,
            migrateToId = Some target /\ target <> idText
            /\ c ∈ categories db
            /\ Category.id c = uuid target /\ Category.user_id c = userId
            /\ (exists y, y ∈ segs /\ Segment.category_id y = uuid target)
            /\ forall s, s ∈ segs -> Segment.category_id s = id -> uuid target = id)
      /\ ((forall s, s ∈ segments db -> Segment.category_id s <> id) -> segs = segments db)
  end.
Proof.
  unfold migrate.
  destruct (0 <? length _)%nat eqn:Hcount.
  - destruct migrateToId as [target|]; simpl; [|done].
    destruct target as [|a target']; simpl; [done|].
    set (target := String a target').
    change (String (lower_hex a) (uuid target')) with (uuid target).
    destruct (List.filter (owned userId (uuid target)) (categories db)) as [|c rest] eqn:Ef;
      [done|].
    destruct (String.eqb idText target) eqn:Heq; [done|].
    apply String.eqb_neq in Heq. split; [|split].
    + apply Forall2_map_r. intros x _. unfold moved, in_category.
      destruct (decide (Segment.category_id x = id)) as [E|E].
      * rewrite (bool_decide_eq_true_2 _ E). split; [|done]. intros _. by exists target.
      * rewrite (bool_decide_eq_false_2 _ E). by split.
    + intros (s0 & Hs0 & Hcat0). exists target, c. split; [done|]. split; [congruence|].
      assert (Hc : c ∈ List.filter (owned userId (uuid target)) (categories db))
        by (rewrite Ef; left).
      apply elem_of_filter_b in Hc as [Hc Hown]. unfold owned in Hown.
      apply andb_true_iff in Hown as [Hi Hu]. apply bool_decide_eq_true in Hi, Hu.
      split; [done|]. split; [done|]. split; [done|]. split.
      * exists (set_category (uuid target) (now env) s0). split; [|done].
        apply list_elem_of_In, in_map_iff. exists s0.
        unfold in_category. rewrite bool_decide_eq_true_2 by done.
        split; [done | by apply list_elem_of_In].
      * intros s Hs Hcat. apply list_elem_of_In, in_map_iff in Hs as (x & <- & _).
        unfold in_category in Hcat.
        destruct (bool_decide (Segment.category_id x = id)) eqn:E; [done|].
        apply bool_decide_eq_false in E. by destruct E.
    + intros Hnone. exfalso. apply Nat.ltb_lt in Hcount.
      destruct (List.filter (in_category id) (segments db)) as [|s l] eqn:El;
        [simpl in Hcount; lia|].
      assert (Hs : s ∈ List.filter (in_category id) (segments db)) by (rewrite El; left).
      apply elem_of_filter_b in Hs as [Hs Hin]. apply bool_decide_eq_true in Hin.
      by apply (Hnone s).
  - assert (Hnone : List.filter (in_category id) (segments db) = []).
    { apply Nat.ltb_ge in Hcount. destruct (List.filter _ _); [done | simpl in *; lia]. }
    pose proof (proj1 (filter_b_nil_iff _ _) Hnone) as Hall.
    assert (Hno : forall s, s ∈ segments db -> Segment.category_id s <> id).
    { intros s Hs. specialize (Hall s Hs). unfold in_category in Hall.
      by apply bool_decide_eq_false in Hall. }
    split; [|split; [|done]].
    + apply Forall2_same_in. intros x Hx. split; [|done]. intros E. by destruct (Hno x Hx).
    + intros (s & Hs & Hin). by destruct (Hno s Hs).
Qed.

(** X28.  [deleteCategory] compares the id with [migrate_to] as texts, and
    PostgreSQL compares them as uuid values.  Either it throws and leaves
    both tables as they were, or it deletes the category of the user and
    leaves no segment in it: the segments that were in it (of whatever user)
    are moved to the [migrate_to] category, which is another category of the
    same user, and get a new [updated_at]; every other segment and category
    is unchanged.  The error is one of the 404 and 400 errors of the service,
    or the foreign-key violation of the DELETE; the latter occurs exactly
    when the category has segments and [migrate_to] is the id of the category
    itself in another spelling (hexadecimal digits in the other case), which
    the guard against migrating to the same category lets through. *)
Theorem deleteCategory_leaves_no_segment_behind env userId id migrateToId db :
  let fk :=
    pg_error "update or delete on table categories violates foreign key constraint" in
  let own c := Category.id c = uuid id /\ Category.user_id c = uuid userId in
  let filled := exists s, s ∈ segments db /\ Segment.category_id s = uuid id in
  (let (error, db') := deleteCategory env userId id migrateToId db in
   match error with
   | Some e =>
       db' = db
       /\ (statusCode e = Some 404 \/ statusCode e = Some 400
           \/ (e = fk /\ filled
               /\ exists target,
                    migrateToId = Some target /\ target <> id /\ uuid target = uuid id))
   | None =>
       (exists c, c ∈ categories db /\ own c)
       /\ (forall c, c ∈ categories db' <-> c ∈ categories db /\ ~ own c)
       /\ (forall s, s ∈ segments db' -> Segment.category_id s <> uuid id)
       /\ Forall2 (moved env (uuid id) migrateToId) (segments db) (segments db')
       /\ (filled ->
           exists target c,
             migrateToId = Some target /\ uuid target <> uuid id
             /\ c ∈ categories db'
             /\ Category.id c = uuid target /\ Category.user_id c = uuid userId)
   end)
  /\ (forall target c,
        migrateToId = Some target -> target <> id -> uuid target = uuid id ->
        c ∈ categories db -> own c -> filled ->
        deleteCategory env userId id migrateToId db = (Some fk, db)).
Proof.
  cbv zeta.
  assert (Hown : forall i c, owned (uuid userId) i c = true
                   <-> Category.id c = i /\ Category.user_id c = uuid userId).
  { intros i c. unfold owned. by rewrite andb_true_iff, !bool_decide_eq_true. }
  split.
  - unfold deleteCategory, transaction, deleteCategory_try.
    destruct (List.filter (owned (uuid userId) (uuid id)) (categories db))
      as [|c rest] eqn:Ef; [split; [done | by left]|].
    assert (Hc : c ∈ categories db /\ owned (uuid userId) (uuid id) c = true).
    { apply elem_of_filter_b. rewrite Ef. left. }
    destruct Hc as [Hc Hcown]. apply Hown in Hcown.
    pose proof (migrate_cases env (uuid userId) (uuid id) id migrateToId db) as Hm.
    destruct (migrate env (uuid userId) (uuid id) id migrateToId db) as [e|segs] eqn:Em.
    { split; [done|]. by right; left. }
    destruct Hm as (Hmoved & Htarget & Hsame).
    destruct (existsb (in_category (uuid id)) segs) eqn:Hex.
    + split; [done|]. right; right. split; [done|].
      apply existsb_exists in Hex as (s & Hs & Hin).
      apply list_elem_of_In in Hs. apply bool_decide_eq_true in Hin.
      assert (Hfilled : exists s, s ∈ segments db /\ Segment.category_id s = uuid id).
      { destruct (decide (Exists (fun s => Segment.category_id s = uuid id) (segments db)))
          as [H|H].
        - apply Exists_exists in H as (x & Hx & E). by exists x.
        - rewrite Hsame in Hs; [by exists s|].
          intros x Hx E. apply H, Exists_exists. by exists x. }
      split; [done|].
      destruct (Htarget Hfilled) as (target & c' & Hmig & Hne & _ & _ & _ & _ & Hback).
      exists target. split; [done|]. split; [done|]. exact (Hback s Hs Hin).
    + assert (Hnone : forall s, s ∈ segs -> Segment.category_id s <> uuid id).
      { intros s Hs E. apply not_true_iff_false in Hex. apply Hex, existsb_exists.
        exists s. split; [by apply list_elem_of_In | by apply bool_decide_eq_true]. }
      simpl. split; [by exists c|]. split; [|split; [done|split; [done|]]].
      * intros x. by rewrite elem_of_filter_b, negb_true_iff, <- not_true_iff_false, Hown.
      * intros Hfilled.
        destruct (Htarget Hfilled)
          as (target & c' & Hmig & _ & Hc' & Hid' & Hu' & (y & Hy & Hcat) & _).
        assert (Hdiff : uuid target <> uuid id).
        { intros E. apply (Hnone y Hy). by rewrite Hcat. }
        exists target, c'. split; [done|]. split; [done|]. split; [|done].
        apply elem_of_filter_b. split; [done|].
        apply negb_true_iff, not_true_iff_false. rewrite Hown. intros [E _].
        congruence.
  - intros target c Hmig Hne Hsame Hc [Hid Hu] (s & Hs & Hcat).
    unfold deleteCategory, transaction, deleteCategory_try.
    assert (Hc' : c ∈ List.filter (owned (uuid userId) (uuid id)) (categories db)).
    { apply elem_of_filter_b. split; [done|]. by apply Hown. }
    destruct (List.filter (owned (uuid userId) (uuid id)) (categories db))
      as [|c0 rest] eqn:Ef; [by apply elem_of_nil in Hc'|].
    unfold migrate.
    assert (Hs' : s ∈ List.filter (in_category (uuid id)) (segments db)).
    { apply elem_of_filter_b. split; [done | by apply bool_decide_eq_true]. }
    destruct (List.filter (in_category (uuid id)) (segments db)) as [|s0 l] eqn:El;
      [by apply elem_of_nil in Hs'|].
    simpl length. cbn [Nat.ltb Nat.leb].
    assert (Htruthy : Segments.truthy migrateToId = Some target).
    { rewrite Hmig. destruct target as [|a t]; [|done].
      exfalso. apply Hne. symmetry. apply uuid_nonempty. by rewrite <- Hsame. }
    rewrite Htruthy, Hsame, Ef.
    assert (Heq : String.eqb id target = false) by (apply String.eqb_neq; congruence).
    rewrite Heq.
    assert (Hex : existsb (in_category (uuid id))
                    (List.map (fun s => if in_category (uuid id) s
                                        then set_category (uuid id) (now env) s else s)
                       (segments db)) = true).
    { apply existsb_exists. exists (set_category (uuid id) (now env) s). split.
      - apply in_map_iff. exists s. unfold in_category at 1.
        rewrite bool_decide_eq_true_2 by done. split; [done | by apply list_elem_of_In].
      - by apply bool_decide_eq_true. }
    by rewrite Hex.
Qed.

(** Two categories of one user, the first with a segment. *)
Definition library : Db :=
  {| categories :=
       [ Category.mk "0a000000-0000-4000-8000-00000000000a" Sample.alice "Bit" 10 0;
         Category.mk "0b000000-0000-4000-8000-00000000000b" Sample.alice "Set" 20 0 ];
     segments :=
       [ Segment.mk "seg-1" Sample.alice "doc-1" "0a000000-0000-4000-8000-00000000000a"
           0 5 "hello" (Some "a title") "#E57373" true 10 10 ] |}.

(** *** [reorderCategories] *)

(** The index of the first occurrence. *)
Fixpoint index_of (id : string) (ids : list string) : option nat :=
  match ids with
  | [] => None
  | x :: rest => if bool_decide (x = id) then Some 0%nat else S <$> index_of id rest
  end.

Lemma index_of_None id ids : id ∉ ids -> index_of id ids = None.
Proof.
  induction ids as [|x rest IH]; simpl; [done|]. intros H.
  rewrite bool_decide_eq_false_2 by (intros ->; apply H; left).
  rewrite IH; [done|]. intros Hin. apply H. by right.
Qed.

Lemma index_of_lookup id ids k : index_of id ids = Some k -> ids !! k = Some id.
Proof.
  revert k. induction ids as [|x rest IH]; intros k; simpl; [done|].
  destruct (bool_decide (x = id)) eqn:E.
  - apply bool_decide_eq_true in E as ->. by intros [= <-].
  - destruct (index_of id rest) as [j|]; simpl; [|done]. intros [= <-]. by apply IH.
Qed.

(** The row of a category after the loop that starts at index [i]. *)
Definition placed (env : Env) (userId : string) (i : nat) (ids : list string)
    (c c' : Category.t) : Prop :=
  match index_of (Category.id c) ids with
  | Some k =>
      if bool_decide (Category.user_id c = userId)
      then c' = set_sort_order ((Z.of_nat (i + k) + 1) * 10) (now env) c
      else c' = c
  | None => c' = c
  end.

Lemma update_sort_orders_placed env userId ids : forall i rows rows',
  NoDup ids ->
  update_sort_orders env userId i ids rows = inr rows' ->
  Forall2 (placed env userId i ids) rows rows'.
Proof.
  induction ids as [|id rest IH]; intros i rows rows' Hnd; simpl.
  - intros [= <-]. by apply Forall2_same.
  - apply NoDup_cons in Hnd as [Hid Hrest].
    destruct (int4 _); [|discriminate]. intros H.
    apply (IH _ _ _ Hrest) in H. clear IH.
    rewrite Forall2_fmap_l in H. eapply Forall2_impl; [exact H|].
    intros c c'. unfold placed, owned. simpl.
    destruct (decide (Category.id c = id)) as [E|E].
    + rewrite (bool_decide_eq_true_2 _ E), (bool_decide_eq_true_2 (id = Category.id c))
        by done.
      simpl. destruct (bool_decide (Category.user_id c = userId)) eqn:Eu; simpl.
      * rewrite E, index_of_None by done. rewrite Nat.add_0_r. by intros ->.
      * rewrite E, index_of_None by done. done.
    + rewrite (bool_decide_eq_false_2 _ E), (bool_decide_eq_false_2 (id = Category.id c))
        by done.
      simpl. destruct (index_of (Category.id c) rest) as [k|]; simpl; [|done].
      by rewrite Nat.add_succ_r.
Qed.

(** X29.  [reorderCategories] either throws and leaves the tables as they
    were, or all the ids given are distinct ids of categories of the user and
    the category at position [k] of the request gets [sort_order]
    [(k + 1) * 10]; categories that are not in the request, and all segments,
    are unchanged.  (Category ids are the primary key.) *)
Theorem reorderCategories_assigns_positions env userId categoryIds db :
  NoDup (Category.id <$> categories db) ->
  let (result, db') := reorderCategories env userId categoryIds db in
  match result with
  | inl e => db' = db
  | inr rows =>
      NoDup categoryIds
      /\ (forall id, id ∈ categoryIds ->
            exists c, c ∈ categories db /\ owned userId id c = true)
      /\ Forall2 (fun c c' =>
           match index_of (Category.id c) categoryIds with
           | Some k => c' = set_sort_order ((Z.of_nat k + 1) * 10) (now env) c
           | None => c' = c
           end) (categories db) (categories db')
      /\ segments db' = segments db
      /\ rows = listCategories userId db'
  end.
Proof.
  intros Hkey. unfold reorderCategories, transaction, reorderCategories_try.
  set (mine := fun c => bool_decide (Category.user_id c = userId)
                        && bool_decide (Category.id c ∈ categoryIds)).
  destruct (negb (length (List.filter mine (categories db)) =? length categoryIds)%nat)
    eqn:Hcount; [done|].
  apply negb_false_iff, Nat.eqb_eq in Hcount.
  set (found := Category.id <$> List.filter mine (categories db)).
  assert (Hnd : NoDup found) by (by apply NoDup_fmap_filter).
  assert (Hsub : forall x, x ∈ found -> x ∈ categoryIds).
  { intros x (c & -> & Hc)%list_elem_of_fmap. apply elem_of_filter_b in Hc as [_ Hc].
    unfold mine in Hc. apply andb_true_iff in Hc as [_ Hc].
    by apply bool_decide_eq_true in Hc. }
  assert (Hperm : found ≡ₚ categoryIds).
  { apply submseteq_length_Permutation; [by apply NoDup_submseteq|].
    unfold found. rewrite length_fmap. lia. }
  assert (Hdistinct : NoDup categoryIds) by (by rewrite <- Hperm).
  assert (Hown : forall id, id ∈ categoryIds ->
            exists c, c ∈ categories db /\ owned userId id c = true).
  { intros id Hid. rewrite <- Hperm in Hid.
    apply list_elem_of_fmap in Hid as (c & -> & Hc).
    apply elem_of_filter_b in Hc as [Hc Hm]. exists c. split; [done|].
    unfold mine in Hm. apply andb_true_iff in Hm as [Hu _].
    unfold owned. by rewrite Hu, bool_decide_eq_true_2. }
  destruct (update_sort_orders env userId 0 categoryIds (categories db))
    as [e|rows] eqn:Eup; [done|].
  split; [done|]. split; [done|]. split; [|done].
  apply (update_sort_orders_placed _ _ _ _ _ _ Hdistinct) in Eup. simpl.
  eapply Forall2_impl_in; [exact Eup|]. intros c c' Hc _. unfold placed. simpl.
  destruct (index_of (Category.id c) categoryIds) as [k|] eqn:Ek; [|done].
  apply index_of_lookup, list_elem_of_lookup_2, Hown in Ek as (c0 & Hc0 & Ho).
  unfold owned in Ho. apply andb_true_iff in Ho as [Hid Hu].
  apply bool_decide_eq_true in Hid, Hu.
  assert (c0 = c) as -> by (by apply (NoDup_fmap_eq Category.id _ _ _ Hkey)).
  by rewrite bool_decide_eq_true_2.
Qed.

(** Two categories of one user; the first holds a segment. *)
Definition shelf : Db :=
  {| categories := [ Category.mk "cat-1" Sample.alice "Bit" 10 0;
                     Category.mk "cat-2" Sample.alice "Set" 20 0 ];
     segments := [Sample.hello] |}.

(** The category is named once in upper case and once as it is stored: the
    texts differ, the segments are migrated onto the category itself, and the
    DELETE fails. *)
Lemma deleteCategory_leaves_no_segment_behind_witness :
  let fk :=
    pg_error "update or delete on table categories violates foreign key constraint" in
  let (error, db') :=
    deleteCategory Sample.one_marker Sample.alice
      "0A000000-0000-4000-8000-00000000000A"
      (Some "0a000000-0000-4000-8000-00000000000a") library in
  error = Some fk /\ db' = library
  /\ (statusCode fk = Some 404 \/ statusCode fk = Some 400
      \/ exists target,
           Some "0a000000-0000-4000-8000-00000000000a" = Some target
           /\ target <> "0A000000-0000-4000-8000-00000000000A"
           /\ uuid target = uuid "0A000000-0000-4000-8000-00000000000A").
Proof.
  intros fk.
  pose proof (deleteCategory_leaves_no_segment_behind Sample.one_marker Sample.alice
                "0A000000-0000-4000-8000-00000000000A"
                (Some "0a000000-0000-4000-8000-00000000000a") library) as [H _].
  destruct (deleteCategory Sample.one_marker Sample.alice
              "0A000000-0000-4000-8000-00000000000A"
              (Some "0a000000-0000-4000-8000-00000000000a") library)
    as [error db'] eqn:E.
  vm_compute in E. injection E as <- <-.
  destruct H as (Hdb & [H|[H|(_ & _ & Ht)]]).
  - split; [reflexivity|]. split; [reflexivity|]. by left.
  - split; [reflexivity|]. split; [reflexivity|]. by right; left.
  - split; [reflexivity|]. split; [reflexivity|]. right; right. exact Ht.
Defined.

(** With the other category as target the segment moves there and the
    category is deleted. *)
Example deleteCategory_migrates :
  deleteCategory Sample.one_marker Sample.alice
    "0A000000-0000-4000-8000-00000000000A"
    (Some "0B000000-0000-4000-8000-00000000000B") library
  = (None,
     {| categories :=
          [ Category.mk "0b000000-0000-4000-8000-00000000000b" Sample.alice "Set" 20 0 ];
        segments :=
          [ Segment.mk "seg-1" Sample.alice "doc-1"
              "0b000000-0000-4000-8000-00000000000b"
              0 5 "hello" (Some "a title") "#E57373" true 10 100 ] |}).
Proof. reflexivity. Qed.

Lemma reorderCategories_assigns_positions_witness :
  NoDup (Category.id <$> categories shelf)
  /\ let (result, db') :=
       reorderCategories Sample.one_marker Sample.alice ["cat-2"; "cat-1"] shelf in
     Category.sort_order <$> categories db' = [20; 10]
     /\ match result with
        | inl e => db' = shelf
        | inr rows =>
            NoDup ["cat-2"; "cat-1"]
            /\ Category.id <$> (category <$> rows) = ["cat-2"; "cat-1"]
        end.
Proof.
  assert (Hkey : NoDup (Category.id <$> categories shelf)).
  { apply bool_decide_eq_true with (H := decide _). vm_compute. reflexivity. }
  split; [exact Hkey|].
  pose proof (reorderCategories_assigns_positions Sample.one_marker Sample.alice
                ["cat-2"; "cat-1"] shelf Hkey) as H.
  destruct (reorderCategories Sample.one_marker Sample.alice ["cat-2"; "cat-1"] shelf)
    as [result db'] eqn:E.
  vm_compute in E. injection E as <- <-.
  destruct H as (Hnd & _). split; [reflexivity|]. split; [exact Hnd | reflexivity].
Defined.

End CategoriesProofs.

(** ** Creating a segment when the palette is empty ([services/segments.ts]) *)

Module EmptyPaletteProofs.
Import Segments Color ColorProofs.

Ltac mrun :=
  unfold bind, ret, throw, try_catch, query, execute, check, await in *.

Lemma length_substring_le (s : string) : forall n m,
  (String.length (String.substring n m s) <= m)%nat.
Proof.
  induction s as [|a s IH]; intros n m; [destruct n, m; simpl; lia|].
  destruct n as [|n]; destruct m as [|m]; simpl; try lia.
  - specialize (IH 0%nat m). lia.
  - apply IH.
  - apply IH.
Qed.

(** The fallback title [text_content.substring(0, 50)] fits VARCHAR(255). *)
Lemma substring_0_50_fits (txt : string) :
  varchar_opt 255 (Some (Js.substring txt 0 50)) = true.
Proof.
  unfold varchar_opt, varchar, Js.substring. apply Nat.leb_le.
  etransitivity; [apply length_substring_le|].
  unfold Js.clamp. lia.
Qed.

(** X30.  For a user whose stored palette is the empty array, [assignColor]
    has no colour to return, and [createSegment] without a colour in the
    request always throws and stores nothing; when the other values of the
    request are acceptable, the error is the NOT NULL violation of
    [segments.color]. *)
Theorem createSegment_fails_on_empty_palette env userId dto w :
  palette_of userId w = [] ->
  truthy (color dto) = None ->
  (exists e w', createSegment env userId dto w = Throw e w' /\ tables w' = tables w)
  /\ (document_id dto ∈ Document.id <$> documents (tables w) ->
      category_id dto ∈ categories (tables w) ->
      int4 (start_offset dto) && int4 (end_offset dto) = true ->
      from_option (varchar 255) true (truthy (title dto)) = true ->
      exists w',
        createSegment env userId dto w
        = Throw (pg_error "null value in column color violates not-null constraint") w').
Proof.
  intros Hpal Hcol.
  destruct (assignColor_selected userId (document_id dto) w) as (w1 & Hrun & Ht & _ & _).
  assert (Hsel : selected userId (document_id dto) w = None).
  { unfold selected, available_in. rewrite Hpal. done. }
  rewrite Hsel in Hrun.
  assert (Hcreate : createSegment env userId dto w
            = match insert_segment env userId (document_id dto) (category_id dto)
                      (start_offset dto) (end_offset dto) (text_content dto)
                      (match truthy (title dto) with
                       | Some t => Some t
                       | None => Some (Js.substring (text_content dto) 0 50)
                       end) None true w1 with
              | Return _ w2 => Throw (pg_error "") w2
              | Throw e w2 => Throw e w2
              end).
  { unfold createSegment. rewrite Hcol. unfold bind at 1. rewrite Hrun.
    unfold bind at 1. unfold insert_segment. mrun.
    destruct (bool_decide _ && bool_decide _); simpl; [|done].
    destruct (int4 _ && int4 _); simpl; [|done].
    by destruct (varchar_opt 255 _). }
  rewrite Hcreate. clear Hcreate. unfold insert_segment. mrun. rewrite Ht. split.
  - destruct (bool_decide _ && bool_decide _); simpl; [|by eexists _, _].
    destruct (int4 _ && int4 _); simpl; [|by eexists _, _].
    destruct (varchar_opt 255 _); simpl; by eexists _, _.
  - intros Hdoc Hcat Hint Htitle.
    rewrite !bool_decide_eq_true_2 by done. simpl. rewrite Hint. simpl.
    assert (Hlen : varchar_opt 255
                     (match truthy (title dto) with
                      | Some t => Some t
                      | None => Some (Js.substring (text_content dto) 0 50)
                      end) = true).
    { destruct (truthy (title dto)) as [t|]; [exact Htitle|].
      apply substring_0_50_fits. }
    rewrite Hlen. simpl. by eexists.
Qed.

(** The sample user after clearing the palette. *)
Definition cleared_palette : World :=
  set_tables
    {| users := users (tables Sample.palette_world);
       user_preferences := [UserPreferences.mk Sample.alice (JsonArray [])];
       categories := categories (tables Sample.palette_world);
       tags := tags (tables Sample.palette_world);
       documents := documents (tables Sample.palette_world);
       segments := segments (tables Sample.palette_world);
       segment_tags := segment_tags (tables Sample.palette_world);
       segment_associations := segment_associations (tables Sample.palette_world);
       color_usage := color_usage (tables Sample.palette_world);
       sync_log := sync_log (tables Sample.palette_world) |}
    Sample.palette_world.

Lemma createSegment_fails_on_empty_palette_witness :
  let w := cleared_palette in
  let dto := Sample.capture 0 5 "hello" in
  palette_of Sample.alice w = []
  /\ truthy (color dto) = None
  /\ (exists e w', createSegment Sample.one_marker Sample.alice dto w = Throw e w'
                   /\ tables w' = tables w)
  /\ exists w',
       createSegment Sample.one_marker Sample.alice dto w
       = Throw (pg_error "null value in column color violates not-null constraint") w'.
Proof.
  intros w dto.
  destruct (createSegment_fails_on_empty_palette Sample.one_marker Sample.alice dto w
              eq_refl eq_refl) as [H1 H2].
  split; [reflexivity|]. split; [reflexivity|]. split; [exact H1|].
  apply H2; try reflexivity.
  - apply bool_decide_eq_true with (H := decide _). vm_compute. reflexivity.
  - apply bool_decide_eq_true with (H := decide _). vm_compute. reflexivity.
Defined.

End EmptyPaletteProofs.
